(** * beattogrid: the browser client (web/app.js) and the warp planner contract

    A shallow embedding of the client script: its global variables and the
    page elements it touches form a [State], every handler of the script is
    a function on [State], and what a handler asks of the browser (network
    requests, WaveSurfer calls, timers) is appended to the state's [trace].
    JavaScript numbers are IEEE-754 binary64 values, the kernel's [float];
    built-ins of the language (Math.min, toFixed, parseFloat, padStart, ...)
    are written out after ECMA-262.  Strings are sequences of 8-bit code
    units; text outside ASCII is kept in UTF-8. *)

From Stdlib Require Import ZArith Floats Lia Bool List String Ascii.
From Stdlib Require Import QArith Qminmax Qround Qpower Qfield Lqa.
Import ListNotations.
Set Warnings "-register-all".
Open Scope string_scope.
Open Scope Z_scope.

(** * JavaScript numbers *)

Definition number := float.

Definition js_lt (a b : number) : bool := (a <? b)%float.
Definition js_le (a b : number) : bool := (a <=? b)%float.
Definition js_gt (a b : number) : bool := (b <? a)%float.
Definition js_ge (a b : number) : bool := (b <=? a)%float.

Definition is_neg_zero (x : number) : bool := is_zero x && get_sign x.
Definition is_pos_zero (x : number) : bool := is_zero x && negb (get_sign x).

(** Math.min and Math.max of two arguments (ECMA-262 21.3.2.24, 21.3.2.25):
    NaN is contagious and -0 counts as smaller than +0. *)
Definition Math_min (a b : number) : number :=
  if is_nan a || is_nan b then nan
  else if js_lt b a then b
  else if is_neg_zero b && is_pos_zero a then b
  else a.

Definition Math_max (a b : number) : number :=
  if is_nan a || is_nan b then nan
  else if js_gt b a then b
  else if is_pos_zero b && is_neg_zero a then b
  else a.

(** The float whose value is the integer [n]; exact for [|n| <= 2^53]. *)
Definition Z2number (n : Z) : number := SF2Prim (binary_normalize prec emax n 0 false).

(** The correctly rounded quotient of two positive integers. *)
Definition ratio2number (p q : positive) : number :=
  SF2Prim (SFdiv prec emax (S754_finite false p 0) (S754_finite false q 0)).

Definition signed_zero (s : bool) : number :=
  if s then PrimFloat.neg_zero else PrimFloat.zero.

(** floor (m * 2^e) for a signed integer [m]. *)
Definition floor_scaled (m e : Z) : Z :=
  if 0 <=? e then m * 2 ^ e else m / 2 ^ (- e).

Definition Math_floor (x : number) : number :=
  match Prim2SF x with
  | S754_finite s m e =>
      if 0 <=? e then x
      else let n := floor_scaled (if s then Zneg m else Zpos m) e in
           if n =? 0 then signed_zero s else Z2number n
  | _ => x
  end.

(** Math.round: the nearest integer, the larger one on a tie; a zero result
    keeps the sign of the argument. *)
Definition Math_round (x : number) : number :=
  match Prim2SF x with
  | S754_finite s m e =>
      if 0 <=? e then x
      else let n := (2 * (if s then Zneg m else Zpos m) + 2 ^ (- e)) / 2 ^ (- e + 1) in
           if n =? 0 then signed_zero s else Z2number n
  | _ => x
  end.

(** The binary64 mantissa and exponent of [R * 2^e], for [R] of at most 53
    bits and [e] not below the least exponent. *)
Definition canonical_pair (R : positive) (e : Z) : positive * Z :=
  let e' := fexp prec emax (Zpos (digits2_pos R) + e) in
  (Z.to_pos (Zpos R * 2 ^ (e - e')), e').

(** The remainder [a % b] (ECMA-262 6.1.6.1.6): truncating, exact, with the
    sign of the dividend. *)
Definition js_rem (a b : number) : number :=
  match Prim2SF a, Prim2SF b with
  | S754_nan, _ | _, S754_nan => nan
  | S754_infinity _, _ => nan
  | _, S754_zero _ => nan
  | S754_zero _, _ => a
  | _, S754_infinity _ => a
  | S754_finite sa ma ea, S754_finite _ mb eb =>
      let e := Z.min ea eb in
      let A := Zpos ma * 2 ^ (ea - e) in
      let B := Zpos mb * 2 ^ (eb - e) in
      match A mod B with
      | Zpos R => let '(m, e') := canonical_pair R e in SF2Prim (S754_finite sa m e')
      | _ => signed_zero sa
      end
  end.

(** * Strings *)

Definition repeat_char (c : ascii) (n : nat) : string := string_of_list_ascii (repeat c n).

Fixpoint take (n : nat) (s : string) : string :=
  match n, s with
  | S k, String c r => String c (take k r)
  | _, _ => EmptyString
  end.

Fixpoint drop (n : nat) (s : string) : string :=
  match n, s with
  | S k, String _ r => drop k r
  | _, _ => s
  end.

Fixpoint cycle (copies : nat) (pad : string) : string :=
  match copies with O => EmptyString | S k => pad ++ cycle k pad end.

(** String.prototype.padStart (ECMA-262 22.1.3.17): the fill string is
    repeated and cut to the missing length. *)
Definition padStart (maxLength : nat) (fillString s : string) : string :=
  let len := String.length s in
  if (maxLength <=? len)%nat then s
  else if (String.length fillString =? 0)%nat then s
  else let fillLen := (maxLength - len)%nat in
       take fillLen (cycle fillLen fillString) ++ s.

Definition digit_char (d : Z) : ascii := ascii_of_nat (48 + Z.to_nat d).

Fixpoint digits_fuel (fuel : nat) (n : Z) : string :=
  match fuel with
  | O => EmptyString
  | S f => if n <? 10 then String (digit_char n) EmptyString
           else digits_fuel f (n / 10) ++ String (digit_char (n mod 10)) EmptyString
  end.

(** The decimal digits of a non-negative integer, without leading zeros. *)
Definition digits (n : Z) : string := digits_fuel (S (Z.to_nat (Z.log2 n))) n.

Definition zeros (n : Z) : string := repeat_char "0"%char (Z.to_nat n).

(** * Numbers to strings *)

(** floor (p/q / 10^t) for positive [p] and [q]. *)
Definition scaled_floor (p q t : Z) : Z :=
  if 0 <=? t then p / (q * 10 ^ t) else (p * 10 ^ (- t)) / q.

(** The float nearest to [c * 10^t], for [c > 0]. *)
Definition decimal2number (c t : Z) : number :=
  if 0 <=? t then ratio2number (Z.to_pos (c * 10 ^ t)) 1
  else ratio2number (Z.to_pos c) (Z.to_pos (10 ^ (- t))).

Fixpoint find_exp10 (fuel : nat) (p q n : Z) : Z :=
  match fuel with
  | O => n
  | S f => if scaled_floor p q n =? 0 then n else find_exp10 f p q (n + 1)
  end.

(** The integer [n] with [10^(n-1) <= p/q < 10^n], searched upwards from an
    estimate that is at most two below it. *)
Definition exp10 (p q : Z) : Z :=
  find_exp10 8 p q ((Zdigits2 p - Zdigits2 q - 1) * 30103 / 100000 - 1).

(** Step 5 of Number::toString (ECMA-262 6.1.6.1.20): the fewest digits [s]
    (their count [k], the decimal exponent [n]) that read back as [x], whose
    value is [p/q]; of two candidates the closer one, the even one on a tie. *)
Fixpoint shortest_fuel (fuel : nat) (x : number) (p q n0 k : Z) : Z * Z * Z :=
  match fuel with
  | O => (0, 1, n0)
  | S f =>
      let t := n0 - k in
      let lo := scaled_floor p q t in
      let hi := lo + 1 in
      let ok c := (0 <? c) && PrimFloat.Leibniz.eqb (decimal2number c t) x in
      let pick c := if c =? 10 ^ k then (10 ^ (k - 1), k, n0 + 1) else (c, k, n0) in
      let mid_cmp :=
        if 0 <=? t then (2 * p ?= (lo + hi) * 10 ^ t * q)
        else (2 * p * 10 ^ (- t) ?= (lo + hi) * q) in
      match ok lo, ok hi with
      | true, true => match mid_cmp with
                      | Lt => pick lo
                      | Gt => pick hi
                      | Eq => if Z.even lo then pick lo else pick hi
                      end
      | true, false => pick lo
      | false, true => pick hi
      | false, false => shortest_fuel f x p q n0 (k + 1)
      end
  end.

Definition format_shortest (x : number) (m : positive) (e : Z) : string :=
  let p := Zpos m * 2 ^ (Z.max e 0) in
  let q := 2 ^ (Z.max (- e) 0) in
  let '(s, k, n) := shortest_fuel 17 x p q (exp10 p q) 1 in
  let ds := digits s in
  if (k <=? n) && (n <=? 21) then ds ++ zeros (n - k)
  else if (0 <? n) && (n <=? 21) then take (Z.to_nat n) ds ++ "." ++ drop (Z.to_nat n) ds
  else if (-6 <? n) && (n <=? 0) then "0." ++ zeros (- n) ++ ds
  else let ex := n - 1 in
       let tail := "e" ++ (if ex <? 0 then "-" else "+") ++ digits (Z.abs ex) in
       if k =? 1 then ds ++ tail else take 1 ds ++ "." ++ drop 1 ds ++ tail.

(** Number::toString(x, 10). *)
Definition Number_toString (x : number) : string :=
  match Prim2SF x with
  | S754_nan => "NaN"
  | S754_zero _ => "0"
  | S754_infinity s => if s then "-Infinity" else "Infinity"
  | S754_finite s m e => (if s then "-" else EmptyString) ++ format_shortest (abs x) m e
  end.

(** The integer nearest to [m * 2^e * 10^f], the larger one on a tie. *)
Definition round_scaled (m : positive) (e : Z) (f : nat) : Z :=
  let M := Zpos m * 10 ^ Z.of_nat f in
  if 0 <=? e then M * 2 ^ e else (2 * M + 2 ^ (- e)) / 2 ^ (- e + 1).

(** Steps 9.b and 9.c of toFixed: the digits of [n], filled with zeros to
    [f + 1] of them, with a point before the last [f]. *)
Definition fixed_digits (n : Z) (f : nat) : string :=
  let m := digits n in
  if (f =? 0)%nat then m
  else let m := padStart (S f) "0" m in
       let k := String.length m in
       take (k - f) m ++ "." ++ drop (k - f) m.

(** Number.prototype.toFixed (ECMA-262 21.1.3.3). *)
Definition toFixed (f : nat) (x : number) : string :=
  match Prim2SF x with
  | S754_finite s m e =>
      if js_ge (abs x) 1e21%float then Number_toString x
      else (if s then "-" else EmptyString) ++ fixed_digits (round_scaled m e f) f
  | S754_zero _ => fixed_digits 0 f
  | _ => Number_toString x
  end.

(** * Strings to numbers *)

(** StrWhiteSpaceChar, on 8-bit code units. *)
Definition is_space (c : ascii) : bool :=
  let n := nat_of_ascii c in
  ((9 <=? n) && (n <=? 13) || (n =? 32) || (n =? 160))%nat.

Fixpoint trim_start (s : string) : string :=
  match s with
  | String c r => if is_space c then trim_start r else s
  | EmptyString => s
  end.

Definition is_digit (c : ascii) : bool :=
  let n := nat_of_ascii c in ((48 <=? n) && (n <=? 57))%nat.

Definition digit_val (c : ascii) : Z := Z.of_nat (nat_of_ascii c) - 48.

(** The longest prefix of decimal digits: its value read after [acc], the
    count of digits read so far, and the rest of the string. *)
Fixpoint read_digits (s : string) (acc : Z) (len : nat) : Z * nat * string :=
  match s with
  | String c r => if is_digit c then read_digits r (10 * acc + digit_val c) (S len)
                  else (acc, len, s)
  | EmptyString => (acc, len, s)
  end.

Definition read_sign (s : string) : bool * string :=
  match s with
  | String "-" r => (true, r)
  | String "+" r => (false, r)
  | _ => (false, s)
  end.

(** The float nearest to [mant * 10^ex], with sign [neg]; an exponent far
    outside the binary64 range is cut short, which does not change the
    result. *)
Definition signed_decimal (neg : bool) (mant ex : Z) : number :=
  let mag :=
    if mant =? 0 then PrimFloat.zero
    else if 400 <? ex then infinity
    else if ex + Z.log2 mant <? -1100 then PrimFloat.zero
    else decimal2number mant ex in
  if neg then (- mag)%float else mag.

(** The ExponentPart at the start of [s], 0 when there is none. *)
Definition read_exponent (s : string) : Z :=
  match s with
  | String c r =>
      if (Ascii.eqb c "e" || Ascii.eqb c "E")%bool then
        let '(neg, r1) := read_sign r in
        let '(v, len, _) := read_digits r1 0 0 in
        if (len =? 0)%nat then 0 else if neg then - v else v
      else 0
  | EmptyString => 0
  end.

(** parseFloat (ECMA-262 19.2.4): the longest prefix of the trimmed string
    that is a StrDecimalLiteral; NaN when there is none. *)
Definition parseFloat (input : string) : number :=
  let '(neg, s) := read_sign (trim_start input) in
  if String.prefix "Infinity" s then (if neg then neg_infinity else infinity)
  else
    let '(ip, ilen, s1) := read_digits s 0 0 in
    let '(mant, flen, s2) :=
      match s1 with
      | String "." r => let '(v, tl, r') := read_digits r ip ilen in (v, (tl - ilen)%nat, r')
      | _ => (ip, O, s1)
      end in
    if ((ilen + flen)%nat =? 0)%nat then nan
    else signed_decimal neg mant (read_exponent s2 - Z.of_nat flen).

(** parseInt(string, 10) (ECMA-262 19.2.5). *)
Definition parseInt10 (input : string) : number :=
  let '(neg, s) := read_sign (trim_start input) in
  let '(v, len, _) := read_digits s 0 0 in
  if (len =? 0)%nat then nan else signed_decimal neg v 0.

(** * JavaScript values *)

(** The values the script handles: what JSON.parse produces, and
    [undefined] for a missing property. *)
Inductive jsval :=
| JUndefined
| JNull
| JBool (b : bool)
| JNum (x : number)
| JStr (s : string)
| JArr (items : list jsval)
| JObj (fields : list (string * jsval)).

(** Messages the engine words itself, which differ between browsers. *)
Inductive engine_error :=
| JsonSyntaxError
| PropertyOfNullish (base : jsval) (prop : string)
| NotAFunction (prop : string)
| FetchFailed.

(** The [message] of an Error: text of the script, or the engine's own. *)
Inductive message :=
| Literal (s : string)
| Engine (e : engine_error).

Inductive completion (A : Type) :=
| Normal (a : A)
| Throw (m : message).
Arguments Normal {A} a.
Arguments Throw {A} m.

Definition ToBoolean (v : jsval) : bool :=
  match v with
  | JUndefined | JNull => false
  | JBool b => b
  | JNum x => negb (is_nan x || is_zero x)
  | JStr s => negb (String.length s =? 0)%nat
  | JArr _ | JObj _ => true
  end.

(** ToString, as template literals and [new Error(value)] apply it. *)
Fixpoint ToString (v : jsval) : string :=
  match v with
  | JUndefined => "undefined"
  | JNull => "null"
  | JBool b => if b then "true" else "false"
  | JNum x => Number_toString x
  | JStr s => s
  | JArr items =>
      String.concat ","
        (map (fun i => match i with JUndefined | JNull => EmptyString | _ => ToString i end) items)
  | JObj _ => "[object Object]"
  end.

(** Objects read from JSON hold each key once. *)
Fixpoint lookup (p : string) (fields : list (string * jsval)) : jsval :=
  match fields with
  | [] => JUndefined
  | (k, v) :: rest => if String.eqb k p then v else lookup p rest
  end.

(** Reading the named property [p] of [v]; the script reads no indices. *)
Definition Get (v : jsval) (p : string) : completion jsval :=
  match v with
  | JUndefined | JNull => Throw (Engine (PropertyOfNullish v p))
  | JObj fields => Normal (lookup p fields)
  | JArr items =>
      Normal (if String.eqb p "length" then JNum (Z2number (Z.of_nat (List.length items)))
              else JUndefined)
  | JStr s =>
      Normal (if String.eqb p "length" then JNum (Z2number (Z.of_nat (String.length s)))
              else JUndefined)
  | JBool _ | JNum _ => Normal JUndefined
  end.

(** [v.toFixed(f)]. *)
Definition call_toFixed (v : jsval) (f : nat) : completion string :=
  match v with
  | JNum x => Normal (toFixed f x)
  | JUndefined | JNull => Throw (Engine (PropertyOfNullish v "toFixed"))
  | _ => Throw (Engine (NotAFunction "toFixed"))
  end.

(** What a JSON reader gets back from JSON.stringify(v): numbers that are
    not finite and [undefined] items become null, -0 becomes 0, and fields
    that are [undefined] are left out. *)
Fixpoint serialize (v : jsval) : jsval :=
  match v with
  | JUndefined => JNull
  | JNum x => if is_finite x then (if is_zero x then JNum PrimFloat.zero else JNum x) else JNull
  | JArr items => JArr (map serialize items)
  | JObj fields =>
      JObj ((fix go (fs : list (string * jsval)) : list (string * jsval) :=
               match fs with
               | [] => []
               | (k, JUndefined) :: rest => go rest
               | (k, w) :: rest => (k, serialize w) :: go rest
               end) fields)
  | _ => v
  end.

(** * The browser side *)

Module File.
Record t := { name : string; type : string; size : Z }.
End File.

Inductive body :=
| JsonText (v : jsval)
| FormData (fields : list (string * File.t)).

Definition JSON_stringify (v : jsval) : body := JsonText (serialize v).

Inductive url :=
| Path (s : string)
| ObjectURL (f : File.t).

Definition url_truthy (u : option url) : bool :=
  match u with
  | None => false
  | Some (Path s) => negb (String.length s =? 0)%nat
  | Some (ObjectURL _) => true
  end.

(** A WaveSurfer instance: the element it draws in, what it was told to
    load, and the file name its ready handler closed over. *)
Record Wave := { container : string; loaded : option url; filename : string }.

(** Callbacks the script hands to setTimeout; timers that only restyle an
    element are left out. *)
Inductive timer :=
| ResolveUpload (data : jsval)
| InitComparison.

(** What the script asks of the browser. *)
Inductive effect :=
| XhrSend (method target : string) (timeout : Z) (b : body)
| Fetch (method target : string) (headers : list (string * string)) (b : body)
| WaveDestroy (container : string)
| WaveLoad (container : string) (u : url)
| WaveZoom (pixelsPerSecond : number)
| WavePlayPause
| ProcessedPlay
| ProcessedPause
| SetTimeout (cb : timer) (ms : Z).

(** Page content: innerHTML and textContent as a forest.  Interpolated
    values are text nodes; inline styles are dropped. *)
Inductive node :=
| Text (s : string)
| Interp (m : message)
| Elem (tag cls : string) (kids : list node).

(** The element properties the script reads or writes. *)
Inductive flag_key :=
| playBtn_disabled | setDownbeatBtn_disabled
| zoomInBtn_disabled | zoomOutBtn_disabled | zoomFitBtn_disabled
| playComparisonBtn_disabled | processBtn_disabled | processBtn_loading.

Inductive text_key :=
| uploadProgressContainer_display | uploadProgressFill_width
| uploadLabel_textContent | uploadPercent_textContent
| playBtnIcon_textContent | timeDisplay_textContent | durationDisplay_textContent
| trackName_textContent | zoomLevelDisplay_textContent
| playComparisonIcon_textContent | playComparisonLabel_textContent
| comparisonSection_display | exportOptions_display
| bpmInput_value | strengthInput_value | cfInput_value
| downloadWavBtn_href | downloadWavBtn_display
| downloadMp3Btn_href | downloadMp3Btn_display.

Inductive html_key :=
| uploadProgress_innerHTML | analysisDiv_innerHTML | anchorInfo_innerHTML
| processStatus_innerHTML.

Definition flag_key_dec (a b : flag_key) : {a = b} + {a <> b}.
Proof. decide equality. Defined.
Definition text_key_dec (a b : text_key) : {a = b} + {a <> b}.
Proof. decide equality. Defined.
Definition html_key_dec (a b : html_key) : {a = b} + {a <> b}.
Proof. decide equality. Defined.

Definition upd {K V : Type} (dec : forall a b : K, {a = b} + {a <> b})
  (m : K -> V) (k : K) (v : V) : K -> V :=
  fun k' => if dec k k' then v else m k'.

(** * The state of the page

    The script's global variables (lines 1-8 and 52 of app.js), the element
    properties, and the requests made of the browser so far.  [jobId] null
    is [JNull]; [anchorTime], the WaveSurfer handles and the two URLs are
    [None] when null. *)
Record State := {
  jobId : jsval;
  anchorTime : option number;
  beats : jsval;
  ws : option Wave;
  wsOriginal : option Wave;
  wsProcessed : option Wave;
  processedAudioUrl : option url;
  originalAudioUrl : option url;
  currentZoom : number;
  flag : flag_key -> bool;
  text : text_key -> string;
  html : html_key -> list node;
  trace : list effect }.

(** [minZoom] and [maxZoom] are assigned once, at lines 53 and 54. *)
Definition minZoom : number := 1%float.
Definition maxZoom : number := 100%float.

Definition set_jobId (v : jsval) (st : State) : State :=
  {| jobId := v;
     anchorTime := anchorTime st;
     beats := beats st;
     ws := ws st;
     wsOriginal := wsOriginal st;
     wsProcessed := wsProcessed st;
     processedAudioUrl := processedAudioUrl st;
     originalAudioUrl := originalAudioUrl st;
     currentZoom := currentZoom st;
     flag := flag st;
     text := text st;
     html := html st;
     trace := trace st |}.

Definition set_anchorTime (v : option number) (st : State) : State :=
  {| jobId := jobId st;
     anchorTime := v;
     beats := beats st;
     ws := ws st;
     wsOriginal := wsOriginal st;
     wsProcessed := wsProcessed st;
     processedAudioUrl := processedAudioUrl st;
     originalAudioUrl := originalAudioUrl st;
     currentZoom := currentZoom st;
     flag := flag st;
     text := text st;
     html := html st;
     trace := trace st |}.

Definition set_beats (v : jsval) (st : State) : State :=
  {| jobId := jobId st;
     anchorTime := anchorTime st;
     beats := v;
     ws := ws st;
     wsOriginal := wsOriginal st;
     wsProcessed := wsProcessed st;
     processedAudioUrl := processedAudioUrl st;
     originalAudioUrl := originalAudioUrl st;
     currentZoom := currentZoom st;
     flag := flag st;
     text := text st;
     html := html st;
     trace := trace st |}.

Definition set_ws (v : option Wave) (st : State) : State :=
  {| jobId := jobId st;
     anchorTime := anchorTime st;
     beats := beats st;
     ws := v;
     wsOriginal := wsOriginal st;
     wsProcessed := wsProcessed st;
     processedAudioUrl := processedAudioUrl st;
     originalAudioUrl := originalAudioUrl st;
     currentZoom := currentZoom st;
     flag := flag st;
     text := text st;
     html := html st;
     trace := trace st |}.

Definition set_wsOriginal (v : option Wave) (st : State) : State :=
  {| jobId := jobId st;
     anchorTime := anchorTime st;
     beats := beats st;
     ws := ws st;
     wsOriginal := v;
     wsProcessed := wsProcessed st;
     processedAudioUrl := processedAudioUrl st;
     originalAudioUrl := originalAudioUrl st;
     currentZoom := currentZoom st;
     flag := flag st;
     text := text st;
     html := html st;
     trace := trace st |}.

Definition set_wsProcessed (v : option Wave) (st : State) : State :=
  {| jobId := jobId st;
     anchorTime := anchorTime st;
     beats := beats st;
     ws := ws st;
     wsOriginal := wsOriginal st;
     wsProcessed := v;
     processedAudioUrl := processedAudioUrl st;
     originalAudioUrl := originalAudioUrl st;
     currentZoom := currentZoom st;
     flag := flag st;
     text := text st;
     html := html st;
     trace := trace st |}.

Definition set_processedAudioUrl (v : option url) (st : State) : State :=
  {| jobId := jobId st;
     anchorTime := anchorTime st;
     beats := beats st;
     ws := ws st;
     wsOriginal := wsOriginal st;
     wsProcessed := wsProcessed st;
     processedAudioUrl := v;
     originalAudioUrl := originalAudioUrl st;
     currentZoom := currentZoom st;
     flag := flag st;
     text := text st;
     html := html st;
     trace := trace st |}.

Definition set_originalAudioUrl (v : option url) (st : State) : State :=
  {| jobId := jobId st;
     anchorTime := anchorTime st;
     beats := beats st;
     ws := ws st;
     wsOriginal := wsOriginal st;
     wsProcessed := wsProcessed st;
     processedAudioUrl := processedAudioUrl st;
     originalAudioUrl := v;
     currentZoom := currentZoom st;
     flag := flag st;
     text := text st;
     html := html st;
     trace := trace st |}.

Definition set_currentZoom (v : number) (st : State) : State :=
  {| jobId := jobId st;
     anchorTime := anchorTime st;
     beats := beats st;
     ws := ws st;
     wsOriginal := wsOriginal st;
     wsProcessed := wsProcessed st;
     processedAudioUrl := processedAudioUrl st;
     originalAudioUrl := originalAudioUrl st;
     currentZoom := v;
     flag := flag st;
     text := text st;
     html := html st;
     trace := trace st |}.

Definition set_flags (v : flag_key -> bool) (st : State) : State :=
  {| jobId := jobId st;
     anchorTime := anchorTime st;
     beats := beats st;
     ws := ws st;
     wsOriginal := wsOriginal st;
     wsProcessed := wsProcessed st;
     processedAudioUrl := processedAudioUrl st;
     originalAudioUrl := originalAudioUrl st;
     currentZoom := currentZoom st;
     flag := v;
     text := text st;
     html := html st;
     trace := trace st |}.

Definition set_texts (v : text_key -> string) (st : State) : State :=
  {| jobId := jobId st;
     anchorTime := anchorTime st;
     beats := beats st;
     ws := ws st;
     wsOriginal := wsOriginal st;
     wsProcessed := wsProcessed st;
     processedAudioUrl := processedAudioUrl st;
     originalAudioUrl := originalAudioUrl st;
     currentZoom := currentZoom st;
     flag := flag st;
     text := v;
     html := html st;
     trace := trace st |}.

Definition set_htmls (v : html_key -> list node) (st : State) : State :=
  {| jobId := jobId st;
     anchorTime := anchorTime st;
     beats := beats st;
     ws := ws st;
     wsOriginal := wsOriginal st;
     wsProcessed := wsProcessed st;
     processedAudioUrl := processedAudioUrl st;
     originalAudioUrl := originalAudioUrl st;
     currentZoom := currentZoom st;
     flag := flag st;
     text := text st;
     html := v;
     trace := trace st |}.

Definition set_trace (v : list effect) (st : State) : State :=
  {| jobId := jobId st;
     anchorTime := anchorTime st;
     beats := beats st;
     ws := ws st;
     wsOriginal := wsOriginal st;
     wsProcessed := wsProcessed st;
     processedAudioUrl := processedAudioUrl st;
     originalAudioUrl := originalAudioUrl st;
     currentZoom := currentZoom st;
     flag := flag st;
     text := text st;
     html := html st;
     trace := v |}.

Definition set_flag (k : flag_key) (v : bool) (st : State) : State :=
  set_flags (upd flag_key_dec (flag st) k v) st.
Definition set_text (k : text_key) (v : string) (st : State) : State :=
  set_texts (upd text_key_dec (text st) k v) st.
Definition set_html (k : html_key) (v : list node) (st : State) : State :=
  set_htmls (upd html_key_dec (html st) k v) st.
Definition emit (e : effect) (st : State) : State := set_trace (trace st ++ [e]) st.

(** * The script: utilities and zoom (lines 56-107) *)

(** formatTime, lines 57-61. *)
Definition formatTime (seconds : number) : string :=
  let mins := Math_floor (seconds / 60)%float in
  let secs := toFixed 3 (js_rem seconds 60%float) in
  padStart 2 "0" (Number_toString mins) ++ ":" ++ padStart 6 "0" secs.

(** updateZoomDisplay, lines 64-74. *)
Definition updateZoomDisplay (st : State) : State :=
  let st1 :=
    if js_ge (currentZoom st) 10%float
    then set_text zoomLevelDisplay_textContent
           (Number_toString (Math_round (currentZoom st)) ++ "x") st
    else set_text zoomLevelDisplay_textContent (toFixed 1 (currentZoom st) ++ "x") st in
  let st2 := set_flag zoomOutBtn_disabled (js_le (currentZoom st1) minZoom) st1 in
  set_flag zoomInBtn_disabled (js_ge (currentZoom st2) maxZoom) st2.

(** zoomIn, lines 77-87. *)
Definition zoomIn (st : State) : State :=
  match ws st with
  | None => st
  | Some _ =>
      if js_ge (currentZoom st) maxZoom then st
      else
        let zoomFactor := if js_lt (currentZoom st) 10%float then 1.5%float else 2%float in
        let st1 := set_currentZoom (Math_min (currentZoom st * zoomFactor)%float maxZoom) st in
        let pixelsPerSecond := Math_max (50 * currentZoom st1)%float 50%float in
        updateZoomDisplay (emit (WaveZoom pixelsPerSecond) st1)
  end.

(** zoomOut, lines 89-99. *)
Definition zoomOut (st : State) : State :=
  match ws st with
  | None => st
  | Some _ =>
      if js_le (currentZoom st) minZoom then st
      else
        let zoomFactor := if js_le (currentZoom st) 10%float then 1.5%float else 2%float in
        let st1 := set_currentZoom (Math_max (currentZoom st / zoomFactor)%float minZoom) st in
        let pixelsPerSecond := Math_max (50 * currentZoom st1)%float 50%float in
        updateZoomDisplay (emit (WaveZoom pixelsPerSecond) st1)
  end.

(** zoomToFit, lines 101-107. *)
Definition zoomToFit (st : State) : State :=
  match ws st with
  | None => st
  | Some _ =>
      let st1 := set_currentZoom minZoom st in
      updateZoomDisplay (emit (WaveZoom 50%float) st1)
  end.

(** * The script: waveforms (lines 109-316) *)

Definition create_wave (c name : string) : Wave :=
  {| container := c; loaded := None; filename := name |}.

Definition wave_load (u : url) (w : Wave) : Wave :=
  {| container := container w; loaded := Some u; filename := filename w |}.

Definition destroy (w : option Wave) (st : State) : State :=
  match w with
  | Some w => emit (WaveDestroy (container w)) st
  | None => st
  end.

(** initComparisonWaveforms, lines 110-156; the ready handler it attaches
    to the processed waveform is [wsProcessed_ready] below. *)
Definition initComparisonWaveforms (st : State) : State :=
  let st1 := destroy (wsOriginal st) st in
  let wo := create_wave "#waveOriginal" EmptyString in
  let st2 := set_wsOriginal (Some wo) st1 in
  let st3 := destroy (wsProcessed st2) st2 in
  let wp := create_wave "#waveProcessed" EmptyString in
  let st4 := set_wsProcessed (Some wp) st3 in
  let st5 :=
    match originalAudioUrl st4 with
    | Some u => if url_truthy (Some u)
                then emit (WaveLoad (container wo) u) (set_wsOriginal (Some (wave_load u wo)) st4)
                else st4
    | None => st4
    end in
  match processedAudioUrl st5 with
  | Some u => if url_truthy (Some u)
              then emit (WaveLoad (container wp) u) (set_wsProcessed (Some (wave_load u wp)) st5)
              else st5
  | None => st5
  end.

(** The ready handler of the processed waveform, lines 151-154.  What
    updateComparisonStats (lines 159-210) writes into the statistics panel
    is display only and is kept apart, as [updateComparisonStats] below. *)
Definition wsProcessed_ready (st : State) : State :=
  set_flag playComparisonBtn_disabled false st.

(** showComparisonSection, lines 213-228. *)
Definition showComparisonSection (st : State) : State :=
  emit (SetTimeout InitComparison 300) (set_text comparisonSection_display "block" st).

(** initWave, lines 231-252; the handlers it attaches follow. *)
Definition initWave (u : url) (name : string) (st : State) : State :=
  let st1 := destroy (ws st) st in
  let w := create_wave "#wave" name in
  let st2 := emit (WaveLoad (container w) u) (set_ws (Some (wave_load u w)) st1) in
  set_originalAudioUrl (Some u) st2.

(** ws.on(ready), lines 254-279; [duration] is ws.getDuration(). *)
Definition ws_ready (duration : number) (st : State) : State :=
  match ws st with
  | None => st
  | Some w =>
      let st1 := set_flag playBtn_disabled false st in
      let st2 := set_flag setDownbeatBtn_disabled false st1 in
      let st3 := set_flag zoomInBtn_disabled false st2 in
      let st4 := set_flag zoomOutBtn_disabled true st3 in
      let st5 := set_flag zoomFitBtn_disabled false st4 in
      let st6 := set_html anchorInfo_innerHTML
                   [Text "Click on waveform to set downbeat anchor point"] st5 in
      let st7 := set_text trackName_textContent
                   (if (String.length (filename w) =? 0)%nat then "Audio Track" else filename w)
                   st6 in
      let st8 := set_text durationDisplay_textContent ("/ " ++ formatTime duration) st7 in
      updateZoomDisplay (set_currentZoom minZoom st8)
  end.

(** ws.on(seek), lines 281-295; [t] is ws.getCurrentTime(). *)
Definition ws_seek (t : number) (st : State) : State :=
  match ws st with
  | None => st
  | Some _ =>
      let st1 := set_anchorTime (Some t) st in
      let st2 := set_html anchorInfo_innerHTML
                   [Elem "span" "text-success" [Text ("Downbeat anchor: " ++ formatTime t)];
                    Text " (click waveform to reposition)"] st1 in
      set_flag processBtn_disabled false st2
  end.

(** ws.on(audioprocess), ws.on(play), ws.on(pause), ws.on(finish),
    lines 298-315. *)
Definition ws_audioprocess (t : number) (st : State) : State :=
  match ws st with
  | None => st
  | Some _ => set_text timeDisplay_textContent (formatTime t) st
  end.

Definition ws_play (st : State) : State :=
  match ws st with None => st | Some _ => set_text playBtnIcon_textContent "⏸" st end.

Definition ws_pause (st : State) : State :=
  match ws st with None => st | Some _ => set_text playBtnIcon_textContent "▶" st end.

Definition ws_finish (st : State) : State :=
  match ws st with
  | None => st
  | Some _ => set_text timeDisplay_textContent (formatTime 0%float)
                (set_text playBtnIcon_textContent "▶" st)
  end.

(** * The script: upload (lines 318-481) *)

Inductive promise (A : Type) :=
| Pending
| Fulfilled (a : A)
| Rejected (m : message).
Arguments Pending {A}.
Arguments Fulfilled {A} a.
Arguments Rejected {A} m.

(** One call of uploadFileWithProgress: the file its closure holds, the
    promise it returned, and the data the 800 ms timer of line 367 is
    holding, if it is running. *)
Record Upload := { file : File.t; result : promise jsval; resolving : option jsval }.

(** resolve and reject act on a pending promise only. *)
Definition settle (r : promise jsval) (u : Upload) : Upload :=
  match result u with
  | Pending => {| file := file u; result := r; resolving := resolving u |}
  | _ => u
  end.

(** The executor of the promise, lines 321-337 and 395-397. *)
Definition uploadFileWithProgress (f : File.t) (st : State) : State * Upload :=
  let st1 := set_text uploadProgressContainer_display "block" st in
  let st2 := set_text uploadLabel_textContent "Uploading audio file..." st1 in
  let st3 := set_text uploadPercent_textContent "0%" st2 in
  let st4 := set_text uploadProgressFill_width "0%" st3 in
  let st5 := set_html analysisDiv_innerHTML [] st4 in
  let st6 := set_html processStatus_innerHTML [] st5 in
  let st7 := set_text exportOptions_display "none" st6 in
  let st8 := set_flag processBtn_disabled true st7 in
  let st9 := set_html anchorInfo_innerHTML [Text "Upload in progress..."] st8 in
  (emit (XhrSend "POST" "/api/upload" 120000 (FormData [("file", f)])) st9,
   {| file := f; result := Pending; resolving := None |}).

(** xhr.upload progress, lines 338-355. *)
Definition xhr_progress (lengthComputable : bool) (loaded total : number) (st : State) : State :=
  if lengthComputable then
    let percentComplete := Math_round ((loaded / total) * 100)%float in
    let shown := Number_toString percentComplete ++ "%" in
    let st1 := set_text uploadProgressFill_width shown st in
    let st2 := set_text uploadPercent_textContent shown st1 in
    set_text uploadLabel_textContent
      (if js_lt percentComplete 30%float then "Uploading audio file..."
       else if js_lt percentComplete 70%float then "Processing audio data..."
       else if js_lt percentComplete 90%float then "Analyzing beats..."
       else "Finishing up...") st2
  else st.

(** [e.detail || fallback], made the message of a new Error. *)
Definition detail_or (fallback : string) (detail : jsval) : message :=
  Literal (ToString (if ToBoolean detail then detail else JStr fallback)).

(** xhr load, lines 357-383; [responseText] is what JSON.parse makes of
    the response text, [None] when it throws. *)
Definition xhr_load (status : Z) (responseText : option jsval) (st : State) (u : Upload)
  : State * Upload :=
  if (200 <=? status) && (status <? 300) then
    match responseText with
    | Some data =>
        let st1 := set_text uploadProgressFill_width "100%" st in
        let st2 := set_text uploadPercent_textContent "100%" st1 in
        let st3 := set_text uploadLabel_textContent "Upload complete!" st2 in
        (emit (SetTimeout (ResolveUpload data) 800) st3,
         {| file := file u; result := result u; resolving := Some data |})
    | None => (st, settle (Rejected (Literal "Failed to parse server response")) u)
    end
  else
    let by_status :=
      Literal ("Upload failed with status " ++ Number_toString (Z2number status)) in
    match responseText with
    | Some errorData =>
        match Get errorData "detail" with
        | Normal detail => (st, settle (Rejected (detail_or "Upload failed" detail)) u)
        | Throw _ => (st, settle (Rejected by_status) u)
        end
    | None => (st, settle (Rejected by_status) u)
    end.

(** The timer of lines 367-370. *)
Definition xhr_resolve_timer (data : jsval) (st : State) (u : Upload) : State * Upload :=
  (set_text uploadProgressContainer_display "none" st, settle (Fulfilled data) u).

(** xhr error and timeout, lines 385-393. *)
Definition xhr_error (st : State) (u : Upload) : State * Upload :=
  (set_text uploadProgressContainer_display "none" st,
   settle (Rejected (Literal "Network error during upload")) u).

Definition xhr_timeout (st : State) (u : Upload) : State * Upload :=
  (set_text uploadProgressContainer_display "none" st,
   settle (Rejected (Literal "Upload timeout")) u).

Definition error_span (m : message) : list node :=
  [Elem "span" "text-error" [Text "⚠ "; Interp m]].

(** The catch block of handleFileUpload, lines 441-445. *)
Definition handleFileUpload_catch (m : message) (st : State) : State :=
  let st1 := set_text uploadProgressContainer_display "none" st in
  let st2 := set_html uploadProgress_innerHTML (error_span m) st1 in
  set_html anchorInfo_innerHTML [Text "Upload failed"] st2.

Definition analysis_grid (bpm count : string) : list node :=
  [Elem "div" "grid"
     [Elem "div" EmptyString
        [Elem "div" "accent-red" [Text bpm]; Elem "div" "muted" [Text "BPM Detected"]];
      Elem "div" EmptyString
        [Elem "div" "accent-blue" [Text count]; Elem "div" "muted" [Text "Beat Points"]]]].

(** handleFileUpload up to its await, lines 403-406. *)
Definition handleFileUpload (f : File.t) (st : State) : State * Upload :=
  uploadFileWithProgress f (set_html uploadProgress_innerHTML [] st).

(** handleFileUpload after uploadFileWithProgress resolved with [data],
    lines 408-439.  An exception leaves the assignments made before it in
    place and runs the catch block. *)
Definition handleFileUpload_resolved (f : File.t) (data : jsval) (st : State) : State :=
  match Get data "job_id", Get data "beats", Get data "bpm_estimate" with
  | Normal job_id, Normal beats_v, Normal bpm_estimate =>
      let st1 := set_beats beats_v (set_jobId job_id st) in
      let st2 := set_html uploadProgress_innerHTML
                   [Elem "span" "text-success" [Text "✓ Upload successful"];
                    Text " • Job: "; Elem "code" EmptyString [Text (ToString (jobId st1))]] st1 in
      match call_toFixed bpm_estimate 2, Get (beats st2) "length", bpm_estimate with
      | Normal bpm_text, Normal count, JNum bpm =>
          let st3 := set_html analysisDiv_innerHTML
                       (analysis_grid bpm_text (ToString count)) st2 in
          let st4 := initWave (ObjectURL f) (File.name f) st3 in
          let st5 := set_text bpmInput_value
                       (toFixed 2 (Math_round (bpm * 100) / 100)%float) st4 in
          set_text exportOptions_display "none"
            (set_text comparisonSection_display "none" st5)
      | Throw m, _, _ => handleFileUpload_catch m st2
      | _, Throw m, _ => handleFileUpload_catch m st2
      | _, _, _ => handleFileUpload_catch (Engine (NotAFunction "toFixed")) st2
      end
  | Throw m, _, _ => handleFileUpload_catch m st
  | _, Throw m, _ => handleFileUpload_catch m st
  | _, _, Throw m => handleFileUpload_catch m st
  end.

(** handleFileUpload once the promise it awaits has settled. *)
Definition handleFileUpload_resume (f : File.t) (r : promise jsval) (st : State) : State :=
  match r with
  | Pending => st
  | Fulfilled data => handleFileUpload_resolved f data st
  | Rejected m => handleFileUpload_catch m st
  end.

(** The test of lines 467-468. *)
Definition validTypes : list string := ["audio/mpeg"; "audio/wav"; "audio/mp4"; "audio/m4a"].

Definition includes (l : list string) (s : string) : bool := existsb (String.eqb s) l.

Definition lower (c : ascii) : ascii :=
  let n := nat_of_ascii c in
  if ((65 <=? n) && (n <=? 90))%nat then ascii_of_nat (n + 32) else c.

Fixpoint lowercase (s : string) : string :=
  match s with
  | EmptyString => EmptyString
  | String c r => String (lower c) (lowercase r)
  end.

Definition ends_with_ci (suffix s : string) : bool :=
  let n := String.length s in
  let k := String.length suffix in
  (k <=? n)%nat && String.eqb (lowercase (drop (n - k) s)) suffix.

(** [name.match(/\.(mp3|wav|m4a)$/i)], as the truth value the test takes. *)
Definition matches_audio_extension (name : string) : bool :=
  ends_with_ci ".mp3" name || ends_with_ci ".wav" name || ends_with_ci ".m4a" name.

Definition maxSize : Z := 100 * 1024 * 1024.

(** The change handler of the file input, lines 449-481, up to the await
    inside handleFileUpload; [selected] is e.target.files[0]. *)
Definition fileInput_change (selected : option File.t) (st : State) : State * option Upload :=
  match selected with
  | None => (st, None)
  | Some f =>
      let st1 := set_text trackName_textContent "No file loaded" st in
      let st2 := set_text timeDisplay_textContent "00:00.000" st1 in
      let st3 := set_text durationDisplay_textContent "/ 00:00.000" st2 in
      let st4 := set_anchorTime None st3 in
      let st5 := set_flag zoomInBtn_disabled true st4 in
      let st6 := set_flag zoomOutBtn_disabled true st5 in
      let st7 := set_flag zoomFitBtn_disabled true st6 in
      let st8 := updateZoomDisplay (set_currentZoom minZoom st7) in
      if negb (includes validTypes (File.type f))
         && negb (matches_audio_extension (File.name f)) then
        (set_html uploadProgress_innerHTML
           [Elem "span" "text-error"
              [Text "⚠ Please select a valid audio file (MP3, WAV, M4A)"]] st8, None)
      else if File.size f >? maxSize then
        (set_html uploadProgress_innerHTML
           [Elem "span" "text-error"
              [Text "⚠ File too large. Maximum size is 100MB."]] st8, None)
      else
        let '(st9, u) := handleFileUpload f st8 in (st9, Some u)
  end.

(** * The script: playback, processing, shortcuts (lines 483-650) *)

(** The click handler of the play button, lines 484-487. *)
Definition playBtn_click (st : State) : State :=
  match ws st with
  | None => st
  | Some _ => emit WavePlayPause st
  end.

Definition anchor_value (a : option number) : jsval :=
  match a with
  | None => JNull
  | Some t => JNum t
  end.

(** The object literal of lines 506-513. *)
Definition payload (st : State) : jsval :=
  JObj [("job_id", jobId st);
        ("target_bpm", JNum (parseFloat (text st bpmInput_value)));
        ("strength", JNum (parseFloat (text st strengthInput_value)));
        ("anchor_time", anchor_value (anchorTime st));
        ("crossfade_ms", JNum (parseInt10 (text st cfInput_value)));
        ("engine", JStr "auto")].

(** The click handler of the process button up to its first await,
    lines 495-520. *)
Definition processBtn_click (st : State) : State :=
  if negb (ToBoolean (jobId st)) then st
  else match anchorTime st with
       | None => st
       | Some _ =>
           let st1 := set_flag processBtn_disabled true st in
           let st2 := set_flag processBtn_loading true st1 in
           let st3 := set_html processStatus_innerHTML
                        [Elem "span" "text-success" [Text "⚡ Processing audio..."];
                         Elem "br" EmptyString [];
                         Elem "span" "text-dim" [Text "Analyze → Time Warp → Export"]] st2 in
           emit (Fetch "POST" "/api/process" [("Content-Type", "application/json")]
                   (JSON_stringify (payload st3))) st3
       end.

(** How the fetch of line 516 ends: rejected, or a response with its
    status and what res.json() makes of its body ([None] when it rejects). *)
Inductive fetch_result :=
| NoResponse
| Response (status : Z) (json : option jsval).

Definition res_ok (status : Z) : bool := (200 <=? status) && (status <=? 299).

(** The catch block, lines 550-554. *)
Definition process_catch (m : message) (st : State) : State :=
  let st1 := set_flag processBtn_loading false st in
  let st2 := set_flag processBtn_disabled false st1 in
  set_html processStatus_innerHTML (error_span m) st2.

(** Lines 527-548. *)
Definition process_success (st : State) : State :=
  let st1 := set_flag processBtn_loading false st in
  let st2 := set_html processStatus_innerHTML
               [Elem "span" "text-success" [Text "✓ Processing complete!"];
                Elem "br" EmptyString [];
                Elem "span" "text-dim" [Text "Your time-warped audio is ready"]] st1 in
  let downloadBaseUrl := "/api/download/" ++ ToString (jobId st2) in
  let st3 := set_text downloadWavBtn_href (downloadBaseUrl ++ "?format=wav") st2 in
  let st4 := set_text downloadMp3Btn_href (downloadBaseUrl ++ "?format=mp3&bitrate=320") st3 in
  let st5 := set_processedAudioUrl
               (Some (Path (downloadBaseUrl ++ "?format=wav&preview=true"))) st4 in
  let st6 := set_text exportOptions_display "block" st5 in
  let st7 := set_text downloadWavBtn_display "inline-flex" st6 in
  let st8 := set_text downloadMp3Btn_display "inline-flex" st7 in
  showComparisonSection st8.

(** The click handler of the process button from the settling of the fetch
    on, lines 522-554. *)
Definition processBtn_settled (r : fetch_result) (st : State) : State :=
  match r with
  | NoResponse => process_catch (Engine FetchFailed) st
  | Response status json =>
      if res_ok status then process_success st
      else match json with
           | None => process_catch (Engine JsonSyntaxError) st
           | Some err =>
               match Get err "detail" with
               | Normal detail => process_catch (detail_or "Process failed" detail) st
               | Throw m => process_catch m st
               end
           end
  end.

(** The click handler of the comparison button, lines 558-573; [isPlaying]
    is wsProcessed.isPlaying(). *)
Definition playComparisonBtn_click (isPlaying : bool) (st : State) : State :=
  match wsProcessed st with
  | None => st
  | Some _ =>
      if isPlaying
      then set_text playComparisonLabel_textContent "Play Processed"
             (set_text playComparisonIcon_textContent "▶" (emit ProcessedPause st))
      else set_text playComparisonLabel_textContent "Pause Processed"
             (set_text playComparisonIcon_textContent "⏸" (emit ProcessedPlay st))
  end.

(** The keydown handler, lines 576-599. *)
Definition document_keydown (targetTagName key : string) (st : State) : State :=
  if String.eqb targetTagName "INPUT" then st
  else if String.eqb key "+" || String.eqb key "=" then zoomIn st
  else if String.eqb key "-" then zoomOut st
  else if String.eqb key "0" then zoomToFit st
  else if String.eqb key " " then playBtn_click st
  else st.

(** The wheel handler of the waveform, lines 638-648. *)
Definition wave_wheel (ctrlKey : bool) (deltaY : number) (st : State) : State :=
  match ws st with
  | None => st
  | Some _ =>
      if negb ctrlKey then st
      else if js_lt deltaY 0%float then zoomIn st else zoomOut st
  end.

(** The DOMContentLoaded handler, lines 615-618, without its animations. *)
Definition document_loaded (st : State) : State :=
  set_text durationDisplay_textContent "/ 00:00.000"
    (set_text timeDisplay_textContent "00:00.000" st).

(** * The script: comparison statistics (lines 158-210) *)

(** The longest prefix of decimal digits, and what follows it. *)
Fixpoint span_digits (s : string) : string * string :=
  match s with
  | String c r =>
      if is_digit c then let '(d, rest) := span_digits r in (String c d, rest)
      else (EmptyString, s)
  | EmptyString => (EmptyString, s)
  end.

(** The first match of the pattern of line 169, digits with an optional
    point and more digits after them; [None] when [s] holds no digit. *)
Fixpoint match_number (s : string) : option string :=
  match s with
  | EmptyString => None
  | String c r =>
      if is_digit c then
        let '(ip, after) := span_digits s in
        match after with
        | String "." r2 => Some (ip ++ "." ++ fst (span_digits r2))
        | _ => Some ip
        end
      else match_number r
  end.

(** Lines 166-172: the tempo read back from the text of the analysis
    panel, 120 when it holds no number. *)
Definition originalBpm_of (analysisText : string) : number :=
  match match_number analysisText with
  | Some bpmMatch => parseFloat bpmMatch
  | None => 120%float
  end.

(** [a || b] for numbers. *)
Definition number_or (a b : number) : number := if ToBoolean (JNum a) then a else b.

Definition stat_item (label cls value : string) : node :=
  Elem "div" "stat-item"
    [Elem "span" "stat-label" [Text label]; Elem "span" cls [Text value]].

(** updateComparisonStats, lines 159-210: what it assigns to
    comparisonStats.innerHTML, [None] when it returns at line 160.
    [originalDuration] and [processedDuration] are what the getDuration
    calls return and [analysisText] is analysisDiv.textContent.  Nothing
    inside the try block throws for numbers, so the catch block of lines
    206-209 is not entered. *)
Definition updateComparisonStats (originalDuration processedDuration : number)
    (analysisText : string) (st : State) : option (list node) :=
  match ws st, wsProcessed st with
  | Some _, Some _ =>
      let originalBpm := originalBpm_of analysisText in
      let targetBpm := number_or (parseFloat (text st bpmInput_value)) originalBpm in
      let timeDiff := (processedDuration - originalDuration)%float in
      let bpmChange := (targetBpm - originalBpm)%float in
      let percentChange := ((processedDuration / originalDuration - 1) * 100)%float in
      let anchor := match anchorTime st with
                    | Some t => number_or t 0%float
                    | None => 0%float
                    end in
      Some
        [stat_item "Original Duration:" "stat-value" (formatTime originalDuration);
         stat_item "Processed Duration:" "stat-value" (formatTime processedDuration);
         stat_item "Time Difference:"
           ("stat-value " ++ (if js_ge timeDiff 0%float then "text-warning" else "text-success"))
           ((if js_ge timeDiff 0%float then "+" else EmptyString) ++ toFixed 3 timeDiff ++ "s");
         stat_item "BPM Change:"
           ("stat-value " ++ (if js_ge bpmChange 0%float then "text-success" else "text-warning"))
           (toFixed 1 originalBpm ++ " → " ++ toFixed 1 targetBpm);
         stat_item "Length Change:"
           ("stat-value "
            ++ (if js_ge percentChange 0%float then "text-warning" else "text-success"))
           ((if js_ge percentChange 0%float then "+" else EmptyString)
            ++ toFixed 1 percentChange ++ "%");
         stat_item "Anchor Point:" "stat-value" (formatTime anchor)]
  | _, _ => None
  end.

(** * Events

    Everything that can run a handler of the script.  An event of an upload
    carries the closure of that upload. *)
Inductive event :=
| DOMContentLoaded
| FileChange (selected : option File.t)
| XhrProgress (lengthComputable : bool) (loaded total : number)
| XhrLoad (u : Upload) (status : Z) (responseText : option jsval)
| XhrError (u : Upload)
| XhrTimeout (u : Upload)
| TimerResolveUpload (u : Upload) (data : jsval)
| TimerInitComparison
| WsReady (duration : number)
| WsSeek (t : number)
| WsAudioprocess (t : number)
| WsPlay
| WsPause
| WsFinish
| WsProcessedReady
| PlayClick
| ZoomInClick
| ZoomOutClick
| ZoomFitClick
| ProcessClick
| ProcessSettled (r : fetch_result)
| PlayComparisonClick (isPlaying : bool)
| KeyDown (targetTagName key : string)
| Wheel (ctrlKey : bool) (deltaY : number).

(** The continuation of handleFileUpload runs when the promise it awaits
    goes from pending to settled. *)
Definition resume_upload (before : Upload) (after : State * Upload) : State :=
  match result before with
  | Pending => handleFileUpload_resume (file (snd after)) (result (snd after)) (fst after)
  | _ => fst after
  end.

Definition step (e : event) (st : State) : State :=
  match e with
  | DOMContentLoaded => document_loaded st
  | FileChange selected => fst (fileInput_change selected st)
  | XhrProgress c l t => xhr_progress c l t st
  | XhrLoad u status responseText => resume_upload u (xhr_load status responseText st u)
  | XhrError u => resume_upload u (xhr_error st u)
  | XhrTimeout u => resume_upload u (xhr_timeout st u)
  | TimerResolveUpload u data => resume_upload u (xhr_resolve_timer data st u)
  | TimerInitComparison => initComparisonWaveforms st
  | WsReady duration => ws_ready duration st
  | WsSeek t => ws_seek t st
  | WsAudioprocess t => ws_audioprocess t st
  | WsPlay => ws_play st
  | WsPause => ws_pause st
  | WsFinish => ws_finish st
  | WsProcessedReady => match wsProcessed st with None => st | Some _ => wsProcessed_ready st end
  | PlayClick => playBtn_click st
  | ZoomInClick => zoomIn st
  | ZoomOutClick => zoomOut st
  | ZoomFitClick => zoomToFit st
  | ProcessClick => processBtn_click st
  | ProcessSettled r => processBtn_settled r st
  | PlayComparisonClick isPlaying => playComparisonBtn_click isPlaying st
  | KeyDown tag key => document_keydown tag key st
  | Wheel ctrlKey deltaY => wave_wheel ctrlKey deltaY st
  end.

Fixpoint run (es : list event) (st : State) : State :=
  match es with
  | [] => st
  | e :: rest => run rest (step e st)
  end.

(** * The warp planner (spec section 4.2)

    The planner runs on the server, whose source is not part of the
    repository files at hand; it is written out here from the
    specification, over exact rationals. *)
Module WarpPlanner.

(** Modelled from the spec: a WarpCurve segment
    [(source_time_start, source_time_end, output_ratio)] of section 3. *)
Record segment := { source_time_start : Q; source_time_end : Q; output_ratio : Q }.

(** Modelled from the spec: the inputs of the Warp Planner, section 4.2,
    with the tempo estimate and the duration of the track it plans for. *)
Record request := {
  beats : list Q;
  bpm_estimate : Q;
  source_duration : Q;
  target_bpm : Q;
  anchor_time : Q;
  strength : Q }.

(** Modelled from the spec: the two failures of the Warp Planner. *)
Inductive failure := InvalidAnchor | InvalidParameter.

Inductive outcome :=
| Planned (curve : list segment)
| Failed (why : failure).

(** Modelled from the spec: [strength] is clamped to [0, 1]. *)
Definition clamp01 (s : Q) : Q := Qmax 0 (Qmin 1 s).

(** Modelled from the spec: the blended duration of a beat interval,
    [reference_duration * (1 - strength) + target_duration * strength]. *)
Definition blended (reference_duration target_duration s : Q) : Q :=
  (reference_duration * (1 - s) + target_duration * s)%Q.

(** Modelled from the spec: one segment per beat interval, with ratio
    [output_duration / reference_duration]. *)
Fixpoint beat_segments (target_duration s : Q) (bs : list Q) : list segment :=
  match bs with
  | b1 :: ((b2 :: _) as rest) =>
      {| source_time_start := b1; source_time_end := b2;
         output_ratio := (blended (b2 - b1) target_duration s / (b2 - b1))%Q |}
      :: beat_segments target_duration s rest
  | _ => []
  end.

Definition first_ratio (segs : list segment) : Q :=
  match segs with
  | g :: _ => output_ratio g
  | [] => 1%Q
  end.

Definition last_ratio (segs : list segment) : Q := first_ratio (rev segs).

(** Modelled from the spec: the segmentation of the whole source.  The
    stretches before the first and after the last beat reuse the ratio of
    the nearest interval; with fewer than two beats one segment stretches
    the track uniformly by [bpm_estimate / target_bpm]. *)
Definition curve_of (r : request) : list segment :=
  match beats r with
  | b1 :: _ :: _ =>
      let inner := beat_segments (60 / target_bpm r)%Q (clamp01 (strength r)) (beats r) in
      {| source_time_start := 0%Q; source_time_end := b1; output_ratio := first_ratio inner |}
      :: inner
      ++ [{| source_time_start := last (beats r) b1; source_time_end := source_duration r;
             output_ratio := last_ratio inner |}]
  | _ =>
      [{| source_time_start := 0%Q; source_time_end := source_duration r;
          output_ratio := (bpm_estimate r / target_bpm r)%Q |}]
  end.

(** Modelled from the spec: the Warp Planner fails with InvalidParameter
    when [target_bpm <= 0] and with InvalidAnchor when the anchor is outside
    [0, source_duration]. *)
Definition plan (r : request) : outcome :=
  if Qle_bool (target_bpm r) 0 then Failed InvalidParameter
  else if Qle_bool 0 (anchor_time r) && Qle_bool (anchor_time r) (source_duration r)
       then Planned (curve_of r)
       else Failed InvalidAnchor.

(** The source time segment [g] shares with the stretch from [a] to [b]. *)
Definition overlap (g : segment) (a b : Q) : Q :=
  Qmax 0 (Qmin b (source_time_end g) - Qmax a (source_time_start g))%Q.

(** Output time taken by the source stretch from [a] to [b]. *)
Definition elapsed (curve : list segment) (a b : Q) : Q :=
  fold_right (fun g acc => (output_ratio g * overlap g a b + acc)%Q) 0%Q curve.

(** Modelled from the spec: the warp map, built by walking outward from the
    anchor in both directions and accumulating the output duration of what
    lies between the anchor and [t]. *)
Definition warp (curve : list segment) (anchor t : Q) : Q :=
  if Qle_bool anchor t then (anchor + elapsed curve anchor t)%Q
  else (anchor - elapsed curve t anchor)%Q.

(** The scenario of the specification: 60 s at 120 BPM, beats every half
    second, target 130 BPM, full strength, anchor at 10 s. *)
Definition scenario : request :=
  {| beats := map (fun k => (Z.of_nat k # 2)%Q) (seq 0 121);
     bpm_estimate := 120; source_duration := 60; target_bpm := 130;
     anchor_time := 10; strength := 1 |}.

End WarpPlanner.

(** * Notions the properties are stated with *)

(** The three zoom operations of lines 77-107. *)
Inductive zoom_op := ZoomIn | ZoomOut | ZoomToFit.

Definition apply_zoom (op : zoom_op) (st : State) : State :=
  match op with
  | ZoomIn => zoomIn st
  | ZoomOut => zoomOut st
  | ZoomToFit => zoomToFit st
  end.

Definition run_zoom (ops : list zoom_op) (st : State) : State :=
  fold_left (fun s op => apply_zoom op s) ops st.

(** [minZoom <= z <= maxZoom], with the comparisons of the language. *)
Definition in_zoom_range (z : number) : Prop :=
  js_le minZoom z = true /\ js_le z maxZoom = true.

(** The values handed to ws.zoom, oldest first. *)
Fixpoint zoom_calls (tr : list effect) : list number :=
  match tr with
  | [] => []
  | WaveZoom pps :: rest => pps :: zoom_calls rest
  | _ :: rest => zoom_calls rest
  end.

(** [s] with zeros put before it until it has at least [w] characters. *)
Definition zero_pad (w : nat) (s : string) : string :=
  repeat_char "0"%char (w - String.length s) ++ s.

(** The last [f] decimal digits of [r], leading zeros included. *)
Fixpoint frac_digits (f : nat) (r : Z) : string :=
  match f with
  | O => EmptyString
  | S k => frac_digits k (r / 10) ++ String (digit_char (r mod 10)) EmptyString
  end.

(** The decimal numeral of [n / 10^f] with exactly [f] decimal places. *)
Definition decimal_fixed (n : Z) (f : nat) : string :=
  digits (n / 10 ^ Z.of_nat f) ++ "." ++ frac_digits f (n mod 10 ^ Z.of_nat f).

(** The rational [m * 2^e]. *)
Definition exact_value (m : positive) (e : Z) : Q := (inject_Z (Zpos m) * 2 ^ e)%Q.

(** The exact value of a number that is neither NaN nor infinite. *)
Definition number_value (x : number) : option Q :=
  match Prim2SF x with
  | S754_zero _ => Some 0%Q
  | S754_finite s m e => Some (if s then (- exact_value m e)%Q else exact_value m e)
  | _ => None
  end.

(** [v mod d] for rationals: [v - d * floor (v / d)]. *)
Definition Qmod (v d : Q) : Q := (v - d * inject_Z (Qfloor (v / d)))%Q.

(** The integer nearest to [q], the larger one on a tie. *)
Definition nearest (q : Q) : Z := Qfloor (q + (1 # 2))%Q.

(** The network requests in a trace: what the script sends with
    XMLHttpRequest and fetch. *)
Fixpoint requests (tr : list effect) : list effect :=
  match tr with
  | [] => []
  | XhrSend m t ms b :: rest => XhrSend m t ms b :: requests rest
  | Fetch m t h b :: rest => Fetch m t h b :: requests rest
  | _ :: rest => requests rest
  end.

(** The upload contract on a file: an audio MIME type of the list or a name
    ending in .mp3, .wav or .m4a in any letter case, and at most 100 MB. *)
Definition audio_extensions : list string := [".mp3"; ".wav"; ".m4a"].

Definition accepted (f : File.t) : Prop :=
  (In (File.type f) validTypes
   \/ exists stem ext, File.name f = stem ++ ext /\ In (lowercase ext) audio_extensions)
  /\ File.size f <= 100 * 1024 * 1024.



(** A page before any file was chosen: the globals as lines 1-8 and 52
    initialise them, every element empty and enabled. *)
Definition blank_page : State :=
  {| jobId := JNull; anchorTime := None; beats := JArr [];
     ws := None; wsOriginal := None; wsProcessed := None;
     processedAudioUrl := None; originalAudioUrl := None;
     currentZoom := 1%float;
     flag := fun _ => false; text := fun _ => EmptyString; html := fun _ => [];
     trace := [] |}.

Definition sample_file : File.t :=
  {| File.name := "Take Five.MP3"; File.type := "audio/mpeg"; File.size := 4200000 |}.

Definition sample_response : jsval :=
  JObj [("job_id", JStr "7f3a"); ("bpm_estimate", JNum 120.5%float);
        ("beats", JArr [JNum 0.5%float; JNum 1%float; JNum 1.5%float])].

(** The page after [sample_file] was uploaded and analysed, the inputs
    filled in and the waveform clicked at 10 seconds. *)
Definition sample_page : State :=
  let st1 := fst (fileInput_change (Some sample_file) blank_page) in
  let st2 := handleFileUpload_resolved sample_file sample_response st1 in
  let st3 := set_text cfInput_value "20" (set_text strengthInput_value "0.75" st2) in
  ws_seek 10%float (ws_ready 60%float st3).

(** What destroying the waveform behind a handle, and loading a URL that
    is set, ask of the browser. *)
Definition wave_destroyed (w : option Wave) : list effect :=
  match w with
  | Some w => [WaveDestroy (container w)]
  | None => []
  end.

Definition wave_loaded (c : string) (u : option url) : list effect :=
  match u with
  | Some v => if url_truthy u then [WaveLoad c v] else []
  | None => []
  end.



(** Whether the waveform of container [c] has audio loaded after the
    effects [tr], given whether it had before. *)
Fixpoint holds_audio (c : string) (live : bool) (tr : list effect) : bool :=
  match tr with
  | [] => live
  | WaveLoad c' _ :: rest => holds_audio c (if String.eqb c' c then true else live) rest
  | WaveDestroy c' :: rest => holds_audio c (if String.eqb c' c then false else live) rest
  | _ :: rest => holds_audio c live rest
  end.

(** No audio is loaded into container [c] while a waveform that was loaded
    there before has not been destroyed. *)
Fixpoint loads_in_turn (c : string) (live : bool) (tr : list effect) : bool :=
  match tr with
  | [] => true
  | WaveLoad c' _ :: rest =>
      if String.eqb c' c then negb live && loads_in_turn c true rest
      else loads_in_turn c live rest
  | WaveDestroy c' :: rest =>
      loads_in_turn c (if String.eqb c' c then false else live) rest
  | _ :: rest => loads_in_turn c live rest
  end.

(** The global variable that holds the waveform of a container. *)
Definition handle_of (c : string) (st : State) : option Wave :=
  if String.eqb c "#wave" then ws st
  else if String.eqb c "#waveOriginal" then wsOriginal st
  else if String.eqb c "#waveProcessed" then wsProcessed st
  else None.

Definition touches_wave (e : effect) : bool :=
  match e with
  | WaveLoad _ _ | WaveDestroy _ => true
  | _ => false
  end.

(** The waveforms are in order when each handle holds a waveform of its
    own container, no container saw audio loaded over a live waveform, and
    a container that holds audio has its handle set. *)
Definition waves_in_order (st : State) : Prop :=
  (forall w, ws st = Some w -> container w = "#wave")
  /\ (forall w, wsOriginal st = Some w -> container w = "#waveOriginal")
  /\ (forall w, wsProcessed st = Some w -> container w = "#waveProcessed")
  /\ forall c, loads_in_turn c false (trace st) = true
               /\ (holds_audio c false (trace st) = true -> handle_of c st <> None).

(** The text content of the analysis panel as the template of lines
    413-424 lays it out, for the two values it shows. *)
Definition lf_spaces (n : nat) : string := String (ascii_of_nat 10) (repeat_char " "%char n).

Definition analysis_textContent (bpm count : string) : string :=
  lf_spaces 6 ++ lf_spaces 8 ++ lf_spaces 10 ++ bpm
  ++ lf_spaces 10 ++ "BPM Detected" ++ lf_spaces 8
  ++ lf_spaces 8 ++ lf_spaces 10 ++ count
  ++ lf_spaces 10 ++ "Beat Points" ++ lf_spaces 8 ++ lf_spaces 6 ++ lf_spaces 4.

(** The value of a string of decimal digits read after [acc]. *)
Fixpoint numeral_value (acc : Z) (s : string) : Z :=
  match s with
  | EmptyString => acc
  | String c r => numeral_value (10 * acc + digit_val c) r
  end.

Fixpoint all_digits (s : string) : bool :=
  match s with
  | EmptyString => true
  | String c r => is_digit c && all_digits r
  end.

Definition starts_with_digit (s : string) : bool :=
  match s with
  | String c _ => is_digit c
  | EmptyString => false
  end.

(** The width of the progress bar is the percentage shown beside it. *)
Definition bar_agrees (st : State) : Prop :=
  text st uploadProgressFill_width = text st uploadPercent_textContent.

(** The zoom label and the two zoom buttons are as updateZoomDisplay
    (lines 64-74) leaves them for the current zoom level. *)
Definition zoom_shown (st : State) : Prop :=
  text st zoomLevelDisplay_textContent
  = (if js_ge (currentZoom st) 10%float
     then Number_toString (Math_round (currentZoom st)) ++ "x"
     else toFixed 1 (currentZoom st) ++ "x")
  /\ flag st zoomOutBtn_disabled = js_le (currentZoom st) minZoom
  /\ flag st zoomInBtn_disabled = js_ge (currentZoom st) maxZoom.

(** * Binary64 arithmetic

    Facts about rounding, read off the specification of the float
    operations ([SpecFloat]): how many bits an integer has, what shifting
    to the 53-bit format leaves, and where a product or a quotient lands. *)

Lemma digits2_pos_bounds (p : positive) :
  2 ^ (Zpos (digits2_pos p) - 1) <= Zpos p < 2 ^ Zpos (digits2_pos p).
Proof.
  induction p as [p IH | p IH | ]; cbn [digits2_pos].
  - rewrite Pos2Z.inj_succ.
    replace (Z.succ (Zpos (digits2_pos p)) - 1) with (Z.succ (Zpos (digits2_pos p) - 1)) by lia.
    rewrite !Z.pow_succ_r by lia. lia.
  - rewrite Pos2Z.inj_succ.
    replace (Z.succ (Zpos (digits2_pos p)) - 1) with (Z.succ (Zpos (digits2_pos p) - 1)) by lia.
    rewrite !Z.pow_succ_r by lia. lia.
  - cbn. lia.
Qed.

Lemma Zdigits2_bounds (M : Z) : 0 < M -> 2 ^ (Zdigits2 M - 1) <= M < 2 ^ Zdigits2 M.
Proof. destruct M; try lia. intros _. apply digits2_pos_bounds. Qed.

Lemma Zdigits2_unique (M k : Z) : 0 < k -> 2 ^ (k - 1) <= M < 2 ^ k -> Zdigits2 M = k.
Proof.
  intros Hk [Hlo Hhi].
  assert (0 < M) by (pose proof (Z.pow_pos_nonneg 2 (k - 1)); lia).
  destruct M as [|P|P]; try lia. cbn [Zdigits2].
  pose proof (digits2_pos_bounds P) as [Blo Bhi].
  set (d := Zpos (digits2_pos P)) in *.
  assert (d - 1 < k) by (apply (Z.pow_lt_mono_r_iff 2); lia).
  assert (k - 1 < d) by (apply (Z.pow_lt_mono_r_iff 2); lia).
  lia.
Qed.

Lemma Zdigits2_ge (M k : Z) : 0 <= k -> 2 ^ k <= M -> k < Zdigits2 M.
Proof.
  intros Hk H. assert (0 < M) by (pose proof (Z.pow_pos_nonneg 2 k); lia).
  pose proof (Zdigits2_bounds M ltac:(lia)) as [_ Hhi].
  destruct (Z_lt_le_dec k (Zdigits2 M)) as [|Hle]; [assumption|].
  assert (0 <= Zdigits2 M) by (destruct M; cbn; lia).
  pose proof (Z.pow_le_mono_r 2 _ _ ltac:(lia) Hle). lia.
Qed.

Lemma shr_1_m (r : shr_record) : 0 <= shr_m r -> shr_m (shr_1 r) = shr_m r / 2.
Proof.
  intros H. rewrite <- Z.div2_div.
  destruct r as [[|[p|p|]|p] b s]; try reflexivity. cbn in H. lia.
Qed.

Lemma iter_shr_1_m (p : positive) : forall r, 0 <= shr_m r ->
  shr_m (SpecFloat.iter_pos shr_1 p r) = shr_m r / 2 ^ Zpos p.
Proof.
  induction p as [p IH | p IH | ]; intros r Hr; cbn [SpecFloat.iter_pos].
  - assert (H1 : 0 <= shr_m (shr_1 r)).
    { rewrite shr_1_m by lia. apply Z.div_pos; lia. }
    assert (H2 : 0 <= shr_m (SpecFloat.iter_pos shr_1 p (shr_1 r))).
    { rewrite IH by lia. apply Z.div_pos; [lia | apply Z.pow_pos_nonneg; lia]. }
    rewrite IH, IH by lia. rewrite shr_1_m by lia.
    rewrite !Z.div_div by (try apply Z.pow_pos_nonneg; lia).
    f_equal. change 2 with (2 ^ 1) at 1. rewrite <- !Z.pow_add_r by lia. f_equal. lia.
  - assert (H2 : 0 <= shr_m (SpecFloat.iter_pos shr_1 p r)).
    { rewrite IH by lia. apply Z.div_pos; [lia | apply Z.pow_pos_nonneg; lia]. }
    rewrite IH, IH by lia.
    rewrite !Z.div_div by (try apply Z.pow_pos_nonneg; lia).
    f_equal. rewrite <- Z.pow_add_r by lia. f_equal. lia.
  - rewrite shr_1_m by lia. reflexivity.
Qed.

Lemma shr_record_of_loc_m M l : shr_m (shr_record_of_loc M l) = M.
Proof. destruct l as [|[]]; reflexivity. Qed.

(** Shifting an integer of at least 53 bits to the format keeps its top 53
    bits. *)
Lemma shr_fexp_normal (M E : Z) (l : location) :
  2 ^ 52 <= M -> -1074 <= Zdigits2 M + E - 53 ->
  exists r, shr_fexp 53 1024 M E l = (r, Zdigits2 M + E - 53)
            /\ shr_m r = M / 2 ^ (Zdigits2 M - 53).
Proof.
  intros HM He.
  pose proof (Zdigits2_ge M 52 ltac:(lia) HM) as Hd.
  unfold shr_fexp, fexp, emin.
  replace (Z.max (Zdigits2 M + E - 53) (3 - 1024 - 53) - E) with (Zdigits2 M - 53) by lia.
  destruct (Zdigits2 M - 53) as [|p|p] eqn:En; try lia; cbn [shr].
  - eexists; split; [f_equal; lia|].
    rewrite shr_record_of_loc_m, Z.pow_0_r, Z.div_1_r. reflexivity.
  - eexists; split; [f_equal; lia|].
    rewrite iter_shr_1_m; rewrite shr_record_of_loc_m; [reflexivity | lia].
Qed.

Lemma round_nearest_even_cases m l :
  round_nearest_even m l = m \/ round_nearest_even m l = m + 1.
Proof. destruct l as [|[]]; cbn; try destruct (Z.even m); auto. Qed.

(** Rounding an integer [M] of at least 53 bits at exponent [E]: the result
    is finite or an overflow, with a 53-bit mantissa at the exponent that
    the bit count of [M] gives, or the least mantissa one exponent up. *)
Lemma binary_round_aux_normal (s : bool) (M E : Z) (l : location) :
  2 ^ 52 <= M -> -1074 <= Zdigits2 M + E - 53 ->
  exists m' e',
    binary_round_aux 53 1024 s M E l =
      (if e' <=? 971 then S754_finite s m' e' else S754_infinity s)
    /\ ((e' = Zdigits2 M + E - 53 /\ 2 ^ 52 <= Zpos m' < 2 ^ 53)
        \/ (e' = Zdigits2 M + E - 52 /\ Zpos m' = 2 ^ 52)).
Proof.
  intros HM He.
  pose proof (Zdigits2_ge M 52 ltac:(lia) HM) as Hd.
  assert (H0 : 0 < M) by lia.
  pose proof (Zdigits2_bounds M H0) as [Blo Bhi].
  destruct (shr_fexp_normal M E l HM He) as (r & Hr & Hm).
  unfold binary_round_aux. rewrite Hr.
  set (e1 := Zdigits2 M + E - 53) in *.
  set (m1 := shr_m r) in *.
  assert (Hm1 : 2 ^ 52 <= m1 < 2 ^ 53).
  { rewrite Hm.
    assert (P : 0 < 2 ^ (Zdigits2 M - 53)) by (apply Z.pow_pos_nonneg; lia).
    assert (Q1 : 2 ^ (Zdigits2 M - 1) = 2 ^ 52 * 2 ^ (Zdigits2 M - 53))
      by (rewrite <- Z.pow_add_r by lia; f_equal; lia).
    assert (Q2 : 2 ^ Zdigits2 M = 2 ^ 53 * 2 ^ (Zdigits2 M - 53))
      by (rewrite <- Z.pow_add_r by lia; f_equal; lia).
    split.
    - apply Z.div_le_lower_bound; lia.
    - apply Z.div_lt_upper_bound; lia. }
  set (mr := round_nearest_even m1 (loc_of_shr_record r)).
  assert (Hmr : 2 ^ 52 <= mr <= 2 ^ 53)
    by (destruct (round_nearest_even_cases m1 (loc_of_shr_record r)); subst mr; lia).
  destruct (Z_lt_le_dec mr (2 ^ 53)) as [Hlt | Hge].
  - assert (D : Zdigits2 mr = 53)
      by (apply Zdigits2_unique; [lia | split; [exact (proj1 Hmr) | exact Hlt]]).
    unfold shr_fexp, fexp, emin. rewrite D.
    replace (Z.max (53 + e1 - 53) (3 - 1024 - 53) - e1) with 0 by lia.
    cbn [shr shr_record_of_loc shr_m].
    destruct mr as [|pm|pm]; try lia.
    exists pm, e1. split; [reflexivity | left; lia].
  - assert (Emr : mr = 2 ^ 53) by lia. rewrite Emr.
    unfold shr_fexp, fexp, emin.
    replace (Zdigits2 (2 ^ 53)) with 54 by reflexivity.
    replace (Z.max (54 + e1 - 53) (3 - 1024 - 53) - e1) with 1 by lia.
    cbn [shr SpecFloat.iter_pos].
    exists (4503599627370496)%positive, (e1 + 1).
    split; [reflexivity | right; split; [lia | reflexivity]].
Qed.

(** ** Comparisons of floats that are at least 1 *)

Lemma Prim2SF_1 : Prim2SF 1%float = S754_finite false 4503599627370496 (-52).
Proof. reflexivity. Qed.

Lemma Prim2SF_10 : Prim2SF 10%float = S754_finite false 5629499534213120 (-49).
Proof. reflexivity. Qed.

Lemma Prim2SF_100 : Prim2SF 100%float = S754_finite false 7036874417766400 (-46).
Proof. reflexivity. Qed.

Lemma valid_normal (s : bool) (m : positive) (e : Z) :
  valid_binary (S754_finite s m e) = true -> -1074 < e ->
  2 ^ 52 <= Zpos m < 2 ^ 53.
Proof.
  cbn [SpecFloat.valid_binary].
  unfold bounded, canonical_mantissa, fexp, SpecFloat.emin, prec, emax.
  intros H He. apply andb_prop in H as [H _]. apply Z.eqb_eq in H.
  assert (D : Zpos (digits2_pos m) = 53) by lia.
  pose proof (digits2_pos_bounds m) as B. rewrite D in B. exact B.
Qed.

Lemma SFleb_finite_pos (m1 m2 : positive) (e1 e2 : Z) :
  SFleb (S754_finite false m1 e1) (S754_finite false m2 e2) = true <->
  e1 < e2 \/ (e1 = e2 /\ Zpos m1 <= Zpos m2).
Proof.
  unfold SFleb, SFcompare. rewrite Pos.compare_cont_spec. cbn [Pos.switch_Eq].
  destruct (Z.compare_spec e1 e2) as [E|E|E].
  - destruct (Pos.compare_spec m1 m2) as [F|F|F]; split; intros H;
      try discriminate; try reflexivity; lia.
  - split; [lia | reflexivity].
  - split; [discriminate | lia].
Qed.

Lemma SFltb_finite_pos (m1 m2 : positive) (e1 e2 : Z) :
  SFltb (S754_finite false m1 e1) (S754_finite false m2 e2) = true <->
  e1 < e2 \/ (e1 = e2 /\ Zpos m1 < Zpos m2).
Proof.
  unfold SFltb, SFcompare. rewrite Pos.compare_cont_spec. cbn [Pos.switch_Eq].
  destruct (Z.compare_spec e1 e2) as [E|E|E].
  - destruct (Pos.compare_spec m1 m2) as [F|F|F]; split; intros H;
      try discriminate; try reflexivity; lia.
  - split; [lia | reflexivity].
  - split; [discriminate | lia].
Qed.

(** A float that is at least 1 is +infinity or a normal positive number. *)
Lemma ge_one_inv (z : float) : (1 <=? z)%float = true ->
  Prim2SF z = S754_infinity false \/
  exists m e, Prim2SF z = S754_finite false m e /\ -52 <= e /\ 2 ^ 52 <= Zpos m < 2 ^ 53.
Proof.
  rewrite leb_spec, Prim2SF_1. pose proof (Prim2SF_valid z) as V.
  destruct (Prim2SF z) as [s|[|]| |[|] m e]; try (cbn; discriminate); auto.
  intros H. right. exists m, e. apply SFleb_finite_pos in H.
  split; [reflexivity | split; [lia | apply (valid_normal false m e V); lia]].
Qed.

Lemma ge_one_intro (r : float) (m : positive) (e : Z) :
  Prim2SF r = S754_finite false m e -> -52 <= e -> (1 <=? r)%float = true.
Proof.
  intros Hr He. pose proof (Prim2SF_valid r) as V. rewrite Hr in V.
  pose proof (valid_normal false m e V ltac:(lia)).
  rewrite leb_spec, Prim2SF_1, Hr. apply SFleb_finite_pos. lia.
Qed.

Lemma ge_one_inf (r : float) : Prim2SF r = S754_infinity false -> (1 <=? r)%float = true.
Proof. intros Hr. rewrite leb_spec, Prim2SF_1, Hr. reflexivity. Qed.

Lemma is_nan_finite (x : float) s m e : Prim2SF x = S754_finite s m e -> is_nan x = false.
Proof.
  intros H. unfold is_nan. rewrite FloatAxioms.eqb_spec, H. unfold SFeqb, SFcompare.
  rewrite Z.compare_refl. rewrite (Pos.compare_cont_refl m Eq). destruct s; reflexivity.
Qed.

Lemma is_nan_infinity (x : float) s : Prim2SF x = S754_infinity s -> is_nan x = false.
Proof.
  intros H. unfold is_nan. rewrite FloatAxioms.eqb_spec, H. destruct s; reflexivity.
Qed.

Lemma ge_one_not_nan (x : float) : (1 <=? x)%float = true -> is_nan x = false.
Proof.
  intros H. destruct (ge_one_inv x H) as [E | (m & e & E & _)];
    [exact (is_nan_infinity x _ E) | exact (is_nan_finite x _ _ _ E)].
Qed.

(** A float that is at least 1 and not below a finite positive constant
    [c] is at least [c]. *)
Lemma ge_one_total (x c : float) (mc : positive) (ec : Z) :
  Prim2SF c = S754_finite false mc ec ->
  (1 <=? x)%float = true -> (x <? c)%float = false -> (c <=? x)%float = true.
Proof.
  intros Hc Hx. rewrite ltb_spec, leb_spec, Hc.
  destruct (ge_one_inv x Hx) as [E | (m & e & E & _)]; rewrite E; [reflexivity|].
  intros H. apply SFleb_finite_pos.
  destruct (Z_lt_le_dec ec e) as [|Hle]; [lia|].
  destruct (Z_lt_le_dec e ec) as [Hlt|]; [exfalso | ].
  - assert (T : SFltb (S754_finite false m e) (S754_finite false mc ec) = true)
      by (apply SFltb_finite_pos; lia). congruence.
  - destruct (Z_lt_le_dec (Zpos m) (Zpos mc)) as [Hlt|]; [exfalso | lia].
    assert (T : SFltb (S754_finite false m e) (S754_finite false mc ec) = true)
      by (apply SFltb_finite_pos; lia). congruence.
Qed.

(** ** Products and quotients *)

(** The product of two floats that are at least 1 is at least 1. *)
Lemma mul_ge_one (x y : float) :
  (1 <=? x)%float = true -> (1 <=? y)%float = true -> (1 <=? x * y)%float = true.
Proof.
  intros Hx Hy.
  pose proof (mul_spec x y) as S. unfold SF64mul in S.
  destruct (ge_one_inv x Hx) as [Ex | (mx & ex & Ex & Hex & Hmx)];
  destruct (ge_one_inv y Hy) as [Ey | (my & ey & Ey & Hey & Hmy)];
    rewrite Ex, Ey in S; cbn [SFmul xorb] in S; try (apply ge_one_inf; exact S).
  assert (HM : 2 ^ 104 <= Zpos (mx * my)).
  { rewrite Pos2Z.inj_mul. change (2 ^ 104) with (2 ^ 52 * 2 ^ 52).
    apply Z.mul_le_mono_nonneg; lia. }
  pose proof (Zdigits2_ge _ 104 ltac:(lia) HM) as Hd.
  destruct (binary_round_aux_normal false (Zpos (mx * my)) (ex + ey) loc_Exact)
    as (m' & e' & R & B).
  { lia. } { lia. }
  unfold prec, emax in S. rewrite R in S.
  destruct (e' <=? 971).
  - apply (ge_one_intro _ m' e' S). lia.
  - apply ge_one_inf. exact S.
Qed.

(** The quotient of a float in [1, 2^53) by a float [f] in [1, 2^13): it is
    finite and positive, and its exponent is at most that of the dividend,
    less that of [f], less 52, or one more with the least mantissa. *)
Lemma div_exponent (z f : float) (mz mf : positive) (ez ef : Z) :
  Prim2SF z = S754_finite false mz ez -> Prim2SF f = S754_finite false mf ef ->
  -52 <= ez <= 0 -> -52 <= ef <= -40 ->
  exists m' e', Prim2SF (z / f)%float = S754_finite false m' e'
    /\ ((e' <= ez - ef - 52 /\ 2 ^ 52 <= Zpos m' < 2 ^ 53)
        \/ (e' = ez - ef - 51 /\ Zpos m' = 2 ^ 52)).
Proof.
  intros Ez Ef Hez Hef.
  pose proof (Prim2SF_valid z) as Vz. rewrite Ez in Vz.
  pose proof (Prim2SF_valid f) as Vf. rewrite Ef in Vf.
  pose proof (valid_normal _ _ _ Vz ltac:(lia)) as Bz.
  pose proof (valid_normal _ _ _ Vf ltac:(lia)) as Bf.
  pose proof (div_spec z f) as S. unfold SF64div in S. rewrite Ez, Ef in S.
  cbn [SFdiv xorb] in S. unfold SFdiv_core_binary in S.
  rewrite (Zdigits2_unique (Zpos mz) 53), (Zdigits2_unique (Zpos mf) 53) in S by lia.
  unfold fexp, SpecFloat.emin, prec, emax in S.
  replace (Z.min (Z.max (53 + ez - (53 + ef) - 53) (3 - 1024 - 53)) (ez - ef))
    with (ez - ef - 53) in S by lia.
  replace (ez - ef - (ez - ef - 53)) with 53 in S by lia.
  rewrite Z.shiftl_mul_pow2 in S by lia.
  pose proof (Z_div_mod (Zpos mz * 2 ^ 53) (Zpos mf) ltac:(lia)) as DM.
  destruct (Z.div_eucl (Zpos mz * 2 ^ 53) (Zpos mf)) as [q r].
  destruct DM as [DM Hr].
  assert (Hq : 2 ^ 52 <= q < 2 ^ 54) by nia.
  assert (Hdq : 53 <= Zdigits2 q <= 54).
  { pose proof (Zdigits2_ge q 52 ltac:(lia) ltac:(lia)).
    pose proof (Zdigits2_bounds q ltac:(lia)) as [Blo _].
    destruct (Z_lt_le_dec 54 (Zdigits2 q)) as [Hbig|]; [exfalso | lia].
    assert (2 ^ 54 <= 2 ^ (Zdigits2 q - 1)) by (apply Z.pow_le_mono_r; lia). lia. }
  destruct (binary_round_aux_normal false q (ez - ef - 53) (new_location (Zpos mf) r))
    as (m' & e' & R & B); [lia | lia |].
  rewrite R in S.
  assert (L : (e' <=? 971) = true) by (apply Z.leb_le; lia).
  rewrite L in S. exists m', e'. split; [exact S|].
  destruct B as [[B1 B2] | [B1 B2]]; lia.
Qed.

(** * Zoom (claim C8) *)

Lemma le_100_intro (r : float) (m : positive) (e : Z) :
  Prim2SF r = S754_finite false m e ->
  e < -46 \/ (e = -46 /\ Zpos m <= 7036874417766400) ->
  (r <=? 100)%float = true.
Proof. intros Hr H. rewrite leb_spec, Hr, Prim2SF_100. apply SFleb_finite_pos. exact H. Qed.

Lemma le_100_inv (z : float) (m : positive) (e : Z) :
  Prim2SF z = S754_finite false m e -> (z <=? 100)%float = true ->
  e < -46 \/ (e = -46 /\ Zpos m <= 7036874417766400).
Proof. intros Hz. rewrite leb_spec, Hz, Prim2SF_100. apply SFleb_finite_pos. Qed.

Lemma le_10_inv (z : float) (m : positive) (e : Z) :
  Prim2SF z = S754_finite false m e -> (z <=? 10)%float = true -> e <= -49.
Proof.
  intros Hz. rewrite leb_spec, Hz, Prim2SF_10. intros H.
  apply SFleb_finite_pos in H. lia.
Qed.

(** Math.min(a, maxZoom) lies in the zoom range when [a] is at least 1. *)
Lemma Math_min_maxZoom (a : float) :
  (1 <=? a)%float = true -> in_zoom_range (Math_min a maxZoom).
Proof.
  intros Ha. unfold in_zoom_range, Math_min, js_le, js_lt, minZoom, maxZoom.
  rewrite (ge_one_not_nan a Ha).
  change (is_nan 100%float) with false. change (is_neg_zero 100%float) with false. cbn [orb andb].
  destruct (100 <? a)%float eqn:L.
  - split; reflexivity.
  - split; [exact Ha|].
    destruct (ge_one_inv a Ha) as [E | (m & e & E & He & Hm)].
    + rewrite ltb_spec, E in L. discriminate.
    + apply (le_100_intro a m e E).
      rewrite ltb_spec, E, Prim2SF_100 in L.
      destruct (Z_lt_le_dec e (-46)) as [|H1]; [lia|].
      destruct (Z_lt_le_dec (-46) e) as [H2|H2].
      * assert (T : SFltb (S754_finite false 7036874417766400 (-46)) (S754_finite false m e) = true)
          by (apply SFltb_finite_pos; lia). congruence.
      * destruct (Z_lt_le_dec 7036874417766400 (Zpos m)) as [H3|H3]; [|lia].
        assert (T : SFltb (S754_finite false 7036874417766400 (-46)) (S754_finite false m e) = true)
          by (apply SFltb_finite_pos; lia). congruence.
Qed.

(** Math.max(a, minZoom) lies in the zoom range when [a] is a positive
    finite float that is at most 100. *)
Lemma Math_max_minZoom (a : float) (m : positive) (e : Z) :
  Prim2SF a = S754_finite false m e -> (a <=? 100)%float = true ->
  in_zoom_range (Math_max a minZoom).
Proof.
  intros E Ha. unfold in_zoom_range, Math_max, js_le, js_gt, minZoom, maxZoom.
  rewrite (is_nan_finite a _ _ _ E).
  change (is_nan 1%float) with false. change (is_pos_zero 1%float) with false. cbn [orb andb].
  destruct (a <? 1)%float eqn:L.
  - split; reflexivity.
  - split; [|exact Ha].
    rewrite ltb_spec, E, Prim2SF_1 in L.
    apply (ge_one_intro a m e E).
    destruct (Z_lt_le_dec e (-52)) as [H1|]; [|lia].
    assert (T : SFltb (S754_finite false m e) (S754_finite false 4503599627370496 (-52)) = true)
      by (apply SFltb_finite_pos; lia). congruence.
Qed.

(** The pixels-per-second value of lines 84 and 96 is at least 50. *)
Lemma pixelsPerSecond_ge_50 (z : float) :
  (1 <=? z)%float = true -> js_le 50%float (Math_max (50 * z)%float 50%float) = true.
Proof.
  intros Hz. unfold Math_max, js_le, js_gt.
  assert (H50 : (1 <=? 50)%float = true) by reflexivity.
  pose proof (mul_ge_one 50%float z H50 Hz) as Hp.
  rewrite (ge_one_not_nan _ Hp).
  change (is_nan 50%float) with false. change (is_pos_zero 50%float) with false. cbn [orb andb].
  destruct (50 * z <? 50)%float eqn:L; [reflexivity|].
  apply (ge_one_total (50 * z)%float 50%float 7036874417766400 (-47)); auto.
Qed.

Lemma updateZoomDisplay_currentZoom st : currentZoom (updateZoomDisplay st) = currentZoom st.
Proof. unfold updateZoomDisplay. destruct (js_ge (currentZoom st) 10%float); reflexivity. Qed.

Lemma updateZoomDisplay_trace st : trace (updateZoomDisplay st) = trace st.
Proof. unfold updateZoomDisplay. destruct (js_ge (currentZoom st) 10%float); reflexivity. Qed.

Lemma zoom_calls_app tr1 tr2 : zoom_calls (tr1 ++ tr2) = (zoom_calls tr1 ++ zoom_calls tr2)%list.
Proof.
  induction tr1 as [|e tr1 IH]; [reflexivity|].
  destruct e; cbn [zoom_calls app]; rewrite IH; reflexivity.
Qed.

(** One zoom operation keeps the zoom level in range and hands ws.zoom
    nothing below 50. *)
Lemma apply_zoom_invariant (op : zoom_op) (st : State) :
  in_zoom_range (currentZoom st) ->
  in_zoom_range (currentZoom (apply_zoom op st))
  /\ exists new, zoom_calls (trace (apply_zoom op st)) = (zoom_calls (trace st) ++ new)%list
                 /\ Forall (fun pps => js_le 50%float pps = true) new.
Proof.
  intros [Hlo Hhi]. unfold js_le, minZoom, maxZoom in Hlo, Hhi.
  assert (Keep : in_zoom_range (currentZoom st)) by (split; assumption).
  assert (Same : exists new, zoom_calls (trace st) = (zoom_calls (trace st) ++ new)%list
                             /\ Forall (fun pps => js_le 50%float pps = true) new)
    by (exists []; split; [rewrite app_nil_r; reflexivity | constructor]).
  destruct op; cbn [apply_zoom].
  - unfold zoomIn. destruct (ws st); [|auto].
    destruct (js_ge (currentZoom st) maxZoom); [auto|].
    rewrite updateZoomDisplay_currentZoom, updateZoomDisplay_trace. cbn.
    set (f := if js_lt (currentZoom st) 10%float then 1.5%float else 2%float).
    assert (Hf : (1 <=? f)%float = true) by (subst f; destruct (js_lt (currentZoom st) 10%float); reflexivity).
    pose proof (Math_min_maxZoom _ (mul_ge_one _ _ Hlo Hf)) as R.
    split; [exact R|].
    eexists; split; [rewrite zoom_calls_app; reflexivity|].
    constructor; [|constructor]. apply pixelsPerSecond_ge_50. exact (proj1 R).
  - unfold zoomOut. destruct (ws st); [|auto].
    destruct (js_le (currentZoom st) minZoom); [auto|].
    rewrite updateZoomDisplay_currentZoom, updateZoomDisplay_trace. cbn.
    assert (R : in_zoom_range
                  (Math_max (currentZoom st / (if js_le (currentZoom st) 10 then 1.5 else 2))%float minZoom)).
    { destruct (ge_one_inv _ Hlo) as [E | (m & e & E & He & Hm)].
      { rewrite leb_spec, E in Hhi. discriminate. }
      pose proof (le_100_inv _ m e E Hhi) as H100.
      unfold js_le. destruct (currentZoom st <=? 10)%float eqn:L10.
      - pose proof (le_10_inv _ m e E L10) as H10.
        destruct (div_exponent (currentZoom st) 1.5%float m 6755399441055744 e (-52) E)
          as (m' & e' & D & B); [reflexivity | lia | lia |].
        apply (Math_max_minZoom _ m' e' D). apply (le_100_intro _ m' e' D). lia.
      - destruct (div_exponent (currentZoom st) 2%float m 4503599627370496 e (-51) E)
          as (m' & e' & D & B); [reflexivity | lia | lia |].
        apply (Math_max_minZoom _ m' e' D). apply (le_100_intro _ m' e' D).
        change (2 ^ 52) with 4503599627370496 in B. lia. }
    split; [exact R|].
    eexists; split; [rewrite zoom_calls_app; reflexivity|].
    constructor; [|constructor]. apply pixelsPerSecond_ge_50. exact (proj1 R).
  - unfold zoomToFit. destruct (ws st); [|auto].
    rewrite updateZoomDisplay_currentZoom, updateZoomDisplay_trace. cbn.
    split; [split; reflexivity|].
    eexists; split; [rewrite zoom_calls_app; reflexivity|].
    constructor; [reflexivity | constructor].
Qed.

(** C8: starting from [currentZoom = minZoom], every sequence of zoomIn,
    zoomOut and zoomToFit calls leaves [minZoom <= currentZoom <= maxZoom]
    (1 and 100), and every pixels-per-second value these calls hand to
    ws.zoom is at least 50. *)
Theorem zoom_level_invariant (ops : list zoom_op) (st : State) :
  currentZoom st = minZoom ->
  in_zoom_range (currentZoom (run_zoom ops st))
  /\ exists new, zoom_calls (trace (run_zoom ops st)) = (zoom_calls (trace st) ++ new)%list
                 /\ Forall (fun pps => js_le 50%float pps = true) new.
Proof.
  intros H0.
  assert (I : in_zoom_range (currentZoom st)) by (rewrite H0; split; reflexivity).
  clear H0. revert st I. unfold run_zoom.
  induction ops as [|op ops IH]; intros st I; cbn [fold_left].
  - split; [exact I|]. exists []. split; [rewrite app_nil_r; reflexivity | constructor].
  - destruct (apply_zoom_invariant op st I) as (I1 & new1 & T1 & F1).
    destruct (IH _ I1) as (I2 & new2 & T2 & F2).
    split; [exact I2|]. exists (new1 ++ new2)%list.
    split; [rewrite T2, T1, app_assoc; reflexivity | apply Forall_app; auto].
Qed.

Lemma zoom_level_invariant_witness :
  in_zoom_range (currentZoom (run_zoom [ZoomIn; ZoomIn; ZoomOut; ZoomIn; ZoomToFit] sample_page))
  /\ exists new,
       zoom_calls (trace (run_zoom [ZoomIn; ZoomIn; ZoomOut; ZoomIn; ZoomToFit] sample_page))
       = (zoom_calls (trace sample_page) ++ new)%list
       /\ Forall (fun pps => js_le 50%float pps = true) new.
Proof. apply zoom_level_invariant. vm_compute. reflexivity. Defined.

(** Zooming in ten times from the start: 1.5, 2.25, ... up to the cap, with
    75 to 5000 pixels per second handed to ws.zoom. *)
Example zoom_in_ten_times :
  currentZoom (run_zoom (repeat ZoomIn 10) sample_page) = 100%float
  /\ zoom_calls (trace (run_zoom (repeat ZoomIn 10) sample_page))
     = [75; 112.5; 168.75; 253.125; 379.6875; 569.53125; 1139.0625; 2278.125;
        4556.25; 5000]%float.
Proof. vm_compute. split; reflexivity. Qed.

(** * Digits and padding *)

Lemma length_append (a b : string) :
  String.length (a ++ b) = (String.length a + String.length b)%nat.
Proof. induction a as [|c a IH]; cbn; [reflexivity | rewrite IH; reflexivity]. Qed.

Lemma append_assoc (a b c : string) : (a ++ b) ++ c = a ++ (b ++ c).
Proof. induction a as [|x a IH]; cbn; [reflexivity | rewrite IH; reflexivity]. Qed.

Lemma append_nil_r (a : string) : a ++ EmptyString = a.
Proof. induction a as [|x a IH]; cbn; [reflexivity | rewrite IH; reflexivity]. Qed.

Lemma take_app (a b : string) : take (String.length a) (a ++ b) = a.
Proof. induction a as [|c a IH]; cbn; [destruct b; reflexivity | rewrite IH; reflexivity]. Qed.

Lemma drop_app (a b : string) : drop (String.length a) (a ++ b) = b.
Proof. induction a as [|c a IH]; cbn; [reflexivity | exact IH]. Qed.

Lemma length_repeat_char c n : String.length (repeat_char c n) = n.
Proof. induction n as [|n IH]; cbn; [reflexivity | f_equal; exact IH]. Qed.

Lemma take_cycle_zero (n k : nat) : (n <= k)%nat -> take n (cycle k "0") = repeat_char "0"%char n.
Proof.
  revert k. induction n as [|n IH]; intros k H; [destruct k; reflexivity|].
  destruct k as [|k]; [lia|]. cbn. f_equal. apply IH. lia.
Qed.

(** padStart with the fill string "0" is zero padding. *)
Lemma padStart_zero (w : nat) (s : string) : padStart w "0" s = zero_pad w s.
Proof.
  unfold padStart, zero_pad. destruct (Nat.leb_spec w (String.length s)) as [H|H].
  - replace (w - String.length s)%nat with O by lia. reflexivity.
  - cbn [String.length Nat.eqb]. rewrite take_cycle_zero by lia. reflexivity.
Qed.

Lemma length_zero_pad (w : nat) (s : string) :
  String.length (zero_pad w s) = Nat.max w (String.length s).
Proof. unfold zero_pad. rewrite length_append, length_repeat_char. lia. Qed.

Lemma length_frac_digits (f : nat) (r : Z) : String.length (frac_digits f r) = f.
Proof.
  revert r. induction f as [|f IH]; intros r; cbn [frac_digits]; [reflexivity|].
  rewrite length_append, IH. cbn. lia.
Qed.

Lemma digits_fuel_enough (f1 : nat) : forall (f2 : nat) (n : Z),
  0 <= n < 2 ^ Z.of_nat (S f1) -> 0 <= n < 2 ^ Z.of_nat (S f2) ->
  digits_fuel (S f1) n = digits_fuel (S f2) n.
Proof.
  induction f1 as [|f1 IH]; intros f2 n H1 H2.
  - cbn in H1. cbn [digits_fuel]. destruct (Z.ltb_spec n 10); [reflexivity | lia].
  - cbn [digits_fuel]. destruct (Z.ltb_spec n 10) as [|L]; [reflexivity|].
    destruct f2 as [|f2]; [cbn in H2; lia|]. f_equal.
    rewrite (Nat2Z.inj_succ (S f1)), Z.pow_succ_r in H1 by lia.
    rewrite (Nat2Z.inj_succ (S f2)), Z.pow_succ_r in H2 by lia.
    assert (0 <= n / 10) by (apply Z.div_pos; lia).
    assert (n / 10 < 2 ^ Z.of_nat (S f1)) by (apply Z.div_lt_upper_bound; lia).
    assert (n / 10 < 2 ^ Z.of_nat (S f2)) by (apply Z.div_lt_upper_bound; lia).
    apply IH; lia.
Qed.

Lemma log2_fuel (n : Z) : 0 <= n -> 0 <= n < 2 ^ Z.of_nat (S (Z.to_nat (Z.log2 n))).
Proof.
  intros H. split; [exact H|].
  rewrite Nat2Z.inj_succ, Z2Nat.id by apply Z.log2_nonneg.
  destruct (Z.eq_dec n 0) as [->|N]; [cbn; lia|].
  apply Z.log2_spec. lia.
Qed.

Lemma digits_small (n : Z) : 0 <= n < 10 -> digits n = String (digit_char n) EmptyString.
Proof.
  intros H. unfold digits. cbn [digits_fuel].
  destruct (Z.ltb_spec n 10); [reflexivity | lia].
Qed.

Lemma digits_step (n : Z) : 10 <= n ->
  digits n = digits (n / 10) ++ String (digit_char (n mod 10)) EmptyString.
Proof.
  intros H. unfold digits at 1. cbn [digits_fuel].
  destruct (Z.ltb_spec n 10); [lia|]. f_equal.
  assert (0 <= n / 10) by (apply Z.div_pos; lia).
  pose proof (Z.log2_spec n ltac:(lia)) as [L1 L2].
  pose proof (Z.log2_nonneg n) as L0.
  assert (L3 : 3 <= Z.log2 n) by (apply Z.log2_le_pow2; lia).
  unfold digits.
  replace (Z.to_nat (Z.log2 n)) with (S (Z.to_nat (Z.log2 n - 1))) by lia.
  apply digits_fuel_enough; [|apply log2_fuel; lia].
  split; [lia|].
  rewrite Nat2Z.inj_succ, Z2Nat.id by lia.
  replace (Z.succ (Z.log2 n - 1)) with (Z.log2 n) by lia.
  apply Z.div_lt_upper_bound; [lia|].
  rewrite Z.pow_succ_r in L2 by lia. lia.
Qed.

Lemma length_digits_pos (n : Z) : 0 <= n -> (1 <= String.length (digits n))%nat.
Proof.
  intros H. destruct (Z_lt_le_dec n 10).
  - rewrite digits_small by lia. cbn. lia.
  - rewrite digits_step by lia. rewrite length_append. cbn. lia.
Qed.

(** The digits of [n] end in its last [f] digits. *)
Lemma digits_split (f : nat) : forall n, 10 ^ Z.of_nat f <= n ->
  digits n = digits (n / 10 ^ Z.of_nat f) ++ frac_digits f (n mod 10 ^ Z.of_nat f).
Proof.
  induction f as [|f IH]; intros n H.
  - cbn [Z.of_nat frac_digits]. rewrite Z.pow_0_r, Z.div_1_r, append_nil_r. reflexivity.
  - rewrite Nat2Z.inj_succ, Z.pow_succ_r in * by lia.
    assert (P : 0 < 10 ^ Z.of_nat f) by (apply Z.pow_pos_nonneg; lia).
    rewrite digits_step by lia. cbn [frac_digits].
    rewrite (IH (n / 10)) by (apply Z.div_le_lower_bound; lia).
    rewrite append_assoc.
    replace (n / 10 / 10 ^ Z.of_nat f) with (n / (10 * 10 ^ Z.of_nat f))
      by (rewrite Z.div_div by lia; reflexivity).
    replace (n mod (10 * 10 ^ Z.of_nat f) / 10) with ((n / 10) mod 10 ^ Z.of_nat f)
      by (rewrite Z.rem_mul_r by lia;
          rewrite (Z.mul_comm 10), Z.div_add by lia;
          rewrite (Z.div_small (n mod 10) 10) by (apply Z.mod_pos_bound; lia); lia).
    replace ((n mod (10 * 10 ^ Z.of_nat f)) mod 10) with (n mod 10)
      by (rewrite Z.rem_mul_r by lia;
          rewrite (Z.mul_comm 10), Z.mod_add by lia;
          rewrite Z.mod_mod by lia; reflexivity).
    reflexivity.
Qed.

Lemma repeat_char_snoc (c : ascii) (n : nat) :
  repeat_char c n ++ String c EmptyString = repeat_char c (S n).
Proof.
  induction n as [|n IH]; [reflexivity|].
  change (repeat_char c (S n)) with (String c (repeat_char c n)).
  change (repeat_char c (S (S n))) with (String c (repeat_char c (S n))).
  cbn [append]. rewrite IH. reflexivity.
Qed.

Lemma frac_digits_zero (f : nat) : frac_digits f 0 = repeat_char "0"%char f.
Proof.
  induction f as [|f IH]; [reflexivity|].
  cbn [frac_digits]. change (0 / 10) with 0. change (0 mod 10) with 0. rewrite IH.
  apply repeat_char_snoc.
Qed.

Lemma zero_pad_snoc (w : nat) (a : string) (c : ascii) :
  zero_pad (S w) (a ++ String c EmptyString) = zero_pad w a ++ String c EmptyString.
Proof.
  unfold zero_pad. rewrite length_append. cbn [String.length].
  replace (S w - (String.length a + 1))%nat with (w - String.length a)%nat by lia.
  rewrite append_assoc. reflexivity.
Qed.

(** Below [10^f], zero padding the digits to width [f] gives the last [f]
    digits. *)
Lemma zero_pad_digits (f : nat) : forall n, 0 <= n < 10 ^ Z.of_nat (S f) ->
  zero_pad (S f) (digits n) = frac_digits (S f) n.
Proof.
  induction f as [|f IH]; intros n H.
  - change (10 ^ Z.of_nat 1) with 10 in H. rewrite digits_small by lia.
    cbn [frac_digits]. rewrite Z.mod_small by lia. reflexivity.
  - destruct (Z_lt_le_dec n 10) as [L|L].
    + rewrite digits_small by lia.
      change (frac_digits (S (S f)) n)
        with (frac_digits (S f) (n / 10) ++ String (digit_char (n mod 10)) EmptyString).
      rewrite (Z.div_small n 10), (Z.mod_small n 10) by lia.
      rewrite frac_digits_zero. unfold zero_pad. cbn [String.length Nat.sub].
      reflexivity.
    + rewrite digits_step by lia. rewrite zero_pad_snoc.
      rewrite (Nat2Z.inj_succ (S f)), Z.pow_succ_r in H by lia.
      rewrite IH by (split; [apply Z.div_pos; lia | apply Z.div_lt_upper_bound; lia]).
      reflexivity.
Qed.

(** Steps 9.b and 9.c of toFixed print [n / 10^f] with [f] decimals. *)
Lemma fixed_digits_decimal (n : Z) (f : nat) : 0 <= n ->
  fixed_digits n (S f) = decimal_fixed n (S f).
Proof.
  intros Hn. unfold fixed_digits, decimal_fixed. cbn [Nat.eqb].
  rewrite padStart_zero.
  assert (P : 0 < 10 ^ Z.of_nat (S f)) by (apply Z.pow_pos_nonneg; lia).
  destruct (Z_lt_le_dec n (10 ^ Z.of_nat (S f))) as [L|L].
  - pose proof (zero_pad_digits f n ltac:(lia)) as E.
    assert (Len : (String.length (digits n) <= S f)%nat).
    { pose proof (length_zero_pad (S f) (digits n)) as K.
      rewrite E, length_frac_digits in K. lia. }
    pose proof (length_digits_pos n Hn) as Lp.
    rewrite Z.div_small, Z.mod_small by lia.
    replace (zero_pad (S (S f)) (digits n)) with ("0" ++ frac_digits (S f) n).
    + rewrite length_append, length_frac_digits. cbn [String.length].
      replace (1 + S f - S f)%nat with 1%nat by lia. cbn [take drop append].
      rewrite digits_small by lia. reflexivity.
    + rewrite <- E. unfold zero_pad.
      replace (S (S f) - String.length (digits n))%nat
        with (S (S f - String.length (digits n))) by lia.
      reflexivity.
  - rewrite (digits_split (S f) n L).
    set (a := digits (n / 10 ^ Z.of_nat (S f))).
    set (b := frac_digits (S f) (n mod 10 ^ Z.of_nat (S f))).
    assert (La : (1 <= String.length a)%nat)
      by (apply length_digits_pos, Z.div_pos; lia).
    assert (Lb : String.length b = S f) by apply length_frac_digits.
    unfold zero_pad.
    replace (S (S f) - String.length (a ++ b))%nat with O by (rewrite length_append; lia).
    change (repeat_char "0"%char 0 ++ a ++ b) with (a ++ b).
    replace (String.length (a ++ b) - S f)%nat with (String.length a)
      by (rewrite length_append; lia).
    rewrite take_app, drop_app. reflexivity.
Qed.

(** ** toFixed below 10^21 *)

Lemma Prim2SF_1e21 : Prim2SF 1e21%float = S754_finite false 7629394531250000 17.
Proof. reflexivity. Qed.

Lemma round_scaled_nonneg (m : positive) (e : Z) (f : nat) : 0 <= round_scaled m e f.
Proof.
  unfold round_scaled.
  assert (0 < 10 ^ Z.of_nat f) by (apply Z.pow_pos_nonneg; lia).
  destruct (0 <=? e) eqn:E.
  - apply Z.leb_le in E. assert (0 < 2 ^ e) by (apply Z.pow_pos_nonneg; lia). nia.
  - apply Z.leb_gt in E.
    assert (0 < 2 ^ (- e)) by (apply Z.pow_pos_nonneg; lia).
    assert (0 < 2 ^ (- e + 1)) by (apply Z.pow_pos_nonneg; lia).
    apply Z.div_pos; nia.
Qed.

(** toFixed of a positive float with a small exponent prints the nearest
    multiple of [10^-f] in decimal. *)
Lemma toFixed_small (f : nat) (x : float) (m : positive) (e : Z) :
  Prim2SF x = S754_finite false m e -> e < 17 ->
  toFixed (S f) x = decimal_fixed (round_scaled m e (S f)) (S f).
Proof.
  intros E He. unfold toFixed. rewrite E.
  assert (A : js_ge (abs x) 1e21%float = false).
  { unfold js_ge. rewrite leb_spec, abs_spec, E, Prim2SF_1e21. cbn [SFabs].
    destruct (SFleb _ _) eqn:L; [|reflexivity].
    apply SFleb_finite_pos in L. lia. }
  rewrite A. cbn [append]. apply fixed_digits_decimal, round_scaled_nonneg.
Qed.

(** * The remainder by 60 and its value *)

Lemma Prim2SF_60 : Prim2SF 60%float = S754_finite false 8444249301319680 (-47).
Proof. reflexivity. Qed.

Lemma valid_finite_bounds (s : bool) (m : positive) (e : Z) :
  valid_binary (S754_finite s m e) = true -> Zpos m < 2 ^ 53 /\ -1074 <= e <= 971.
Proof.
  cbn [SpecFloat.valid_binary].
  unfold bounded, canonical_mantissa, fexp, SpecFloat.emin, prec, emax.
  intros H. apply andb_prop in H as [H1 H2]. apply Z.eqb_eq in H1. apply Z.leb_le in H2.
  pose proof (digits2_pos_bounds m) as [_ B].
  assert (D : Zpos (digits2_pos m) <= 53) by lia.
  pose proof (Z.pow_le_mono_r 2 _ _ ltac:(lia) D). lia.
Qed.

(** The pair [canonical_pair] makes of an integer below 2^53 is a valid
    binary64 number of the same value. *)
Lemma canonical_pair_valid (s : bool) (R : positive) (e0 : Z) :
  Zpos R < 2 ^ 53 -> -1074 <= e0 <= 971 ->
  let '(m', e') := canonical_pair R e0 in
  valid_binary (S754_finite s m' e') = true /\ e' <= e0 /\ Zpos m' * 1 = Zpos R * 2 ^ (e0 - e').
Proof.
  intros HR He. unfold canonical_pair.
  set (d := Zpos (digits2_pos R)).
  pose proof (digits2_pos_bounds R) as [Blo Bhi]. fold d in Blo, Bhi.
  assert (Hd : 1 <= d <= 53).
  { split; [subst d; lia|].
    destruct (Z_lt_le_dec 53 d) as [Hbig|]; [exfalso | lia].
    assert (2 ^ 53 <= 2 ^ (d - 1)) by (apply Z.pow_le_mono_r; lia). lia. }
  set (e' := fexp prec emax (d + e0)).
  assert (He' : e' = Z.max (d + e0 - 53) (-1074)) by reflexivity.
  assert (Hk : 0 <= e0 - e') by lia.
  assert (Pk : 0 < 2 ^ (e0 - e')) by (apply Z.pow_pos_nonneg; lia).
  assert (Pm : 0 < Zpos R * 2 ^ (e0 - e')) by lia.
  split; [|split; [lia | rewrite Z2Pos.id by lia; lia]].
  cbn [SpecFloat.valid_binary]. unfold bounded, canonical_mantissa.
  apply andb_true_intro. split; [|apply Z.leb_le; unfold prec, emax; lia].
  apply Z.eqb_eq.
  assert (D : Zpos (digits2_pos (Z.to_pos (Zpos R * 2 ^ (e0 - e')))) = d + (e0 - e')).
  { change (Zpos (digits2_pos ?p)) with (Zdigits2 (Zpos p)).
    rewrite Z2Pos.id by lia. apply Zdigits2_unique; [lia|].
    replace (d + (e0 - e') - 1) with ((d - 1) + (e0 - e')) by lia.
    rewrite !Z.pow_add_r by lia. nia. }
  rewrite D. replace (d + (e0 - e') + e') with (d + e0) by lia. reflexivity.
Qed.

(** [s % 60] for a positive finite [s = m * 2^e]: with both operands
    written at the exponent [e0] of the finer one, the remainder is zero,
    or it is the float whose value is [(A mod B) * 2^e0]. *)
Lemma js_rem_60 (s : float) (m : positive) (e : Z) :
  Prim2SF s = S754_finite false m e ->
  let e0 := Z.min e (-47) in
  let A := Zpos m * 2 ^ (e - e0) in
  let B := 8444249301319680 * 2 ^ (-47 - e0) in
  (A mod B = 0 /\ js_rem s 60%float = PrimFloat.zero)
  \/ (exists m' e', Prim2SF (js_rem s 60%float) = S754_finite false m' e'
        /\ e' <= e0 /\ Zpos m' = (A mod B) * 2 ^ (e0 - e')).
Proof.
  intros E e0 A B.
  pose proof (Prim2SF_valid s) as V. rewrite E in V.
  destruct (valid_finite_bounds _ _ _ V) as [Hm He].
  assert (PA : 0 < 2 ^ (e - e0)) by (apply Z.pow_pos_nonneg; lia).
  assert (PB : 0 < 2 ^ (-47 - e0)) by (apply Z.pow_pos_nonneg; lia).
  assert (HB : 0 < B) by (subst B; lia).
  assert (HA : 0 <= A) by (subst A; lia).
  pose proof (Z.mod_pos_bound A B HB) as [R0 RB].
  assert (RA : A mod B <= A) by (apply Z.mod_le; lia).
  assert (R53 : A mod B < 2 ^ 53).
  { destruct (Z_lt_le_dec e (-47)).
    - assert (Z0 : e - e0 = 0) by lia. subst A. rewrite Z0 in *. lia.
    - assert (Z0 : -47 - e0 = 0) by lia. subst B. rewrite Z0 in *. lia. }
  unfold js_rem. rewrite E, Prim2SF_60. fold e0. fold A. fold B.
  destruct (A mod B) as [|R|R] eqn:ER; [left; split; reflexivity | right | lia].
  pose proof (canonical_pair_valid false R e0 ltac:(lia) ltac:(lia)) as C.
  destruct (canonical_pair R e0) as [m' e'].
  destruct C as (C1 & C2 & C3).
  exists m', e'. split; [apply Prim2SF_SF2Prim; exact C1 | split; [exact C2 | lia]].
Qed.

Lemma Qpow2_nonzero (e : Z) : ~ (2 ^ e == 0)%Q.
Proof. apply Qpower_not_0. discriminate. Qed.

Lemma inject_Z_nonzero (z : Z) : z <> 0 -> ~ (inject_Z z == 0)%Q.
Proof. intros H K. unfold Qeq in K. cbn [Qnum Qden inject_Z] in K. lia. Qed.

Lemma inject_Z_pow2 (k : Z) : 0 <= k -> (inject_Z (2 ^ k) == 2 ^ k)%Q.
Proof. intros H. rewrite Zpower_Qpower by exact H. reflexivity. Qed.

(** Moving a power of two between mantissa and exponent keeps the value. *)
Lemma scale_value (M k e : Z) : 0 <= k ->
  (inject_Z (M * 2 ^ k) * 2 ^ e == inject_Z M * 2 ^ (k + e))%Q.
Proof.
  intros H. rewrite inject_Z_mult, inject_Z_pow2 by exact H.
  rewrite Qpower_plus by discriminate. ring.
Qed.

(** The value of [s % 60] as a rational: [v - 60 * floor (v / 60)] is the
    integer remainder at the common exponent. *)
Lemma Qmod_60_value (m : positive) (e : Z) :
  let e0 := Z.min e (-47) in
  let A := Zpos m * 2 ^ (e - e0) in
  let B := 8444249301319680 * 2 ^ (-47 - e0) in
  (Qmod (exact_value m e) 60 == inject_Z (A mod B) * 2 ^ e0)%Q.
Proof.
  intros e0 A B.
  assert (PB : 0 < 2 ^ (-47 - e0)) by (apply Z.pow_pos_nonneg; lia).
  assert (HB : 0 < B) by (subst B; lia).
  assert (VA : (exact_value m e == inject_Z A * 2 ^ e0)%Q).
  { unfold exact_value. subst A. rewrite scale_value by lia.
    replace (e - e0 + e0) with e by lia. reflexivity. }
  assert (VB : (60 == inject_Z B * 2 ^ e0)%Q).
  { subst B. rewrite scale_value by lia.
    replace (-47 - e0 + e0) with (-47) by lia. reflexivity. }
  assert (NB : ~ (inject_Z B == 0)%Q) by (apply inject_Z_nonzero; lia).
  pose proof (Qpow2_nonzero e0) as NP.
  assert (F : Qfloor (exact_value m e / 60) = A / B).
  { rewrite Zdiv_Qdiv. apply Qfloor_comp. rewrite VA, VB. field. split; assumption. }
  unfold Qmod. rewrite F. rewrite VA at 1. rewrite VB at 1.
  rewrite (Z.mod_eq A B) by lia. unfold Z.sub.
  rewrite inject_Z_plus, inject_Z_opp, inject_Z_mult. ring.
Qed.

(** [round_scaled] is the nearest integer to the scaled value. *)
Lemma round_scaled_nearest (m : positive) (e : Z) (f : nat) :
  round_scaled m e f = nearest (inject_Z (10 ^ Z.of_nat f) * exact_value m e).
Proof.
  unfold round_scaled, nearest, exact_value.
  set (T := 10 ^ Z.of_nat f).
  destruct (Z.leb_spec 0 e) as [E|E].
  - assert (P : 0 < 2 ^ e) by (apply Z.pow_pos_nonneg; lia).
    transitivity ((2 * (Zpos m * T * 2 ^ e) + 1) / 2).
    { apply Z.div_unique with (r := 1); lia. }
    rewrite Zdiv_Qdiv. apply Qfloor_comp.
    rewrite inject_Z_plus, !inject_Z_mult, inject_Z_pow2 by lia.
    field.
  - assert (P : 0 < 2 ^ (- e)) by (apply Z.pow_pos_nonneg; lia).
    replace (2 ^ (- e + 1)) with (2 * 2 ^ (- e))
      by (rewrite Z.pow_add_r by lia; lia).
    rewrite Zdiv_Qdiv. apply Qfloor_comp.
    replace e with (- - e) at 3 by lia.
    rewrite Qpower_opp, <- inject_Z_pow2 by lia.
    rewrite inject_Z_plus, !inject_Z_mult.
    assert (N : ~ (inject_Z (2 ^ (- e)) == 0)%Q) by (apply inject_Z_nonzero; lia).
    field. exact N.
Qed.

(** * formatTime (claim C10) *)

Lemma not_finite_nan (x : float) : Prim2SF x = S754_nan -> is_finite x = false.
Proof.
  intros E. unfold is_finite, is_nan.
  rewrite FloatAxioms.eqb_spec, E. reflexivity.
Qed.

Lemma not_finite_infinity (x : float) (sg : bool) :
  Prim2SF x = S754_infinity sg -> is_finite x = false.
Proof.
  intros E. unfold is_finite, is_infinity.
  rewrite (FloatAxioms.eqb_spec (abs x)), abs_spec, E.
  destruct (is_nan x); reflexivity.
Qed.

(** The seconds field: the remainder by 60 printed with three decimals is
    the decimal numeral of the nearest thousandth of [v mod 60]. *)
Lemma seconds_field (s : float) (m : positive) (e : Z) :
  Prim2SF s = S754_finite false m e ->
  toFixed 3 (js_rem s 60%float)
  = decimal_fixed (nearest (1000 * Qmod (exact_value m e) 60)) 3.
Proof.
  intros E.
  pose proof (Qmod_60_value m e) as V. cbv zeta in V.
  destruct (js_rem_60 s m e E) as [[R0 Z0] | (m' & e' & Er & He' & Hm')].
  - rewrite Z0. rewrite R0 in V.
    replace (nearest (1000 * Qmod (exact_value m e) 60)) with 0; [reflexivity|].
    unfold nearest. symmetry.
    transitivity (Qfloor (1 # 2)); [|reflexivity].
    apply Qfloor_comp. rewrite V. ring.
  - rewrite (toFixed_small 2 _ m' e' Er) by lia.
    rewrite round_scaled_nearest. f_equal.
    unfold nearest. apply Qfloor_comp.
    change (inject_Z (10 ^ Z.of_nat 3)) with 1000%Q.
    rewrite V. unfold exact_value. rewrite Hm'.
    rewrite scale_value by lia.
    replace (Z.min e (-47) - e' + e') with (Z.min e (-47)) by lia.
    reflexivity.
Qed.


(** The example of the claim. *)
Example formatTime_65_5 : formatTime 65.5%float = "01:05.500".
Proof. vm_compute. reflexivity. Qed.

(** In [decimal_fixed n 3] exactly three digits follow the point. *)
Lemma decimal_fixed_places (n : Z) (f : nat) :
  exists ip fp, decimal_fixed n f = ip ++ "." ++ fp /\ String.length fp = f.
Proof.
  exists (digits (n / 10 ^ Z.of_nat f)), (frac_digits f (n mod 10 ^ Z.of_nat f)).
  split; [reflexivity | apply length_frac_digits].
Qed.


(** * Reading the state after a handler *)

Lemma upd_same {K V : Type} (dec : forall a b : K, {a = b} + {a <> b}) (m : K -> V) k v :
  upd dec m k v k = v.
Proof. unfold upd. destruct (dec k k); [reflexivity | contradiction]. Qed.

Lemma upd_other {K V : Type} (dec : forall a b : K, {a = b} + {a <> b}) (m : K -> V) k v k' :
  k <> k' -> upd dec m k v k' = m k'.
Proof. intros H. unfold upd. destruct (dec k k'); [contradiction | reflexivity]. Qed.

Ltac state_simpl :=
  cbn [jobId anchorTime beats ws wsOriginal wsProcessed processedAudioUrl originalAudioUrl
       currentZoom flag text html trace
       set_jobId set_anchorTime set_beats set_ws set_wsOriginal set_wsProcessed
       set_processedAudioUrl set_originalAudioUrl set_currentZoom
       set_flags set_texts set_htmls set_trace set_flag set_text set_html emit
       fst snd];
  repeat (rewrite upd_same || rewrite upd_other by discriminate).

(** Projections of a state after one assignment. *)
Lemma anchorTime_set_jobId v st : anchorTime (set_jobId v st) = anchorTime st.
Proof. reflexivity. Qed.
Lemma anchorTime_set_anchorTime v st : anchorTime (set_anchorTime v st) = v.
Proof. reflexivity. Qed.
Lemma anchorTime_set_beats v st : anchorTime (set_beats v st) = anchorTime st.
Proof. reflexivity. Qed.
Lemma anchorTime_set_ws v st : anchorTime (set_ws v st) = anchorTime st.
Proof. reflexivity. Qed.
Lemma anchorTime_set_wsOriginal v st : anchorTime (set_wsOriginal v st) = anchorTime st.
Proof. reflexivity. Qed.
Lemma anchorTime_set_wsProcessed v st : anchorTime (set_wsProcessed v st) = anchorTime st.
Proof. reflexivity. Qed.
Lemma anchorTime_set_processedAudioUrl v st : anchorTime (set_processedAudioUrl v st) = anchorTime st.
Proof. reflexivity. Qed.
Lemma anchorTime_set_originalAudioUrl v st : anchorTime (set_originalAudioUrl v st) = anchorTime st.
Proof. reflexivity. Qed.
Lemma anchorTime_set_currentZoom v st : anchorTime (set_currentZoom v st) = anchorTime st.
Proof. reflexivity. Qed.
Lemma anchorTime_set_flag k v st : anchorTime (set_flag k v st) = anchorTime st.
Proof. reflexivity. Qed.
Lemma anchorTime_set_text k v st : anchorTime (set_text k v st) = anchorTime st.
Proof. reflexivity. Qed.
Lemma anchorTime_set_html k v st : anchorTime (set_html k v st) = anchorTime st.
Proof. reflexivity. Qed.
Lemma anchorTime_emit e st : anchorTime (emit e st) = anchorTime st.
Proof. reflexivity. Qed.
Lemma trace_set_jobId v st : trace (set_jobId v st) = trace st.
Proof. reflexivity. Qed.
Lemma trace_set_anchorTime v st : trace (set_anchorTime v st) = trace st.
Proof. reflexivity. Qed.
Lemma trace_set_beats v st : trace (set_beats v st) = trace st.
Proof. reflexivity. Qed.
Lemma trace_set_ws v st : trace (set_ws v st) = trace st.
Proof. reflexivity. Qed.
Lemma trace_set_wsOriginal v st : trace (set_wsOriginal v st) = trace st.
Proof. reflexivity. Qed.
Lemma trace_set_wsProcessed v st : trace (set_wsProcessed v st) = trace st.
Proof. reflexivity. Qed.
Lemma trace_set_processedAudioUrl v st : trace (set_processedAudioUrl v st) = trace st.
Proof. reflexivity. Qed.
Lemma trace_set_originalAudioUrl v st : trace (set_originalAudioUrl v st) = trace st.
Proof. reflexivity. Qed.
Lemma trace_set_currentZoom v st : trace (set_currentZoom v st) = trace st.
Proof. reflexivity. Qed.
Lemma trace_set_flag k v st : trace (set_flag k v st) = trace st.
Proof. reflexivity. Qed.
Lemma trace_set_text k v st : trace (set_text k v st) = trace st.
Proof. reflexivity. Qed.
Lemma trace_set_html k v st : trace (set_html k v st) = trace st.
Proof. reflexivity. Qed.
Lemma trace_emit e st : trace (emit e st) = (trace st ++ [e])%list.
Proof. reflexivity. Qed.
Lemma jobId_set_jobId v st : jobId (set_jobId v st) = v.
Proof. reflexivity. Qed.
Lemma jobId_set_anchorTime v st : jobId (set_anchorTime v st) = jobId st.
Proof. reflexivity. Qed.
Lemma jobId_set_beats v st : jobId (set_beats v st) = jobId st.
Proof. reflexivity. Qed.
Lemma jobId_set_ws v st : jobId (set_ws v st) = jobId st.
Proof. reflexivity. Qed.
Lemma jobId_set_wsOriginal v st : jobId (set_wsOriginal v st) = jobId st.
Proof. reflexivity. Qed.
Lemma jobId_set_wsProcessed v st : jobId (set_wsProcessed v st) = jobId st.
Proof. reflexivity. Qed.
Lemma jobId_set_processedAudioUrl v st : jobId (set_processedAudioUrl v st) = jobId st.
Proof. reflexivity. Qed.
Lemma jobId_set_originalAudioUrl v st : jobId (set_originalAudioUrl v st) = jobId st.
Proof. reflexivity. Qed.
Lemma jobId_set_currentZoom v st : jobId (set_currentZoom v st) = jobId st.
Proof. reflexivity. Qed.
Lemma jobId_set_flag k v st : jobId (set_flag k v st) = jobId st.
Proof. reflexivity. Qed.
Lemma jobId_set_text k v st : jobId (set_text k v st) = jobId st.
Proof. reflexivity. Qed.
Lemma jobId_set_html k v st : jobId (set_html k v st) = jobId st.
Proof. reflexivity. Qed.
Lemma jobId_emit e st : jobId (emit e st) = jobId st.
Proof. reflexivity. Qed.
Lemma beats_set_jobId v st : beats (set_jobId v st) = beats st.
Proof. reflexivity. Qed.
Lemma beats_set_anchorTime v st : beats (set_anchorTime v st) = beats st.
Proof. reflexivity. Qed.
Lemma beats_set_beats v st : beats (set_beats v st) = v.
Proof. reflexivity. Qed.
Lemma beats_set_ws v st : beats (set_ws v st) = beats st.
Proof. reflexivity. Qed.
Lemma beats_set_wsOriginal v st : beats (set_wsOriginal v st) = beats st.
Proof. reflexivity. Qed.
Lemma beats_set_wsProcessed v st : beats (set_wsProcessed v st) = beats st.
Proof. reflexivity. Qed.
Lemma beats_set_processedAudioUrl v st : beats (set_processedAudioUrl v st) = beats st.
Proof. reflexivity. Qed.
Lemma beats_set_originalAudioUrl v st : beats (set_originalAudioUrl v st) = beats st.
Proof. reflexivity. Qed.
Lemma beats_set_currentZoom v st : beats (set_currentZoom v st) = beats st.
Proof. reflexivity. Qed.
Lemma beats_set_flag k v st : beats (set_flag k v st) = beats st.
Proof. reflexivity. Qed.
Lemma beats_set_text k v st : beats (set_text k v st) = beats st.
Proof. reflexivity. Qed.
Lemma beats_set_html k v st : beats (set_html k v st) = beats st.
Proof. reflexivity. Qed.
Lemma beats_emit e st : beats (emit e st) = beats st.
Proof. reflexivity. Qed.
Lemma processedAudioUrl_set_jobId v st : processedAudioUrl (set_jobId v st) = processedAudioUrl st.
Proof. reflexivity. Qed.
Lemma processedAudioUrl_set_anchorTime v st : processedAudioUrl (set_anchorTime v st) = processedAudioUrl st.
Proof. reflexivity. Qed.
Lemma processedAudioUrl_set_beats v st : processedAudioUrl (set_beats v st) = processedAudioUrl st.
Proof. reflexivity. Qed.
Lemma processedAudioUrl_set_ws v st : processedAudioUrl (set_ws v st) = processedAudioUrl st.
Proof. reflexivity. Qed.
Lemma processedAudioUrl_set_wsOriginal v st : processedAudioUrl (set_wsOriginal v st) = processedAudioUrl st.
Proof. reflexivity. Qed.
Lemma processedAudioUrl_set_wsProcessed v st : processedAudioUrl (set_wsProcessed v st) = processedAudioUrl st.
Proof. reflexivity. Qed.
Lemma processedAudioUrl_set_processedAudioUrl v st : processedAudioUrl (set_processedAudioUrl v st) = v.
Proof. reflexivity. Qed.
Lemma processedAudioUrl_set_originalAudioUrl v st : processedAudioUrl (set_originalAudioUrl v st) = processedAudioUrl st.
Proof. reflexivity. Qed.
Lemma processedAudioUrl_set_currentZoom v st : processedAudioUrl (set_currentZoom v st) = processedAudioUrl st.
Proof. reflexivity. Qed.
Lemma processedAudioUrl_set_flag k v st : processedAudioUrl (set_flag k v st) = processedAudioUrl st.
Proof. reflexivity. Qed.
Lemma processedAudioUrl_set_text k v st : processedAudioUrl (set_text k v st) = processedAudioUrl st.
Proof. reflexivity. Qed.
Lemma processedAudioUrl_set_html k v st : processedAudioUrl (set_html k v st) = processedAudioUrl st.
Proof. reflexivity. Qed.
Lemma processedAudioUrl_emit e st : processedAudioUrl (emit e st) = processedAudioUrl st.
Proof. reflexivity. Qed.
Lemma html_set_jobId v st : html (set_jobId v st) = html st.
Proof. reflexivity. Qed.
Lemma html_set_anchorTime v st : html (set_anchorTime v st) = html st.
Proof. reflexivity. Qed.
Lemma html_set_beats v st : html (set_beats v st) = html st.
Proof. reflexivity. Qed.
Lemma html_set_ws v st : html (set_ws v st) = html st.
Proof. reflexivity. Qed.
Lemma html_set_wsOriginal v st : html (set_wsOriginal v st) = html st.
Proof. reflexivity. Qed.
Lemma html_set_wsProcessed v st : html (set_wsProcessed v st) = html st.
Proof. reflexivity. Qed.
Lemma html_set_processedAudioUrl v st : html (set_processedAudioUrl v st) = html st.
Proof. reflexivity. Qed.
Lemma html_set_originalAudioUrl v st : html (set_originalAudioUrl v st) = html st.
Proof. reflexivity. Qed.
Lemma html_set_currentZoom v st : html (set_currentZoom v st) = html st.
Proof. reflexivity. Qed.
Lemma html_set_flag k v st : html (set_flag k v st) = html st.
Proof. reflexivity. Qed.
Lemma html_set_text k v st : html (set_text k v st) = html st.
Proof. reflexivity. Qed.
Lemma html_set_html k v st : html (set_html k v st) = upd html_key_dec (html st) k v.
Proof. reflexivity. Qed.
Lemma html_emit e st : html (emit e st) = html st.
Proof. reflexivity. Qed.
Lemma text_set_jobId v st : text (set_jobId v st) = text st.
Proof. reflexivity. Qed.
Lemma text_set_anchorTime v st : text (set_anchorTime v st) = text st.
Proof. reflexivity. Qed.
Lemma text_set_beats v st : text (set_beats v st) = text st.
Proof. reflexivity. Qed.
Lemma text_set_ws v st : text (set_ws v st) = text st.
Proof. reflexivity. Qed.
Lemma text_set_wsOriginal v st : text (set_wsOriginal v st) = text st.
Proof. reflexivity. Qed.
Lemma text_set_wsProcessed v st : text (set_wsProcessed v st) = text st.
Proof. reflexivity. Qed.
Lemma text_set_processedAudioUrl v st : text (set_processedAudioUrl v st) = text st.
Proof. reflexivity. Qed.
Lemma text_set_originalAudioUrl v st : text (set_originalAudioUrl v st) = text st.
Proof. reflexivity. Qed.
Lemma text_set_currentZoom v st : text (set_currentZoom v st) = text st.
Proof. reflexivity. Qed.
Lemma text_set_flag k v st : text (set_flag k v st) = text st.
Proof. reflexivity. Qed.
Lemma text_set_text k v st : text (set_text k v st) = upd text_key_dec (text st) k v.
Proof. reflexivity. Qed.
Lemma text_set_html k v st : text (set_html k v st) = text st.
Proof. reflexivity. Qed.
Lemma text_emit e st : text (emit e st) = text st.
Proof. reflexivity. Qed.
Lemma flag_set_jobId v st : flag (set_jobId v st) = flag st.
Proof. reflexivity. Qed.
Lemma flag_set_anchorTime v st : flag (set_anchorTime v st) = flag st.
Proof. reflexivity. Qed.
Lemma flag_set_beats v st : flag (set_beats v st) = flag st.
Proof. reflexivity. Qed.
Lemma flag_set_ws v st : flag (set_ws v st) = flag st.
Proof. reflexivity. Qed.
Lemma flag_set_wsOriginal v st : flag (set_wsOriginal v st) = flag st.
Proof. reflexivity. Qed.
Lemma flag_set_wsProcessed v st : flag (set_wsProcessed v st) = flag st.
Proof. reflexivity. Qed.
Lemma flag_set_processedAudioUrl v st : flag (set_processedAudioUrl v st) = flag st.
Proof. reflexivity. Qed.
Lemma flag_set_originalAudioUrl v st : flag (set_originalAudioUrl v st) = flag st.
Proof. reflexivity. Qed.
Lemma flag_set_currentZoom v st : flag (set_currentZoom v st) = flag st.
Proof. reflexivity. Qed.
Lemma flag_set_flag k v st : flag (set_flag k v st) = upd flag_key_dec (flag st) k v.
Proof. reflexivity. Qed.
Lemma flag_set_text k v st : flag (set_text k v st) = flag st.
Proof. reflexivity. Qed.
Lemma flag_set_html k v st : flag (set_html k v st) = flag st.
Proof. reflexivity. Qed.
Lemma flag_emit e st : flag (emit e st) = flag st.
Proof. reflexivity. Qed.

Create Rewrite HintDb state.
#[local] Hint Rewrite
  anchorTime_set_jobId anchorTime_set_anchorTime anchorTime_set_beats anchorTime_set_ws
  anchorTime_set_wsOriginal anchorTime_set_wsProcessed anchorTime_set_processedAudioUrl anchorTime_set_originalAudioUrl
  anchorTime_set_currentZoom anchorTime_set_flag anchorTime_set_text anchorTime_set_html
  anchorTime_emit trace_set_jobId trace_set_anchorTime trace_set_beats
  trace_set_ws trace_set_wsOriginal trace_set_wsProcessed trace_set_processedAudioUrl
  trace_set_originalAudioUrl trace_set_currentZoom trace_set_flag trace_set_text
  trace_set_html trace_emit jobId_set_jobId jobId_set_anchorTime
  jobId_set_beats jobId_set_ws jobId_set_wsOriginal jobId_set_wsProcessed
  jobId_set_processedAudioUrl jobId_set_originalAudioUrl jobId_set_currentZoom jobId_set_flag
  jobId_set_text jobId_set_html jobId_emit beats_set_jobId
  beats_set_anchorTime beats_set_beats beats_set_ws beats_set_wsOriginal
  beats_set_wsProcessed beats_set_processedAudioUrl beats_set_originalAudioUrl beats_set_currentZoom
  beats_set_flag beats_set_text beats_set_html beats_emit
  processedAudioUrl_set_jobId processedAudioUrl_set_anchorTime processedAudioUrl_set_beats processedAudioUrl_set_ws
  processedAudioUrl_set_wsOriginal processedAudioUrl_set_wsProcessed processedAudioUrl_set_processedAudioUrl processedAudioUrl_set_originalAudioUrl
  processedAudioUrl_set_currentZoom processedAudioUrl_set_flag processedAudioUrl_set_text processedAudioUrl_set_html
  processedAudioUrl_emit html_set_jobId html_set_anchorTime html_set_beats
  html_set_ws html_set_wsOriginal html_set_wsProcessed html_set_processedAudioUrl
  html_set_originalAudioUrl html_set_currentZoom html_set_flag html_set_text
  html_set_html html_emit text_set_jobId text_set_anchorTime
  text_set_beats text_set_ws text_set_wsOriginal text_set_wsProcessed
  text_set_processedAudioUrl text_set_originalAudioUrl text_set_currentZoom text_set_flag
  text_set_text text_set_html text_emit flag_set_jobId
  flag_set_anchorTime flag_set_beats flag_set_ws flag_set_wsOriginal
  flag_set_wsProcessed flag_set_processedAudioUrl flag_set_originalAudioUrl flag_set_currentZoom
  flag_set_flag flag_set_text flag_set_html flag_emit
  : state.


Lemma updateZoomDisplay_anchorTime st : anchorTime (updateZoomDisplay st) = anchorTime st.
Proof. unfold updateZoomDisplay. destruct (js_ge (currentZoom st) 10%float); reflexivity. Qed.

Lemma fileInput_change_anchorTime (f : File.t) (st : State) :
  anchorTime (fst (fileInput_change (Some f) st)) = None.
Proof.
  unfold fileInput_change, handleFileUpload, uploadFileWithProgress. cbv zeta.
  destruct (negb (includes validTypes (File.type f))
            && negb (matches_audio_extension (File.name f)));
    [|destruct (File.size f >? maxSize)]; cbn [fst];
    autorewrite with state; rewrite updateZoomDisplay_anchorTime;
    autorewrite with state; reflexivity.
Qed.

(** * The process request (claims C1, C3, C5, C9) *)


(** C1: a click on the process button with a job id and an anchor set sends
    exactly one request, a POST to /api/process whose JSON body has exactly
    the fields job_id, target_bpm, strength, anchor_time, crossfade_ms and
    engine: the job id, parseFloat of the BPM and strength inputs, the
    anchor, parseInt of the crossfade input, each as JSON.stringify writes
    it, and the string auto. *)
Theorem process_click_request (st : State) (anchor : number) :
  ToBoolean (jobId st) = true -> anchorTime st = Some anchor ->
  trace (processBtn_click st)
  = (trace st ++
     [Fetch "POST" "/api/process" [("Content-Type", "application/json")]
        (JsonText
           (JObj [("job_id", serialize (jobId st));
                  ("target_bpm", serialize (JNum (parseFloat (text st bpmInput_value))));
                  ("strength", serialize (JNum (parseFloat (text st strengthInput_value))));
                  ("anchor_time", serialize (JNum anchor));
                  ("crossfade_ms", serialize (JNum (parseInt10 (text st cfInput_value))));
                  ("engine", JStr "auto")]))])%list.
Proof.
  intros Hj Ha. unfold processBtn_click. rewrite Hj, Ha. cbn [negb].
  state_simpl. do 2 f_equal. unfold JSON_stringify, payload. state_simpl.
  rewrite Ha. cbn [anchor_value].
  destruct (jobId st); try discriminate; reflexivity.
Qed.

Lemma process_click_request_witness :
  trace (processBtn_click sample_page)
  = (trace sample_page ++
     [Fetch "POST" "/api/process" [("Content-Type", "application/json")]
        (JsonText
           (JObj [("job_id", serialize (jobId sample_page));
                  ("target_bpm", serialize (JNum (parseFloat (text sample_page bpmInput_value))));
                  ("strength", serialize (JNum (parseFloat (text sample_page strengthInput_value))));
                  ("anchor_time", serialize (JNum 10%float));
                  ("crossfade_ms", serialize (JNum (parseInt10 (text sample_page cfInput_value))));
                  ("engine", JStr "auto")]))])%list.
Proof. apply process_click_request; reflexivity. Defined.

(** What the sample page sends: job 7f3a, 120.5 BPM, strength 0.75, anchor
    at 10 s, 20 ms of crossfade. *)
Example sample_request :
  requests (trace (processBtn_click sample_page))
  = [XhrSend "POST" "/api/upload" 120000 (FormData [("file", sample_file)]);
     Fetch "POST" "/api/process" [("Content-Type", "application/json")]
       (JsonText
          (JObj [("job_id", JStr "7f3a"); ("target_bpm", JNum 120.5%float);
                 ("strength", JNum 0.75%float); ("anchor_time", JNum 10%float);
                 ("crossfade_ms", JNum 20%float); ("engine", JStr "auto")]))].
Proof. vm_compute. reflexivity. Qed.






Example sample_links :
  let st2 := processBtn_settled (Response 200 None) (processBtn_click sample_page) in
  text st2 downloadWavBtn_href = "/api/download/7f3a?format=wav"
  /\ text st2 downloadMp3Btn_href = "/api/download/7f3a?format=mp3&bitrate=320"
  /\ processedAudioUrl st2 = Some (Path "/api/download/7f3a?format=wav&preview=true").
Proof. vm_compute. repeat split. Qed.

Lemma resume_anchorTime (f : File.t) (r : promise jsval) (st : State) :
  anchorTime (handleFileUpload_resume f r st) = anchorTime st.
Proof.
  destruct r as [|data|m]; cbn [handleFileUpload_resume]; [reflexivity| |reflexivity].
  unfold handleFileUpload_resolved.
  destruct (Get data "job_id") as [j|m1], (Get data "beats") as [b|m2],
           (Get data "bpm_estimate") as [p|m3]; try reflexivity.
  state_simpl.
  destruct (call_toFixed p 2) as [t|m4], (Get b "length") as [n|m5]; try reflexivity;
    destruct p; try reflexivity.
  unfold initWave, destroy. state_simpl.
  destruct (ws st); reflexivity.
Qed.

Lemma zoom_anchorTime (op : zoom_op) (st : State) :
  anchorTime (apply_zoom op st) = anchorTime st.
Proof.
  destruct op; cbn [apply_zoom]; unfold zoomIn, zoomOut, zoomToFit;
    destruct (ws st); try reflexivity;
    try destruct (js_ge (currentZoom st) maxZoom); try destruct (js_le (currentZoom st) minZoom);
    try reflexivity; rewrite updateZoomDisplay_anchorTime; reflexivity.
Qed.

(** Every event other than a seek on the waveform leaves a null anchor
    null. *)
Lemma anchor_set_only_by_seek (e : event) (st : State) :
  anchorTime st = None -> anchorTime (step e st) <> None ->
  exists t w, e = WsSeek t /\ ws st = Some w /\ anchorTime (step e st) = Some t.
Proof.
  intros H0 H1.
  assert (K : anchorTime (step e st) = anchorTime st \/
              exists t w, e = WsSeek t /\ ws st = Some w /\ anchorTime (step e st) = Some t).
  { destruct e; cbn [step].
    - left. reflexivity.
    - left. destruct selected as [f|]; [|reflexivity].
      rewrite fileInput_change_anchorTime. symmetry. exact H0.
    - left. unfold xhr_progress. destruct lengthComputable; reflexivity.
    - left. unfold resume_upload, xhr_load, settle.
      destruct ((200 <=? status) && (status <? 300)); destruct responseText as [v|];
        try destruct (Get v "detail");
        destruct (result u) eqn:R; cbn [fst snd file result];
        rewrite ?resume_anchorTime; reflexivity.
    - left. unfold resume_upload, xhr_error, settle.
      destruct (result u) eqn:R; cbn [fst snd file result]; rewrite ?resume_anchorTime; reflexivity.
    - left. unfold resume_upload, xhr_timeout, settle.
      destruct (result u) eqn:R; cbn [fst snd file result]; rewrite ?resume_anchorTime; reflexivity.
    - left. unfold resume_upload, xhr_resolve_timer, settle.
      destruct (result u) eqn:R; cbn [fst snd file result]; rewrite ?resume_anchorTime; reflexivity.
    - left. unfold initComparisonWaveforms, destroy.
      repeat match goal with
             | |- context [match ?x with Some _ => _ | None => _ end] => destruct x
             | |- context [if ?x then _ else _] => destruct x
             end; reflexivity.
    - left. unfold ws_ready. destruct (ws st); [|reflexivity].
      rewrite updateZoomDisplay_anchorTime. reflexivity.
    - unfold ws_seek. destruct (ws st) as [w|]; [right | left; reflexivity].
      exists t, w. repeat split; reflexivity.
    - left. unfold ws_audioprocess. destruct (ws st); reflexivity.
    - left. unfold ws_play. destruct (ws st); reflexivity.
    - left. unfold ws_pause. destruct (ws st); reflexivity.
    - left. unfold ws_finish. destruct (ws st); reflexivity.
    - left. destruct (wsProcessed st); reflexivity.
    - left. unfold playBtn_click. destruct (ws st); reflexivity.
    - left. apply (zoom_anchorTime ZoomIn).
    - left. apply (zoom_anchorTime ZoomOut).
    - left. apply (zoom_anchorTime ZoomToFit).
    - left. unfold processBtn_click. rewrite H0.
      destruct (negb (ToBoolean (jobId st))); exact H0.
    - left. unfold processBtn_settled, process_catch, process_success, showComparisonSection.
      destruct r as [|status json]; [reflexivity|].
      destruct (res_ok status); [reflexivity|].
      destruct json as [err|]; [|reflexivity]. destruct (Get err "detail"); reflexivity.
    - left. unfold playComparisonBtn_click. destruct (wsProcessed st); [|reflexivity].
      destruct isPlaying; reflexivity.
    - left. unfold document_keydown, playBtn_click.
      repeat match goal with
             | |- context [if ?x then _ else _] => destruct x
             end; try reflexivity;
        first [apply (zoom_anchorTime ZoomIn) | apply (zoom_anchorTime ZoomOut)
              | apply (zoom_anchorTime ZoomToFit) | destruct (ws st); reflexivity].
    - left. unfold wave_wheel. destruct (ws st) eqn:W; [|reflexivity].
      destruct (negb ctrlKey); [reflexivity|].
      destruct (js_lt deltaY 0%float);
        [apply (zoom_anchorTime ZoomIn) | apply (zoom_anchorTime ZoomOut)]. }
  destruct K as [K|K]; [rewrite K in H1; contradiction | exact K].
Qed.

(** C9: without a job id or without an anchor the click handler of the
    process button returns at once, leaving the state (its trace of
    requests included) as it was; a null anchor becomes non-null only by a
    seek event of the loaded waveform; and choosing a file resets it to
    null. *)
Theorem process_needs_job_and_anchor :
  (forall st, ToBoolean (jobId st) = false \/ anchorTime st = None ->
              processBtn_click st = st)
  /\ (forall e st, anchorTime st = None -> anchorTime (step e st) <> None ->
                   exists t w, e = WsSeek t /\ ws st = Some w
                               /\ anchorTime (step e st) = Some t)
  /\ (forall f st, anchorTime (step (FileChange (Some f)) st) = None).
Proof.
  split; [|split].
  - intros st [H|H]; unfold processBtn_click; rewrite H; [reflexivity|].
    destruct (negb (ToBoolean (jobId st))); reflexivity.
  - exact anchor_set_only_by_seek.
  - intros f st. apply fileInput_change_anchorTime.
Qed.

(** * Choosing a file (claim C4) *)

Lemma includes_In (l : list string) (s : string) : includes l s = true <-> In s l.
Proof.
  unfold includes. rewrite existsb_exists. split.
  - intros (x & Hx & E). apply String.eqb_eq in E. subst x. exact Hx.
  - intros H. exists s. split; [exact H | apply String.eqb_refl].
Qed.

Lemma length_lowercase (s : string) : String.length (lowercase s) = String.length s.
Proof. induction s as [|c s IH]; cbn; [reflexivity | rewrite IH; reflexivity]. Qed.

Lemma take_drop (n : nat) (s : string) : take n s ++ drop n s = s.
Proof.
  revert s. induction n as [|n IH]; intros s; [reflexivity|].
  destruct s as [|c s]; [reflexivity|]. cbn. rewrite IH. reflexivity.
Qed.

(** The test for an ending in any letter case, as a statement about the
    name: it is some stem followed by the ending in some letter case. *)
Lemma ends_with_ci_spec (suffix s : string) :
  ends_with_ci suffix s = true <->
  exists stem ext, s = stem ++ ext /\ lowercase ext = suffix.
Proof.
  unfold ends_with_ci. split.
  - intros H. apply andb_prop in H as [H1 H2]. apply String.eqb_eq in H2.
    exists (take (String.length s - String.length suffix) s),
           (drop (String.length s - String.length suffix) s).
    split; [symmetry; apply take_drop | exact H2].
  - intros (stem & ext & E1 & E2). subst s.
    assert (L : String.length suffix = String.length ext)
      by (rewrite <- E2; apply length_lowercase).
    rewrite length_append, L. apply andb_true_intro. split.
    + apply Nat.leb_le. lia.
    + replace (String.length stem + String.length ext - String.length ext)%nat
        with (String.length stem) by lia.
      rewrite drop_app, E2. apply String.eqb_refl.
Qed.

Lemma matches_audio_extension_spec (name : string) :
  matches_audio_extension name = true <->
  exists stem ext, name = stem ++ ext /\ In (lowercase ext) audio_extensions.
Proof.
  unfold matches_audio_extension, audio_extensions. rewrite !orb_true_iff, !ends_with_ci_spec.
  split.
  - intros [[(a & b & E & L) | (a & b & E & L)] | (a & b & E & L)];
      exists a, b; (split; [exact E|]); rewrite L; cbn; auto.
  - intros (a & b & E & [L | [L | [L | []]]]);
      [left; left | left; right | right]; exists a, b; auto.
Qed.

(** The two tests of lines 468 and 475 decide the upload contract. *)
Lemma accepted_iff (f : File.t) :
  accepted f <->
  negb (includes validTypes (File.type f)) && negb (matches_audio_extension (File.name f))
  = false
  /\ (File.size f >? maxSize) = false.
Proof.
  unfold accepted. change (100 * 1024 * 1024) with maxSize.
  rewrite <- includes_In, <- matches_audio_extension_spec.
  rewrite Z.gtb_ltb, Z.ltb_ge.
  destruct (includes validTypes (File.type f)), (matches_audio_extension (File.name f));
    cbn [negb andb]; intuition congruence.
Qed.

Lemma updateZoomDisplay_html st : html (updateZoomDisplay st) = html st.
Proof. unfold updateZoomDisplay. destruct (js_ge (currentZoom st) 10%float); reflexivity. Qed.

(** C4: a chosen file is uploaded only if it meets the upload contract.
    When its MIME type is none of audio/mpeg, audio/wav, audio/mp4,
    audio/m4a and its name does not end in .mp3, .wav or .m4a in any letter
    case, or when it is larger than 100 * 1024 * 1024 bytes, the handler
    shows an error and asks nothing of the browser; otherwise it sends the
    file in one POST to /api/upload. *)
Theorem upload_only_accepted (f : File.t) (st : State) :
  let r := fileInput_change (Some f) st in
  (~ accepted f ->
     trace (fst r) = trace st /\ snd r = None
     /\ exists msg, html (fst r) uploadProgress_innerHTML
                    = [Elem "span" "text-error" [Text msg]])
  /\ (accepted f ->
        trace (fst r)
        = (trace st ++ [XhrSend "POST" "/api/upload" 120000 (FormData [("file", f)])])%list
        /\ snd r = Some {| file := f; result := Pending; resolving := None |}).
Proof.
  cbv zeta. rewrite accepted_iff.
  unfold fileInput_change, handleFileUpload, uploadFileWithProgress. cbv zeta.
  destruct (negb (includes validTypes (File.type f))
            && negb (matches_audio_extension (File.name f))) eqn:T;
    [|destruct (File.size f >? maxSize) eqn:S]; cbn [fst snd].
  - split; [intros _ | intros [K _]; discriminate].
    autorewrite with state. rewrite updateZoomDisplay_trace. autorewrite with state.
    rewrite upd_same. repeat split. eexists. reflexivity.
  - split; [intros _ | intros [_ K]; discriminate].
    autorewrite with state. rewrite updateZoomDisplay_trace. autorewrite with state.
    rewrite upd_same. repeat split. eexists. reflexivity.
  - split; [intros K; exfalso; apply K; split; reflexivity | intros _].
    autorewrite with state. rewrite updateZoomDisplay_trace. autorewrite with state.
    split; reflexivity.
Qed.

Lemma upload_only_accepted_witness :
  accepted sample_file
  /\ trace (fst (fileInput_change (Some sample_file) blank_page))
     = (trace blank_page
        ++ [XhrSend "POST" "/api/upload" 120000 (FormData [("file", sample_file)])])%list
  /\ snd (fileInput_change (Some sample_file) blank_page)
     = Some {| file := sample_file; result := Pending; resolving := None |}.
Proof.
  assert (A : accepted sample_file)
    by (split; [left; left; reflexivity | vm_compute; discriminate]).
  split; [exact A | exact (proj2 (upload_only_accepted sample_file blank_page) A)].
Defined.

(** A file of 100 MB and one byte with a proper type and name is refused,
    and so is a small text file; neither reaches the network. *)
Example refused_files :
  let big := {| File.name := "set.wav"; File.type := "audio/wav";
                File.size := 100 * 1024 * 1024 + 1 |} in
  let text_file := {| File.name := "notes.txt"; File.type := "text/plain"; File.size := 12 |} in
  trace (fst (fileInput_change (Some big) blank_page)) = []
  /\ trace (fst (fileInput_change (Some text_file) blank_page)) = []
  /\ matches_audio_extension "Take Five.MP3" = true
  /\ matches_audio_extension "mp3" = false.
Proof. vm_compute. repeat split. Qed.

(** * The upload (claims C6, C7) *)





(** What the sample response shows: three beats, 120.50 BPM. *)
Example sample_analysis :
  let st' := handleFileUpload_resolved sample_file sample_response blank_page in
  html st' analysisDiv_innerHTML = analysis_grid "120.50" "3"
  /\ text st' bpmInput_value = "120.50".
Proof. vm_compute. split; reflexivity. Qed.


(** * The warp planner (claim C2) *)

Module WarpPlannerFacts.
Import WarpPlanner.

Lemma overlap_empty (g : segment) (a : Q) : (overlap g a a == 0)%Q.
Proof.
  unfold overlap. apply Q.max_l.
  pose proof (Q.le_min_l a (source_time_end g)).
  pose proof (Q.le_max_l a (source_time_start g)).
  lra.
Qed.

Lemma elapsed_empty (curve : list segment) (a : Q) : (elapsed curve a a == 0)%Q.
Proof.
  induction curve as [|g curve IH]; cbn [elapsed fold_right]; [reflexivity|].
  fold (elapsed curve a a). rewrite IH, overlap_empty. ring.
Qed.

(** C2: for every anchor within [0, source_duration] (and a positive target
    tempo, without which the planner fails) the planner succeeds and its
    warp map leaves the anchor where it is, whatever the strength. *)
Theorem anchor_is_fixed_point (r : request) :
  (0 < target_bpm r)%Q ->
  (0 <= anchor_time r)%Q -> (anchor_time r <= source_duration r)%Q ->
  exists curve,
    plan r = Planned curve
    /\ (warp curve (anchor_time r) (anchor_time r) == anchor_time r)%Q.
Proof.
  intros Ht H0 H1. exists (curve_of r). split.
  - unfold plan.
    destruct (Qle_bool (target_bpm r) 0) eqn:T.
    + apply Qle_bool_iff in T. lra.
    + apply Qle_bool_iff in H0, H1. rewrite H0, H1. reflexivity.
  - unfold warp.
    assert (L : Qle_bool (anchor_time r) (anchor_time r) = true)
      by (apply Qle_bool_iff; lra).
    rewrite L, elapsed_empty. ring.
Qed.

Lemma anchor_is_fixed_point_witness :
  exists curve,
    plan scenario = Planned curve
    /\ (warp curve (anchor_time scenario) (anchor_time scenario) == anchor_time scenario)%Q.
Proof.
  apply anchor_is_fixed_point; vm_compute; first [reflexivity | intros K; discriminate K].
Defined.

End WarpPlannerFacts.

(** * The shape of the state after the larger handlers *)

Ltac state_cbv :=
  cbv beta iota zeta delta
    [jobId anchorTime beats ws wsOriginal wsProcessed processedAudioUrl originalAudioUrl
     currentZoom flag text html trace
     set_jobId set_anchorTime set_beats set_ws set_wsOriginal set_wsProcessed
     set_processedAudioUrl set_originalAudioUrl set_currentZoom
     set_flags set_texts set_htmls set_trace set_flag set_text set_html emit
     destroy wave_destroyed wave_loaded create_wave wave_load container loaded filename
     initComparisonWaveforms initWave handleFileUpload_catch handleFileUpload
     uploadFileWithProgress updateZoomDisplay document_loaded xhr_progress
     ws_ready ws_seek ws_audioprocess ws_play ws_pause ws_finish wsProcessed_ready
     playBtn_click processBtn_click processBtn_settled process_catch process_success
     showComparisonSection playComparisonBtn_click zoomIn zoomOut zoomToFit
     document_keydown wave_wheel file result resolving fst snd].

(** handleFileUpload after its await: nothing when the promise is pending;
    the catch block, entered before anything was assigned or after the job
    id and the beats were; or the whole of lines 408-439. *)
Lemma handleFileUpload_resume_cases (f : File.t) (r : promise jsval) (st : State) :
  handleFileUpload_resume f r st = st
  \/ (exists m st0,
        handleFileUpload_resume f r st = handleFileUpload_catch m st0
        /\ (st0 = st
            \/ exists j b h, st0 = set_html uploadProgress_innerHTML h (set_beats b (set_jobId j st))))
  \/ (exists j b h1 h2 t,
        handleFileUpload_resume f r st
        = set_text exportOptions_display "none"
            (set_text comparisonSection_display "none"
               (set_text bpmInput_value t
                  (initWave (ObjectURL f) (File.name f)
                     (set_html analysisDiv_innerHTML h2
                        (set_html uploadProgress_innerHTML h1
                           (set_beats b (set_jobId j st)))))))).
Proof.
  destruct r as [|data|m]; cbn [handleFileUpload_resume].
  - left. reflexivity.
  - unfold handleFileUpload_resolved.
    destruct (Get data "job_id") as [j|m1]; [|right; left; exists m1, st; auto].
    destruct (Get data "beats") as [b|m2]; [|right; left; exists m2, st; auto].
    destruct (Get data "bpm_estimate") as [p|m3]; [|right; left; exists m3, st; auto].
    cbv zeta.
    destruct (call_toFixed p 2) as [t|m4];
      [|right; left; eexists m4, _; split; [reflexivity | right; eexists _, _, _; reflexivity]].
    destruct (Get _ "length") as [n|m5];
      [|right; left; eexists m5, _; split; [reflexivity | right; eexists _, _, _; reflexivity]].
    destruct p;
      try (right; left; eexists _, _; split; [reflexivity | right; eexists _, _, _; reflexivity]).
    right; right. eexists _, _, _, _, _. reflexivity.
  - right; left. exists m, st. auto.
Qed.

(** The state in which handleFileUpload resumes when an event of the
    upload arrives: the page as it was, with the progress bar hidden or
    completed. *)
Lemma upload_event_cases (e : event) (st : State) :
  match e with
  | XhrLoad _ _ _ | XhrError _ | XhrTimeout _ | TimerResolveUpload _ _ =>
      exists f r st0,
        step e st = handleFileUpload_resume f r st0
        /\ (st0 = st
            \/ st0 = set_text uploadProgressContainer_display "none" st
            \/ exists data,
                 st0 = emit (SetTimeout (ResolveUpload data) 800)
                         (set_text uploadLabel_textContent "Upload complete!"
                            (set_text uploadPercent_textContent "100%"
                               (set_text uploadProgressFill_width "100%" st))))
  | _ => True
  end.
Proof.
  destruct e; try exact I; cbn [step]; unfold resume_upload.
  - unfold xhr_load.
    destruct ((200 <=? status) && (status <? 300)).
    + destruct responseText as [data|]; cbn [fst snd].
      * destruct (result u) eqn:R;
          [eexists _, _, _; split; [reflexivity | right; right; eexists; reflexivity]
          | exists (file u), Pending; eexists; split; [reflexivity | right; right; eexists; reflexivity] ..].
      * destruct (result u) eqn:R;
          [eexists _, _, _; split; [reflexivity | left; reflexivity]
          | exists (file u), Pending; eexists; split; [reflexivity | left; reflexivity] ..].
    + destruct responseText as [v|]; [destruct (Get v "detail")|]; cbn [fst snd];
        (destruct (result u) eqn:R;
          [eexists _, _, _; split; [reflexivity | left; reflexivity]
          | exists (file u), Pending; eexists; split; [reflexivity | left; reflexivity] ..]).
  - unfold xhr_error. cbn [fst snd].
    destruct (result u) eqn:R;
      [eexists _, _, _; split; [reflexivity | right; left; reflexivity]
      | exists (file u), Pending; eexists; split; [reflexivity | right; left; reflexivity] ..].
  - unfold xhr_timeout. cbn [fst snd].
    destruct (result u) eqn:R;
      [eexists _, _, _; split; [reflexivity | right; left; reflexivity]
      | exists (file u), Pending; eexists; split; [reflexivity | right; left; reflexivity] ..].
  - unfold xhr_resolve_timer. cbn [fst snd].
    destruct (result u) eqn:R;
      [eexists _, _, _; split; [reflexivity | right; left; reflexivity]
      | exists (file u), Pending; eexists; split; [reflexivity | right; left; reflexivity] ..].
Qed.

(** What an event of the upload leaves: the page with the progress bar
    hidden or completed, then nothing more, the catch block, or the whole
    of lines 408-439. *)
Lemma upload_event_shapes (e : event) (st : State) :
  match e with
  | XhrLoad _ _ _ | XhrError _ | XhrTimeout _ | TimerResolveUpload _ _ =>
      exists st0,
        (st0 = st
         \/ st0 = set_text uploadProgressContainer_display "none" st
         \/ exists data,
              st0 = emit (SetTimeout (ResolveUpload data) 800)
                      (set_text uploadLabel_textContent "Upload complete!"
                         (set_text uploadPercent_textContent "100%"
                            (set_text uploadProgressFill_width "100%" st))))
        /\ (step e st = st0
            \/ (exists m, step e st = handleFileUpload_catch m st0)
            \/ (exists m j b h,
                  step e st
                  = handleFileUpload_catch m
                      (set_html uploadProgress_innerHTML h (set_beats b (set_jobId j st0))))
            \/ (exists f j b h1 h2 t,
                  step e st
                  = set_text exportOptions_display "none"
                      (set_text comparisonSection_display "none"
                         (set_text bpmInput_value t
                            (initWave (ObjectURL f) (File.name f)
                               (set_html analysisDiv_innerHTML h2
                                  (set_html uploadProgress_innerHTML h1
                                     (set_beats b (set_jobId j st0)))))))))
  | _ => True
  end.
Proof.
  pose proof (upload_event_cases e st) as U.
  destruct e; try exact I; destruct U as (f & r & st0 & E & H); exists st0;
    (split; [exact H|]); rewrite E;
    destruct (handleFileUpload_resume_cases f r st0)
      as [K | [(m & st1 & K & [-> | (j & b & h & ->)]) | (j & b & h1 & h2 & t & K)]];
    rewrite K; eauto 10.
Qed.

(** The change handler with a file: the reset of lines 454-464, then an
    error for a file that fails the checks, or handleFileUpload. *)
Lemma fileInput_change_cases (f : File.t) (st : State) :
  let st8 :=
    updateZoomDisplay
      (set_currentZoom minZoom
         (set_flag zoomFitBtn_disabled true
            (set_flag zoomOutBtn_disabled true
               (set_flag zoomInBtn_disabled true
                  (set_anchorTime None
                     (set_text durationDisplay_textContent "/ 00:00.000"
                        (set_text timeDisplay_textContent "00:00.000"
                           (set_text trackName_textContent "No file loaded" st)))))))) in
  (~ accepted f
   /\ exists h, fileInput_change (Some f) st = (set_html uploadProgress_innerHTML h st8, None))
  \/ (accepted f
      /\ fileInput_change (Some f) st
         = (fst (handleFileUpload f st8), Some (snd (handleFileUpload f st8)))).
Proof.
  cbv zeta. rewrite accepted_iff. unfold fileInput_change. cbv zeta.
  destruct (negb (includes validTypes (File.type f))
            && negb (matches_audio_extension (File.name f)));
    [|destruct (File.size f >? maxSize)].
  - left. split; [intros [K _]; discriminate | eexists; reflexivity].
  - left. split; [intros [_ K]; discriminate | eexists; reflexivity].
  - right. split; [split; reflexivity|].
    destruct (handleFileUpload f _) as [s u]. reflexivity.
Qed.

Lemma initWave_trace (u : url) (name : string) (st : State) :
  trace (initWave u name st)
  = (trace st ++ wave_destroyed (ws st) ++ [WaveLoad "#wave" u])%list.
Proof.
  destruct st as [j a b w wo wp pu ou z fl tx ht tr]. destruct w; state_cbv;
    rewrite <- ?app_assoc; reflexivity.
Qed.

Lemma initComparisonWaveforms_trace (st : State) :
  trace (initComparisonWaveforms st)
  = (trace st ++ wave_destroyed (wsOriginal st) ++ wave_destroyed (wsProcessed st)
     ++ wave_loaded "#waveOriginal" (originalAudioUrl st)
     ++ wave_loaded "#waveProcessed" (processedAudioUrl st))%list.
Proof.
  destruct st as [j a b w wo wp pu ou z fl tx ht tr].
  destruct wo, wp, ou as [uo|], pu as [up|]; state_cbv;
    try destruct (url_truthy (Some uo)); try destruct (url_truthy (Some up));
    rewrite <- ?app_assoc; cbn [app]; rewrite ?app_nil_r; reflexivity.
Qed.

(** * The zoom level under every event *)

(** An event that runs none of the zoom functions leaves the zoom level as
    it is or resets it to [minZoom], and calls ws.zoom not at all. *)
Lemma step_zoom_quiet (e : event) (st : State) :
  match e with
  | ZoomInClick | ZoomOutClick | ZoomFitClick | KeyDown _ _ | Wheel _ _ => True
  | _ => (currentZoom (step e st) = currentZoom st \/ currentZoom (step e st) = minZoom)
         /\ zoom_calls (trace (step e st)) = zoom_calls (trace st)
  end.
Proof.
  pose proof (upload_event_shapes e st) as U.
  destruct e; try exact I;
    try (destruct U as (st0 & H0 & [E | [(? & E) | [(? & ? & ? & ? & E) | (? & ? & ? & ? & ? & ? & E)]]]);
         rewrite E; clear E;
         destruct H0 as [-> | [-> | (? & ->)]];
         destruct st as [j' a' b' w wo wp pu ou z fl tx ht tr]; try destruct w;
         state_cbv; rewrite ?zoom_calls_app; cbn [zoom_calls]; rewrite ?app_nil_r; auto);
    clear U; cbn [step].
  - destruct st; state_cbv; auto.
  - destruct selected as [f|]; [|cbn; auto].
    destruct (fileInput_change_cases f st) as [[_ (h & E)] | [_ E]]; cbv zeta in E; rewrite E;
      destruct st as [j' a' b' w wo wp pu ou z fl tx ht tr]; state_cbv;
      destruct (js_ge minZoom 10%float); state_cbv;
      rewrite ?zoom_calls_app; cbn [zoom_calls]; rewrite ?app_nil_r; auto.
  - destruct st; destruct lengthComputable; state_cbv; auto.
  - rewrite initComparisonWaveforms_trace.
    split.
    + destruct st as [j' a' b' w wo wp pu ou z fl tx ht tr].
      destruct wo, wp, ou as [uo|], pu as [up|]; state_cbv;
        try destruct (url_truthy (Some uo)); try destruct (url_truthy (Some up)); auto.
    + rewrite !zoom_calls_app.
      destruct (wsOriginal st), (wsProcessed st), (originalAudioUrl st) as [uo|],
               (processedAudioUrl st) as [up|];
        cbn [wave_destroyed wave_loaded]; try destruct (url_truthy (Some uo));
        try destruct (url_truthy (Some up)); cbn [zoom_calls app]; apply app_nil_r.
  - destruct st as [j' a' b' w wo wp pu ou z fl tx ht tr]; destruct w; state_cbv; [|auto].
    destruct (js_ge minZoom 10%float); state_cbv; auto.
  - destruct st as [j' a' b' w wo wp pu ou z fl tx ht tr]; destruct w; state_cbv; auto.
  - destruct st as [j' a' b' w wo wp pu ou z fl tx ht tr]; destruct w; state_cbv; auto.
  - destruct st as [j' a' b' w wo wp pu ou z fl tx ht tr]; destruct w; state_cbv; auto.
  - destruct st as [j' a' b' w wo wp pu ou z fl tx ht tr]; destruct w; state_cbv; auto.
  - destruct st as [j' a' b' w wo wp pu ou z fl tx ht tr]; destruct w; state_cbv; auto.
  - destruct st as [j' a' b' w wo wp pu ou z fl tx ht tr]; destruct wp; state_cbv; auto.
  - destruct st as [j' a' b' w wo wp pu ou z fl tx ht tr]; destruct w; state_cbv;
      rewrite ?zoom_calls_app; cbn [zoom_calls]; rewrite ?app_nil_r; auto.
  - destruct st as [j' a' b' w wo wp pu ou z fl tx ht tr]; state_cbv.
    destruct (negb (ToBoolean j')); [auto|]. destruct a'; [|auto].
    state_cbv. rewrite ?zoom_calls_app; cbn [zoom_calls]; rewrite ?app_nil_r; auto.
  - destruct st as [j' a' b' w wo wp pu ou z fl tx ht tr]; state_cbv.
    destruct r as [|status json]; [auto|].
    destruct (res_ok status);
      [rewrite ?zoom_calls_app; cbn [zoom_calls]; rewrite ?app_nil_r; auto|].
    destruct json as [err|]; [destruct (Get err "detail")|]; auto.
  - destruct st as [j' a' b' w wo wp pu ou z fl tx ht tr]; destruct wp; state_cbv; [|auto].
    destruct isPlaying; rewrite ?zoom_calls_app; cbn [zoom_calls]; rewrite ?app_nil_r; auto.
Qed.

Lemma zoom_kept (st st' : State) :
  (currentZoom st' = currentZoom st \/ currentZoom st' = minZoom)
  /\ zoom_calls (trace st') = zoom_calls (trace st) ->
  in_zoom_range (currentZoom st) ->
  in_zoom_range (currentZoom st')
  /\ exists new, zoom_calls (trace st') = (zoom_calls (trace st) ++ new)%list
                 /\ Forall (fun pps => js_le 50%float pps = true) new.
Proof.
  intros [[Z | Z] T] H; rewrite Z, T;
    (split; [first [exact H | split; reflexivity]
            | exists []; split; [symmetry; apply app_nil_r | constructor]]).
Qed.

(** Whatever the event, the zoom level stays in range and ws.zoom is
    handed nothing below 50. *)
Lemma step_zoom_invariant (e : event) (st : State) :
  in_zoom_range (currentZoom st) ->
  in_zoom_range (currentZoom (step e st))
  /\ exists new, zoom_calls (trace (step e st)) = (zoom_calls (trace st) ++ new)%list
                 /\ Forall (fun pps => js_le 50%float pps = true) new.
Proof.
  intros H. pose proof (step_zoom_quiet e st) as Q.
  assert (Same : forall s : State, s = st ->
            in_zoom_range (currentZoom s)
            /\ exists new, zoom_calls (trace s) = (zoom_calls (trace st) ++ new)%list
                           /\ Forall (fun pps => js_le 50%float pps = true) new).
  { intros s ->. apply zoom_kept; auto. }
  destruct e; try (apply zoom_kept; assumption); clear Q; cbn [step].
  - exact (apply_zoom_invariant ZoomIn st H).
  - exact (apply_zoom_invariant ZoomOut st H).
  - exact (apply_zoom_invariant ZoomToFit st H).
  - unfold document_keydown.
    destruct (String.eqb targetTagName "INPUT"); [apply Same; reflexivity|].
    destruct (String.eqb key "+" || String.eqb key "=");
      [exact (apply_zoom_invariant ZoomIn st H)|].
    destruct (String.eqb key "-"); [exact (apply_zoom_invariant ZoomOut st H)|].
    destruct (String.eqb key "0"); [exact (apply_zoom_invariant ZoomToFit st H)|].
    destruct (String.eqb key " "); [|apply Same; reflexivity].
    apply zoom_kept; [|exact H]. unfold playBtn_click.
    destruct (ws st); [|auto]. destruct st. state_cbv.
    rewrite zoom_calls_app. cbn [zoom_calls]. rewrite app_nil_r. auto.
  - unfold wave_wheel. destruct (ws st); [|apply Same; reflexivity].
    destruct (negb ctrlKey); [apply Same; reflexivity|].
    destruct (js_lt deltaY 0%float);
      [exact (apply_zoom_invariant ZoomIn st H) | exact (apply_zoom_invariant ZoomOut st H)].
Qed.

(** Over every run of the page, whatever the events (clicks, keys, the
    wheel, a new file, a waveform that becomes ready), a zoom level that is
    within [minZoom, maxZoom] stays there, and every value handed to ws.zoom
    is at least 50. *)
Theorem zoom_range_every_event (es : list event) (st : State) :
  in_zoom_range (currentZoom st) ->
  in_zoom_range (currentZoom (run es st))
  /\ exists new, zoom_calls (trace (run es st)) = (zoom_calls (trace st) ++ new)%list
                 /\ Forall (fun pps => js_le 50%float pps = true) new.
Proof.
  revert st. induction es as [|e es IH]; intros st H; cbn [run].
  - split; [exact H|]. exists []. split; [symmetry; apply app_nil_r | constructor].
  - destruct (step_zoom_invariant e st H) as (H1 & new1 & T1 & F1).
    destruct (IH _ H1) as (H2 & new2 & T2 & F2).
    split; [exact H2|]. exists (new1 ++ new2)%list.
    split; [rewrite T2, T1, app_assoc; reflexivity | apply Forall_app; auto].
Qed.

Lemma zoom_range_every_event_witness :
  let es := [KeyDown "BODY" "+"; Wheel true (-3)%float; KeyDown "BODY" "-";
             FileChange (Some sample_file); WsReady 60%float; ZoomInClick] in
  in_zoom_range (currentZoom (run es sample_page))
  /\ exists new, zoom_calls (trace (run es sample_page))
                 = (zoom_calls (trace sample_page) ++ new)%list
                 /\ Forall (fun pps => js_le 50%float pps = true) new.
Proof. apply zoom_range_every_event. split; reflexivity. Defined.

(** * The requests of every event *)







(** * The process button *)

Ltac flag_simpl := repeat (rewrite upd_same || rewrite upd_other by discriminate).





(** * The job id *)

Lemma zoom_jobId (op : zoom_op) (st : State) :
  jobId (apply_zoom op st) = jobId st /\ beats (apply_zoom op st) = beats st.
Proof.
  destruct st as [j a b w wo wp pu ou z fl tx ht tr].
  destruct op; cbn [apply_zoom]; destruct w; state_cbv; auto.
  - destruct (js_ge z maxZoom); [auto|].
    match goal with |- context [js_ge ?x 10%float] => destruct (js_ge x 10%float) end; auto.
  - destruct (js_le z minZoom); [auto|].
    match goal with |- context [js_ge ?x 10%float] => destruct (js_ge x 10%float) end; auto.
Qed.

(** The job id and the beats of the page change with one event only: the
    timer of line 367 that hands the parsed response of an upload to
    handleFileUpload.  No click, key, seek, progress or failure touches
    them, and neither does the choice of a new file. *)
Theorem job_set_only_by_upload_response (e : event) (st : State) :
  jobId (step e st) <> jobId st \/ beats (step e st) <> beats st ->
  exists u data, e = TimerResolveUpload u data /\ result u = Pending.
Proof.
  intros H.
  assert (K : (jobId (step e st) = jobId st /\ beats (step e st) = beats st)
              \/ exists u data, e = TimerResolveUpload u data /\ result u = Pending).
  { clear H. destruct e; cbn [step].
    - left. destruct st; auto.
    - left. destruct selected as [f|]; [|auto].
      destruct (fileInput_change_cases f st) as [[_ (h & E)] | [A E]]; cbv zeta in E; rewrite E;
        destruct st as [j' a' b' w wo wp pu ou z fl tx ht tr]; state_cbv;
        destruct (js_ge minZoom 10%float); auto.
    - left. destruct st; destruct lengthComputable; auto.
    - left. unfold resume_upload, xhr_load, settle.
      destruct ((200 <=? status) && (status <? 300));
        destruct responseText as [v|]; try destruct (Get v "detail");
        destruct (result u); cbn [fst snd file result handleFileUpload_resume];
        destruct st; auto.
    - left. unfold resume_upload, xhr_error, settle.
      destruct (result u); cbn [fst snd file result handleFileUpload_resume]; destruct st; auto.
    - left. unfold resume_upload, xhr_timeout, settle.
      destruct (result u); cbn [fst snd file result handleFileUpload_resume]; destruct st; auto.
    - destruct (result u) eqn:R; [right; eauto | left | left];
        unfold resume_upload, xhr_resolve_timer, settle; rewrite R; destruct st; auto.
    - left. destruct st as [j' a' b' w wo wp pu ou z fl tx ht tr].
      destruct wo, wp, ou as [uo|], pu as [up|]; state_cbv;
        try destruct (url_truthy (Some uo)); try destruct (url_truthy (Some up)); auto.
    - left. destruct st as [j' a' b' w wo wp pu ou z fl tx ht tr]; destruct w; state_cbv;
        [destruct (js_ge minZoom 10%float)|]; auto.
    - left. destruct st as [j' a' b' w wo wp pu ou z fl tx ht tr]; destruct w; auto.
    - left. destruct st as [j' a' b' w wo wp pu ou z fl tx ht tr]; destruct w; auto.
    - left. destruct st as [j' a' b' w wo wp pu ou z fl tx ht tr]; destruct w; auto.
    - left. destruct st as [j' a' b' w wo wp pu ou z fl tx ht tr]; destruct w; auto.
    - left. destruct st as [j' a' b' w wo wp pu ou z fl tx ht tr]; destruct w; auto.
    - left. destruct st as [j' a' b' w wo wp pu ou z fl tx ht tr]; destruct wp; auto.
    - left. destruct st as [j' a' b' w wo wp pu ou z fl tx ht tr]; destruct w; auto.
    - left. apply (zoom_jobId ZoomIn).
    - left. apply (zoom_jobId ZoomOut).
    - left. apply (zoom_jobId ZoomToFit).
    - left. destruct st as [j' a' b' w wo wp pu ou z fl tx ht tr]; state_cbv.
      destruct (negb (ToBoolean j')); [auto|]. destruct a'; auto.
    - left. destruct st as [j' a' b' w wo wp pu ou z fl tx ht tr]; state_cbv.
      destruct r as [|status json]; [auto|]. destruct (res_ok status); [auto|].
      destruct json as [err|]; [destruct (Get err "detail")|]; auto.
    - left. destruct st as [j' a' b' w wo wp pu ou z fl tx ht tr]; destruct wp; state_cbv;
        [destruct isPlaying|]; auto.
    - left. unfold document_keydown.
      destruct (String.eqb targetTagName "INPUT"); [auto|].
      destruct (String.eqb key "+" || String.eqb key "="); [apply (zoom_jobId ZoomIn)|].
      destruct (String.eqb key "-"); [apply (zoom_jobId ZoomOut)|].
      destruct (String.eqb key "0"); [apply (zoom_jobId ZoomToFit)|].
      destruct (String.eqb key " "); [|auto].
      destruct st as [j' a' b' w wo wp pu ou z fl tx ht tr]; destruct w; auto.
    - left. unfold wave_wheel. destruct (ws st); [|auto].
      destruct (negb ctrlKey); [auto|].
      destruct (js_lt deltaY 0%float); [apply (zoom_jobId ZoomIn) | apply (zoom_jobId ZoomOut)]. }
  destruct K as [[K1 K2] | K]; [|exact K]. destruct H as [H | H]; contradiction.
Qed.

Lemma job_set_only_by_upload_response_witness :
  exists u data,
    TimerResolveUpload {| file := sample_file; result := Pending; resolving := None |}
      (JObj [("job_id", JStr "9c1d"); ("beats", JArr []); ("bpm_estimate", JNum 98%float)])
    = TimerResolveUpload u data
    /\ result u = Pending.
Proof.
  apply (job_set_only_by_upload_response _ sample_page).
  left. vm_compute. intros K. discriminate K.
Defined.

(** * Edge cases of the upload *)

(** Choosing a file, whether it passes the checks or not, resets the track
    display, the anchor and the zoom level, and leaves the job id and the
    waveform of the previous file in place.  The zoom buttons end up as
    updateZoomDisplay sets them for the level 1: zoom out disabled, and
    zoom in enabled again although line 460 had just disabled it. *)
Theorem file_choice_resets_display (f : File.t) (st : State) :
  let st' := fst (fileInput_change (Some f) st) in
  text st' trackName_textContent = "No file loaded"
  /\ text st' timeDisplay_textContent = "00:00.000"
  /\ text st' durationDisplay_textContent = "/ 00:00.000"
  /\ anchorTime st' = None
  /\ currentZoom st' = minZoom
  /\ text st' zoomLevelDisplay_textContent = "1.0x"
  /\ flag st' zoomOutBtn_disabled = true
  /\ flag st' zoomFitBtn_disabled = true
  /\ flag st' zoomInBtn_disabled = false
  /\ jobId st' = jobId st /\ beats st' = beats st /\ ws st' = ws st
  /\ zoom_calls (trace st') = zoom_calls (trace st).
Proof.
  cbv zeta.
  destruct (fileInput_change_cases f st) as [[_ (h & E)] | [_ E]]; cbv zeta in E; rewrite E;
    destruct st as [j' a' b' w wo wp pu ou z fl tx ht tr]; state_cbv;
    change (js_ge minZoom 10%float) with false; cbv iota; state_cbv;
    change (toFixed 1 minZoom) with "1.0"; change (js_le minZoom minZoom) with true;
    change (js_ge minZoom maxZoom) with false; flag_simpl;
    rewrite ?zoom_calls_app; cbn [zoom_calls]; rewrite ?app_nil_r;
    repeat split; reflexivity.
Qed.

(** An upload that fails (a network error, the timeout, a status outside
    2xx, or a 2xx response that is not JSON) leaves the job id, the beats,
    the waveform and the anchor of the page as they were and asks nothing
    more of the browser; it hides the progress bar and shows the error. *)
Theorem failed_upload_keeps_track (u : Upload) (e : event) (st : State) :
  result u = Pending ->
  e = XhrError u \/ e = XhrTimeout u
  \/ (exists status responseText,
        e = XhrLoad u status responseText
        /\ ((200 <=? status) && (status <? 300) = false \/ responseText = None)) ->
  let st' := step e st in
  jobId st' = jobId st /\ beats st' = beats st /\ ws st' = ws st
  /\ anchorTime st' = anchorTime st /\ trace st' = trace st
  /\ text st' uploadProgressContainer_display = "none"
  /\ html st' anchorInfo_innerHTML = [Text "Upload failed"]
  /\ exists m, html st' uploadProgress_innerHTML = error_span m.
Proof.
  intros P [-> | [-> | (status & responseText & -> & H)]]; cbv zeta; cbn [step];
    unfold resume_upload, xhr_error, xhr_timeout, xhr_load, settle; rewrite P.
  - cbn [fst snd result file handleFileUpload_resume].
    destruct st; state_cbv; flag_simpl. repeat split. eexists; reflexivity.
  - cbn [fst snd result file handleFileUpload_resume].
    destruct st; state_cbv; flag_simpl. repeat split. eexists; reflexivity.
  - destruct ((200 <=? status) && (status <? 300)) eqn:S.
    + destruct H as [H | ->]; [discriminate|].
      cbn [fst snd result file handleFileUpload_resume].
      destruct st; state_cbv; flag_simpl. repeat split. eexists; reflexivity.
    + destruct responseText as [v|]; [destruct (Get v "detail")|];
        cbn [fst snd result file handleFileUpload_resume];
        destruct st; state_cbv; flag_simpl; repeat split; eexists; reflexivity.
Qed.

Lemma failed_upload_keeps_track_witness :
  let u := {| file := sample_file; result := Pending; resolving := None |} in
  let st' := step (XhrLoad u 413 (Some (JObj [("detail", JStr "File too large")]))) sample_page in
  jobId st' = jobId sample_page /\ beats st' = beats sample_page /\ ws st' = ws sample_page
  /\ anchorTime st' = anchorTime sample_page /\ trace st' = trace sample_page
  /\ text st' uploadProgressContainer_display = "none"
  /\ html st' anchorInfo_innerHTML = [Text "Upload failed"]
  /\ exists m, html st' uploadProgress_innerHTML = error_span m.
Proof.
  apply (failed_upload_keeps_track
           {| file := sample_file; result := Pending; resolving := None |}).
  - reflexivity.
  - right; right. eexists _, _. split; [reflexivity | left; reflexivity].
Defined.



(** * The life of the waveforms *)

Lemma holds_audio_app (c : string) (tr1 tr2 : list effect) : forall live,
  holds_audio c live (tr1 ++ tr2) = holds_audio c (holds_audio c live tr1) tr2.
Proof.
  induction tr1 as [|e tr1 IH]; intros live; [reflexivity|].
  destruct e; cbn [holds_audio app]; apply IH.
Qed.

Lemma loads_in_turn_app (c : string) (tr1 tr2 : list effect) : forall live,
  loads_in_turn c live (tr1 ++ tr2)
  = loads_in_turn c live tr1 && loads_in_turn c (holds_audio c live tr1) tr2.
Proof.
  induction tr1 as [|e tr1 IH]; intros live; [reflexivity|].
  destruct e; cbn [loads_in_turn holds_audio app]; try apply IH.
  match goal with |- context [String.eqb ?x c] => destruct (String.eqb x c) end;
    [rewrite IH, andb_assoc; reflexivity | apply IH].
Qed.

Lemma wave_free (c : string) (new : list effect) : forall live,
  forallb (fun e => negb (touches_wave e)) new = true ->
  loads_in_turn c live new = true /\ holds_audio c live new = live.
Proof.
  induction new as [|e new IH]; intros live H; [split; reflexivity|].
  cbn [forallb] in H. apply andb_prop in H as [H1 H2].
  destruct e; try discriminate; cbn [loads_in_turn holds_audio]; apply IH; exact H2.
Qed.

(** A handler that leaves the three handles alone and asks nothing of a
    waveform keeps the waveforms in order. *)
Lemma waves_kept (st st' : State) (new : list effect) :
  ws st' = ws st -> wsOriginal st' = wsOriginal st -> wsProcessed st' = wsProcessed st ->
  trace st' = (trace st ++ new)%list ->
  forallb (fun e => negb (touches_wave e)) new = true ->
  waves_in_order st -> waves_in_order st'.
Proof.
  intros E1 E2 E3 T F (H1 & H2 & H3 & H4).
  unfold waves_in_order, handle_of. rewrite E1, E2, E3, T.
  split; [exact H1|]. split; [exact H2|]. split; [exact H3|].
  intros c. destruct (H4 c) as [L A].
  rewrite loads_in_turn_app, holds_audio_app, L.
  destruct (wave_free c new (holds_audio c false (trace st)) F) as [L' A'].
  rewrite L', A'. split; [reflexivity | exact A].
Qed.

(** initWave destroys the waveform there is before it loads the new one. *)
Lemma waves_initWave (u : url) (name : string) (st : State) :
  waves_in_order st -> waves_in_order (initWave u name st).
Proof.
  intros (H1 & H2 & H3 & H4).
  pose proof (initWave_trace u name st) as T.
  assert (F : ws (initWave u name st) = Some (wave_load u (create_wave "#wave" name))
              /\ wsOriginal (initWave u name st) = wsOriginal st
              /\ wsProcessed (initWave u name st) = wsProcessed st)
    by (unfold initWave, destroy; destruct (ws st); repeat split; reflexivity).
  destruct F as (F1 & F2 & F3).
  unfold waves_in_order, handle_of. rewrite F1, F2, F3, T.
  split; [intros w E; injection E as <-; reflexivity|].
  split; [exact H2|]. split; [exact H3|].
  intros c. destruct (H4 c) as [L A]. unfold handle_of in A.
  rewrite loads_in_turn_app, holds_audio_app, L. cbn [andb].
  destruct (String.eqb_spec c "#wave") as [->|N].
  - destruct (ws st) as [w|] eqn:W; cbn [wave_destroyed app loads_in_turn holds_audio].
    + rewrite (H1 w eq_refl). cbn. split; [reflexivity | discriminate].
    + cbn. destruct (holds_audio "#wave" false (trace st)); [|split; [reflexivity | discriminate]].
      exfalso. apply A; reflexivity.
  - assert (N' : String.eqb "#wave" c = false) by (apply String.eqb_neq; congruence).
    destruct (ws st) as [w|] eqn:W; cbn [wave_destroyed app loads_in_turn holds_audio].
    + rewrite (H1 w eq_refl), N'. split; [reflexivity | exact A].
    + rewrite N'. split; [reflexivity | exact A].
Qed.

Lemma initComparisonWaveforms_handles (st : State) :
  ws (initComparisonWaveforms st) = ws st
  /\ exists wo wp,
       wsOriginal (initComparisonWaveforms st) = Some wo /\ container wo = "#waveOriginal"
       /\ wsProcessed (initComparisonWaveforms st) = Some wp /\ container wp = "#waveProcessed".
Proof.
  destruct st as [j a b w wo wp pu ou z fl tx ht tr].
  destruct wo, wp, ou as [uo|], pu as [up|]; state_cbv;
    try destruct (url_truthy (Some uo)); try destruct (url_truthy (Some up));
    (split; [reflexivity | eexists _, _; repeat split]).
Qed.

(** initComparisonWaveforms destroys the two comparison waveforms there
    are before it loads the new ones. *)
Lemma waves_initComparisonWaveforms (st : State) :
  waves_in_order st -> waves_in_order (initComparisonWaveforms st).
Proof.
  intros (H1 & H2 & H3 & H4).
  pose proof (initComparisonWaveforms_trace st) as T.
  destruct (initComparisonWaveforms_handles st) as (F1 & wo' & wp' & F2 & C2 & F3 & C3).
  unfold waves_in_order, handle_of. rewrite F1, F2, F3, T.
  split; [exact H1|].
  split; [intros w E; injection E as <-; exact C2|].
  split; [intros w E; injection E as <-; exact C3|].
  intros c. destruct (H4 c) as [L A]. unfold handle_of in A.
  rewrite !loads_in_turn_app, !holds_audio_app, L. cbn [andb].
  assert (Do : wave_destroyed (wsOriginal st)
               = match wsOriginal st with Some _ => [WaveDestroy "#waveOriginal"] | None => [] end)
    by (destruct (wsOriginal st) as [w|] eqn:W; [cbn; rewrite (H2 w eq_refl)|]; reflexivity).
  assert (Dp : wave_destroyed (wsProcessed st)
               = match wsProcessed st with Some _ => [WaveDestroy "#waveProcessed"] | None => [] end)
    by (destruct (wsProcessed st) as [w|] eqn:W; [cbn; rewrite (H3 w eq_refl)|]; reflexivity).
  rewrite Do, Dp. clear Do Dp.
  set (live := holds_audio c false (trace st)) in *.
  destruct (String.eqb_spec c "#wave") as [->|N1].
  - destruct (wsOriginal st), (wsProcessed st), (originalAudioUrl st) as [uo|],
             (processedAudioUrl st) as [up|];
      cbn [wave_loaded]; try destruct (url_truthy (Some uo));
      try destruct (url_truthy (Some up));
      cbn; (split; [reflexivity | exact A]).
  - destruct (String.eqb_spec c "#waveOriginal") as [->|N2].
    + destruct (wsOriginal st) as [w|] eqn:W.
      * destruct (wsProcessed st), (originalAudioUrl st) as [uo|],
                 (processedAudioUrl st) as [up|];
          cbn [wave_loaded]; try destruct (url_truthy (Some uo));
          try destruct (url_truthy (Some up));
          cbn; (split; [reflexivity | discriminate]).
      * assert (Lv : live = false)
          by (destruct live; [exfalso; apply A; reflexivity | reflexivity]).
        rewrite Lv.
        destruct (wsProcessed st), (originalAudioUrl st) as [uo|],
                 (processedAudioUrl st) as [up|];
          cbn [wave_loaded]; try destruct (url_truthy (Some uo));
          try destruct (url_truthy (Some up));
          cbn; (split; [reflexivity | discriminate]).
    + destruct (String.eqb_spec c "#waveProcessed") as [->|N3].
      * destruct (wsProcessed st) as [w|] eqn:W.
        -- destruct (wsOriginal st), (originalAudioUrl st) as [uo|],
                    (processedAudioUrl st) as [up|];
             cbn [wave_loaded]; try destruct (url_truthy (Some uo));
             try destruct (url_truthy (Some up));
             cbn; (split; [reflexivity | discriminate]).
        -- assert (Lv : live = false)
             by (destruct live; [exfalso; apply A; reflexivity | reflexivity]).
           rewrite Lv.
           destruct (wsOriginal st), (originalAudioUrl st) as [uo|],
                    (processedAudioUrl st) as [up|];
             cbn [wave_loaded]; try destruct (url_truthy (Some uo));
             try destruct (url_truthy (Some up));
             cbn; (split; [reflexivity | discriminate]).
      * assert (E2 : String.eqb "#waveOriginal" c = false) by (apply String.eqb_neq; congruence).
        assert (E3 : String.eqb "#waveProcessed" c = false) by (apply String.eqb_neq; congruence).
        destruct (wsOriginal st), (wsProcessed st), (originalAudioUrl st) as [uo|],
                 (processedAudioUrl st) as [up|];
          cbn [wave_loaded]; try destruct (url_truthy (Some uo));
          try destruct (url_truthy (Some up));
          cbn [app loads_in_turn holds_audio andb]; rewrite ?E2, ?E3;
          cbn [app loads_in_turn holds_audio andb];
          (split; [reflexivity | intros K; exfalso; exact (A K eq_refl)]).
Qed.

Ltac keep_waves :=
  match goal with
  | H : waves_in_order ?s |- waves_in_order _ =>
      eapply (waves_kept s);
      [reflexivity | reflexivity | reflexivity
       | first [reflexivity | symmetry; apply app_nil_r] | reflexivity | exact H]
  end.

Lemma zoom_waves (op : zoom_op) (st : State) :
  waves_in_order st -> waves_in_order (apply_zoom op st).
Proof.
  intros H. destruct st as [j a b w wo wp pu ou z fl tx ht tr].
  destruct op; cbn [apply_zoom]; destruct w; state_cbv; try exact H.
  - destruct (js_ge z maxZoom); [exact H|].
    match goal with |- context [js_ge ?x 10%float] => destruct (js_ge x 10%float) end;
      state_cbv; keep_waves.
  - destruct (js_le z minZoom); [exact H|].
    match goal with |- context [js_ge ?x 10%float] => destruct (js_ge x 10%float) end;
      state_cbv; keep_waves.
  - destruct (js_ge minZoom 10%float); state_cbv; keep_waves.
Qed.

(** Every event keeps the waveforms in order. *)
Lemma step_waves (e : event) (st : State) :
  waves_in_order st -> waves_in_order (step e st).
Proof.
  intros H. pose proof (upload_event_shapes e st) as U.
  destruct e;
    try (destruct U as (st0 & H0 & [E | [(? & E) | [(? & ? & ? & ? & E) | (? & ? & ? & ? & ? & ? & E)]]]);
         rewrite E; clear E;
         assert (H' : waves_in_order st0)
           by (destruct H0 as [-> | [-> | (? & ->)]];
               destruct st as [j' a' b' w wo wp pu ou z fl tx ht tr]; state_cbv;
               first [exact H | keep_waves]);
         clear H H0;
         first [exact H'
               | destruct st0 as [j' a' b' w wo wp pu ou z fl tx ht tr]; state_cbv; keep_waves
               | match goal with
                 | |- waves_in_order (set_text _ _ (set_text _ _ (set_text _ _ (initWave ?u ?n ?s)))) =>
                     assert (H2 : waves_in_order s)
                       by (destruct st0 as [j' a' b' w wo wp pu ou z fl tx ht tr];
                           state_cbv; keep_waves);
                     apply (waves_initWave u n) in H2; clear H';
                     destruct (initWave u n s); state_cbv; keep_waves
                 end]);
    clear U; cbn [step].
  - destruct st; state_cbv; keep_waves.
  - destruct selected as [f|]; [|exact H].
    destruct (fileInput_change_cases f st) as [[_ (h & E)] | [A E]]; cbv zeta in E; rewrite E;
      destruct st as [j' a' b' w wo wp pu ou z fl tx ht tr]; state_cbv;
      destruct (js_ge minZoom 10%float); state_cbv; keep_waves.
  - destruct st; destruct lengthComputable; state_cbv; [keep_waves | exact H].
  - apply waves_initComparisonWaveforms, H.
  - destruct st as [j' a' b' w wo wp pu ou z fl tx ht tr]; destruct w; state_cbv;
      [destruct (js_ge minZoom 10%float); state_cbv; keep_waves | exact H].
  - destruct st as [j' a' b' w wo wp pu ou z fl tx ht tr]; destruct w; state_cbv;
      [keep_waves | exact H].
  - destruct st as [j' a' b' w wo wp pu ou z fl tx ht tr]; destruct w; state_cbv;
      [keep_waves | exact H].
  - destruct st as [j' a' b' w wo wp pu ou z fl tx ht tr]; destruct w; state_cbv;
      [keep_waves | exact H].
  - destruct st as [j' a' b' w wo wp pu ou z fl tx ht tr]; destruct w; state_cbv;
      [keep_waves | exact H].
  - destruct st as [j' a' b' w wo wp pu ou z fl tx ht tr]; destruct w; state_cbv;
      [keep_waves | exact H].
  - destruct st as [j' a' b' w wo wp pu ou z fl tx ht tr]; destruct wp; state_cbv;
      [keep_waves | exact H].
  - destruct st as [j' a' b' w wo wp pu ou z fl tx ht tr]; destruct w; state_cbv;
      [keep_waves | exact H].
  - apply (zoom_waves ZoomIn), H.
  - apply (zoom_waves ZoomOut), H.
  - apply (zoom_waves ZoomToFit), H.
  - destruct st as [j' a' b' w wo wp pu ou z fl tx ht tr]; state_cbv.
    destruct (negb (ToBoolean j')); [exact H|]. destruct a'; [keep_waves | exact H].
  - destruct st as [j' a' b' w wo wp pu ou z fl tx ht tr]; state_cbv.
    destruct r as [|status json]; [keep_waves|].
    destruct (res_ok status); [keep_waves|].
    destruct json as [err|]; [destruct (Get err "detail")|]; keep_waves.
  - destruct st as [j' a' b' w wo wp pu ou z fl tx ht tr]; destruct wp; state_cbv;
      [destruct isPlaying; keep_waves | exact H].
  - unfold document_keydown.
    destruct (String.eqb targetTagName "INPUT"); [exact H|].
    destruct (String.eqb key "+" || String.eqb key "="); [apply (zoom_waves ZoomIn), H|].
    destruct (String.eqb key "-"); [apply (zoom_waves ZoomOut), H|].
    destruct (String.eqb key "0"); [apply (zoom_waves ZoomToFit), H|].
    destruct (String.eqb key " "); [|exact H].
    destruct st as [j' a' b' w wo wp pu ou z fl tx ht tr]; destruct w; state_cbv;
      [keep_waves | exact H].
  - unfold wave_wheel. destruct (ws st); [|exact H].
    destruct (negb ctrlKey); [exact H|].
    destruct (js_lt deltaY 0%float); [apply (zoom_waves ZoomIn), H | apply (zoom_waves ZoomOut), H].
Qed.

Lemma run_waves (es : list event) : forall st, waves_in_order st -> waves_in_order (run es st).
Proof.
  induction es as [|e es IH]; intros st H; cbn [run]; [exact H|].
  apply IH, step_waves, H.
Qed.

Lemma blank_page_in_order : waves_in_order blank_page.
Proof.
  repeat split; discriminate.
Qed.

(** Over every run of the page that starts with the waveforms in order (as
    they are on a page without waveforms), no container has audio loaded
    into it while the waveform loaded there before is still alive: initWave
    and initComparisonWaveforms destroy what they replace. *)
Theorem waveforms_replaced_in_turn (es : list event) (st : State) (c : string) :
  waves_in_order st -> loads_in_turn c false (trace (run es st)) = true.
Proof.
  intros H. destruct (run_waves es st H) as (_ & _ & _ & K). apply (K c).
Qed.

Lemma waveforms_replaced_in_turn_witness :
  let es := [FileChange (Some sample_file);
             TimerResolveUpload {| file := sample_file; result := Pending; resolving := None |}
               sample_response;
             WsReady 60%float; WsSeek 10%float; ProcessClick;
             ProcessSettled (Response 200 None); TimerInitComparison;
             WsSeek 12%float; ProcessClick; ProcessSettled (Response 200 None);
             TimerInitComparison] in
  loads_in_turn "#waveProcessed" false (trace (run es blank_page)) = true.
Proof. apply waveforms_replaced_in_turn. repeat split; discriminate. Defined.

(** Processing twice: the second pair of comparison waveforms is loaded
    after the first pair was destroyed. *)
Example process_twice :
  let es := [FileChange (Some sample_file);
             TimerResolveUpload {| file := sample_file; result := Pending; resolving := None |}
               sample_response;
             WsReady 60%float; WsSeek 10%float; ProcessClick;
             ProcessSettled (Response 200 None); TimerInitComparison;
             WsSeek 12%float; ProcessClick; ProcessSettled (Response 200 None);
             TimerInitComparison] in
  filter touches_wave (trace (run es blank_page))
  = [WaveLoad "#wave" (ObjectURL sample_file);
     WaveLoad "#waveOriginal" (ObjectURL sample_file);
     WaveLoad "#waveProcessed" (Path "/api/download/7f3a?format=wav&preview=true");
     WaveDestroy "#waveOriginal"; WaveDestroy "#waveProcessed";
     WaveLoad "#waveOriginal" (ObjectURL sample_file);
     WaveLoad "#waveProcessed" (Path "/api/download/7f3a?format=wav&preview=true")].
Proof. vm_compute. reflexivity. Qed.

(** * The seconds field of formatTime *)

Lemma zero_pad_app (w : nat) (a r : string) :
  zero_pad (w + String.length r) (a ++ r) = zero_pad w a ++ r.
Proof.
  unfold zero_pad. rewrite length_append.
  replace (w + String.length r - (String.length a + String.length r))%nat
    with (w - String.length a)%nat by lia.
  symmetry. apply append_assoc.
Qed.

(** [v mod 60] lies in [0, 60). *)
Lemma Qmod_60_bounds (v : Q) : (0 <= Qmod v 60 /\ Qmod v 60 < 60)%Q.
Proof.
  unfold Qmod. set (q := (v / 60)%Q).
  assert (E : (v == 60 * q)%Q) by (subst q; field).
  pose proof (Qfloor_le q) as L. pose proof (Qlt_floor q) as U.
  rewrite inject_Z_plus in U. change (inject_Z 1) with 1%Q in U.
  rewrite E. split; lra.
Qed.

Lemma nearest_thousandths_bounds (v : Q) : 0 <= nearest (1000 * Qmod v 60) <= 60000.
Proof.
  destruct (Qmod_60_bounds v) as [L U]. unfold nearest. split.
  - change 0 with (Qfloor 0). apply Qfloor_resp_le. lra.
  - assert (K : Qfloor (1000 * Qmod v 60 + (1 # 2)) < 60001); [|lia].
    rewrite Zlt_Qlt. pose proof (Qfloor_le (1000 * Qmod v 60 + (1 # 2))) as K.
    change (inject_Z 60001) with 60001%Q. lra.
Qed.

(** Six characters: two digits, the point, three digits. *)
Lemma seconds_six_characters (n : Z) : 0 <= n <= 60000 ->
  zero_pad 6 (decimal_fixed n 3) = frac_digits 2 (n / 1000) ++ "." ++ frac_digits 3 (n mod 1000).
Proof.
  intros H. unfold decimal_fixed. change (10 ^ Z.of_nat 3) with 1000.
  assert (K : 0 <= n / 1000 < 10 ^ Z.of_nat 2).
  { change (10 ^ Z.of_nat 2) with 100.
    split; [apply Z.div_pos; lia | apply Z.div_lt_upper_bound; lia]. }
  rewrite <- (zero_pad_digits 1 (n / 1000) K).
  set (r := "." ++ frac_digits 3 (n mod 1000)).
  assert (L : String.length r = 4%nat)
    by (subst r; cbn [String.length append]; rewrite length_frac_digits; reflexivity).
  replace 6%nat with (2 + String.length r)%nat by (rewrite L; reflexivity).
  apply zero_pad_app.
Qed.

(** For a finite number of seconds [s >= 0] the seconds field of
    formatTime(s) is made of two digits, a point and three digits, and reads
    [n] thousandths with [n] between 0 and 60000, the number of thousandths
    nearest to [v mod 60].  Nothing is carried into the minutes: within half
    a millisecond below a full minute the field reads 60.000. *)
Theorem formatTime_seconds_field (s : number) :
  is_finite s = true -> js_le 0%float s = true ->
  exists (v : Q) (n : Z),
    number_value s = Some v
    /\ n = nearest (1000 * Qmod v 60) /\ 0 <= n <= 60000
    /\ formatTime s
       = zero_pad 2 (Number_toString (Math_floor (s / 60)%float)) ++ ":"
         ++ frac_digits 2 (n / 1000) ++ "." ++ frac_digits 3 (n mod 1000).
Proof.
  intros F P. unfold formatTime, number_value. rewrite !padStart_zero.
  destruct (Prim2SF s) as [sg | sg | | sg m e] eqn:E.
  - exists 0%Q, 0. split; [reflexivity|]. split; [reflexivity|]. split; [lia|].
    do 2 f_equal. unfold js_rem. rewrite E, Prim2SF_60. unfold toFixed. rewrite E. reflexivity.
  - rewrite (not_finite_infinity s sg E) in F. discriminate.
  - rewrite (not_finite_nan s E) in F. discriminate.
  - destruct sg.
    + unfold js_le in P. rewrite leb_spec, E in P. discriminate.
    + exists (exact_value m e), (nearest (1000 * Qmod (exact_value m e) 60)).
      split; [reflexivity|]. split; [reflexivity|].
      split; [apply nearest_thousandths_bounds|].
      do 2 f_equal. rewrite (seconds_field s m e E).
      apply seconds_six_characters, nearest_thousandths_bounds.
Qed.

Lemma formatTime_seconds_field_witness :
  exists (v : Q) (n : Z),
    number_value 59.99951171875%float = Some v
    /\ n = nearest (1000 * Qmod v 60) /\ 0 <= n <= 60000
    /\ formatTime 59.99951171875%float
       = zero_pad 2 (Number_toString (Math_floor (59.99951171875 / 60)%float)) ++ ":"
         ++ frac_digits 2 (n / 1000) ++ "." ++ frac_digits 3 (n mod 1000).
Proof. apply formatTime_seconds_field; reflexivity. Defined.

(** Half a millisecond below one minute, and one minute. *)
Example formatTime_no_carry :
  formatTime 59.99951171875%float = "00:60.000" /\ formatTime 60%float = "01:00.000".
Proof. vm_compute. split; reflexivity. Qed.

(** * Numerals read back *)

Example comparison_stats_sample :
  updateComparisonStats 60%float 55.5%float (analysis_textContent "120.50" "3")
    (set_wsProcessed (Some (create_wave "#waveProcessed" EmptyString)) sample_page)
  = Some
      [stat_item "Original Duration:" "stat-value" "01:00.000";
       stat_item "Processed Duration:" "stat-value" "00:55.500";
       stat_item "Time Difference:" "stat-value text-success" "-4.500s";
       stat_item "BPM Change:" "stat-value text-success" "120.5 → 120.5";
       stat_item "Length Change:" "stat-value text-success" "-7.5%";
       stat_item "Anchor Point:" "stat-value" "00:10.000"].
Proof. vm_compute. reflexivity. Qed.

Lemma digit_char_digit (d : Z) : 0 <= d < 10 ->
  is_digit (digit_char d) = true /\ digit_val (digit_char d) = d.
Proof.
  intros H.
  assert (C : d = 0 \/ d = 1 \/ d = 2 \/ d = 3 \/ d = 4 \/ d = 5 \/ d = 6 \/ d = 7 \/ d = 8
              \/ d = 9) by lia.
  repeat (destruct C as [-> | C]; [split; reflexivity|]). subst d. split; reflexivity.
Qed.

Lemma all_digits_app (a b : string) : all_digits (a ++ b) = all_digits a && all_digits b.
Proof.
  induction a as [|c a IH]; [reflexivity|]. cbn. rewrite IH. apply andb_assoc.
Qed.

Lemma numeral_value_app (a b : string) : forall acc,
  numeral_value acc (a ++ b) = numeral_value (numeral_value acc a) b.
Proof. induction a as [|c a IH]; intros acc; [reflexivity | apply IH]. Qed.

(** The digits of [n] are digits, and read back as [n]. *)
Lemma digits_read_back (n : Z) : 0 <= n ->
  all_digits (digits n) = true
  /\ forall acc, numeral_value acc (digits n)
                 = acc * 10 ^ Z.of_nat (String.length (digits n)) + n.
Proof.
  induction n as [n IH] using (well_founded_induction (Z.lt_wf 0)). intros H.
  destruct (Z_lt_le_dec n 10) as [L|L].
  - rewrite digits_small by lia. destruct (digit_char_digit n ltac:(lia)) as [D V].
    cbn [all_digits numeral_value String.length]. rewrite D, V.
    split; [reflexivity | intros acc; change (10 ^ Z.of_nat 1) with 10; lia].
  - rewrite digits_step by lia.
    assert (Q : 0 <= n / 10 < n) by (split; [apply Z.div_pos; lia | apply Z.div_lt; lia]).
    destruct (IH (n / 10) ltac:(lia) ltac:(lia)) as [A V].
    destruct (digit_char_digit (n mod 10) ltac:(apply Z.mod_pos_bound; lia)) as [D W].
    rewrite all_digits_app, A. cbn [all_digits]. rewrite D.
    split; [reflexivity|]. intros acc.
    rewrite numeral_value_app, V, length_append. cbn [numeral_value String.length]. rewrite W.
    rewrite Nat2Z.inj_add, Z.pow_add_r by lia. change (10 ^ Z.of_nat 1) with 10.
    pose proof (Z.div_mod n 10 ltac:(lia)). lia.
Qed.

(** So are the last [f] digits of [r]. *)
Lemma frac_digits_read_back (f : nat) : forall r, 0 <= r ->
  all_digits (frac_digits f r) = true
  /\ forall acc, numeral_value acc (frac_digits f r) = acc * 10 ^ Z.of_nat f + r mod 10 ^ Z.of_nat f.
Proof.
  induction f as [|f IH]; intros r H.
  - split; [reflexivity|]. intros acc. cbn [frac_digits numeral_value Z.of_nat].
    rewrite Z.pow_0_r, Z.mod_1_r. lia.
  - cbn [frac_digits].
    destruct (IH (r / 10) ltac:(apply Z.div_pos; lia)) as [A V].
    destruct (digit_char_digit (r mod 10) ltac:(apply Z.mod_pos_bound; lia)) as [D W].
    rewrite all_digits_app, A. cbn [all_digits]. rewrite D.
    split; [reflexivity|]. intros acc.
    rewrite numeral_value_app, V. cbn [numeral_value]. rewrite W.
    rewrite Nat2Z.inj_succ, Z.pow_succ_r by lia.
    assert (P : 0 < 10 ^ Z.of_nat f) by (apply Z.pow_pos_nonneg; lia).
    rewrite (Z.rem_mul_r r 10 (10 ^ Z.of_nat f)) by lia. lia.
Qed.

Lemma span_digits_numeral (a rest : string) :
  all_digits a = true -> starts_with_digit rest = false -> span_digits (a ++ rest) = (a, rest).
Proof.
  intros A R. induction a as [|c a IH].
  - destruct rest as [|c r]; [reflexivity|]. cbn in R |- *. rewrite R. reflexivity.
  - cbn in A |- *. apply andb_prop in A as [A1 A2]. rewrite A1, (IH A2). reflexivity.
Qed.

Lemma read_digits_numeral (a rest : string) :
  all_digits a = true -> starts_with_digit rest = false ->
  forall acc len,
    read_digits (a ++ rest) acc len = (numeral_value acc a, (len + String.length a)%nat, rest).
Proof.
  intros A R. induction a as [|c a IH]; intros acc len.
  - cbn [append numeral_value String.length]. rewrite Nat.add_0_r.
    destruct rest as [|c r]; [reflexivity|]. cbn in R |- *. rewrite R. reflexivity.
  - cbn in A |- *. apply andb_prop in A as [A1 A2]. rewrite A1, (IH A2).
    f_equal. f_equal. lia.
Qed.

(** What match_number finds in a text that holds a numeral with a point
    after characters that are no digits. *)
Lemma match_number_numeral (pre ip fp post : string) :
  forallb (fun c => negb (is_digit c)) (list_ascii_of_string pre) = true ->
  all_digits ip = true -> ip <> EmptyString -> all_digits fp = true ->
  starts_with_digit post = false ->
  match_number (pre ++ ip ++ "." ++ fp ++ post) = Some (ip ++ "." ++ fp).
Proof.
  intros P A N F R. induction pre as [|c pre IH].
  - cbn [append]. destruct ip as [|c ip]; [contradiction|].
    cbn [all_digits] in A. apply andb_prop in A as [A1 A2].
    cbn [append match_number]. rewrite A1.
    change (String c (ip ++ String "." (fp ++ post)))
      with (String c ip ++ String "." (fp ++ post)).
    rewrite (span_digits_numeral (String c ip) (String "." (fp ++ post)));
      [|cbn [all_digits]; rewrite A1, A2; reflexivity | reflexivity].
    rewrite (span_digits_numeral fp post F R). reflexivity.
  - cbn [list_ascii_of_string forallb] in P. apply andb_prop in P as [P1 P2].
    cbn [append match_number]. destruct (is_digit c); [discriminate|]. apply IH, P2.
Qed.

Lemma toFixed_finite (f : nat) (x : float) (s : bool) (m : positive) (e : Z) :
  Prim2SF x = S754_finite s m e -> js_ge (abs x) 1e21%float = false ->
  toFixed (S f) x
  = (if s then "-" else EmptyString) ++ decimal_fixed (round_scaled m e (S f)) (S f).
Proof.
  intros E A. unfold toFixed. rewrite E, A. f_equal.
  apply fixed_digits_decimal, round_scaled_nonneg.
Qed.

(** A numeral starts with a digit, so nothing is trimmed from it, it has no
    sign and it does not spell Infinity. *)
Lemma digits_head (n : Z) : 0 <= n ->
  exists d r, 0 <= d < 10 /\ digits n = String (digit_char d) r.
Proof.
  induction n as [n IH] using (well_founded_induction (Z.lt_wf 0)). intros H.
  destruct (Z_lt_le_dec n 10) as [L|L].
  - exists n, EmptyString. split; [lia | apply digits_small; lia].
  - rewrite digits_step by lia.
    destruct (IH (n / 10)) as (d & r & D & E);
      [split; [apply Z.div_pos; lia | apply Z.div_lt; lia] | apply Z.div_pos; lia |].
    rewrite E. exists d. eexists. split; [exact D | reflexivity].
Qed.

Lemma parse_prefix_of_numeral (d : Z) (r : string) : 0 <= d < 10 ->
  trim_start (String (digit_char d) r) = String (digit_char d) r
  /\ read_sign (String (digit_char d) r) = (false, String (digit_char d) r)
  /\ String.prefix "Infinity" (String (digit_char d) r) = false.
Proof.
  intros H.
  assert (C : d = 0 \/ d = 1 \/ d = 2 \/ d = 3 \/ d = 4 \/ d = 5 \/ d = 6 \/ d = 7 \/ d = 8
              \/ d = 9) by lia.
  repeat (destruct C as [-> | C]; [repeat split|]). subst d. repeat split.
Qed.

(** parseFloat reads a numeral with [f] decimals, with or without a minus
    sign, as the float nearest to its value. *)
Lemma parseFloat_decimal_fixed (neg : bool) (K : Z) (f : nat) : 0 <= K ->
  parseFloat ((if neg then "-" else EmptyString) ++ decimal_fixed K f)
  = signed_decimal neg K (- Z.of_nat f).
Proof.
  intros H. unfold decimal_fixed.
  assert (P : 0 < 10 ^ Z.of_nat f) by (apply Z.pow_pos_nonneg; lia).
  assert (Q : 0 <= K / 10 ^ Z.of_nat f) by (apply Z.div_pos; lia).
  set (ip := digits (K / 10 ^ Z.of_nat f)).
  set (fp := frac_digits f (K mod 10 ^ Z.of_nat f)).
  destruct (digits_read_back _ Q) as [A V]. fold ip in A, V.
  destruct (frac_digits_read_back f (K mod 10 ^ Z.of_nat f)
              ltac:(apply Z.mod_pos_bound; lia)) as [B W]. fold fp in B, W.
  destruct (digits_head _ Q) as (d & r & D & E). fold ip in E.
  pose proof (fun R => parse_prefix_of_numeral d R D) as T.
  assert (S1 : read_sign (trim_start ((if neg then "-" else EmptyString) ++ ip ++ "." ++ fp))
               = (neg, ip ++ "." ++ fp)).
  { destruct neg.
    - reflexivity.
    - rewrite E. cbn [append].
      rewrite (proj1 (T _)), (proj1 (proj2 (T _))). reflexivity. }
  unfold parseFloat. rewrite S1.
  replace (String.prefix "Infinity" (ip ++ "." ++ fp)) with false
    by (rewrite E; symmetry; apply T).
  rewrite (read_digits_numeral ip ("." ++ fp) A eq_refl 0 0).
  cbn [append].
  rewrite <- (append_nil_r fp) at 1.
  rewrite (read_digits_numeral fp EmptyString B eq_refl).
  cbn [read_exponent Nat.add].
  assert (L : String.length fp = f) by apply length_frac_digits.
  assert (Lp : (1 <= String.length ip)%nat) by (apply length_digits_pos; exact Q).
  rewrite L.
  replace (String.length ip + f - String.length ip)%nat with f by lia.
  destruct (Nat.eqb_spec (String.length ip + f) 0) as [Z0|_]; [lia|].
  rewrite W, V. rewrite Z.mod_mod by lia.
  replace (0 * 10 ^ Z.of_nat (String.length ip) + K / 10 ^ Z.of_nat f) with (K / 10 ^ Z.of_nat f)
    by lia.
  replace (K / 10 ^ Z.of_nat f * 10 ^ Z.of_nat f + K mod 10 ^ Z.of_nat f) with K
    by (pose proof (Z.div_mod K (10 ^ Z.of_nat f) ltac:(lia)); lia).
  reflexivity.
Qed.

Lemma lf_spaces_no_digit (n : nat) :
  forallb (fun c => negb (is_digit c)) (list_ascii_of_string (lf_spaces n)) = true.
Proof.
  unfold lf_spaces. cbn [list_ascii_of_string forallb].
  change (negb (is_digit (ascii_of_nat 10))) with true. cbn [andb].
  induction n as [|n IH]; [reflexivity|].
  change (repeat_char " "%char (S n)) with (String " "%char (repeat_char " "%char n)).
  cbn [list_ascii_of_string forallb]. rewrite IH. reflexivity.
Qed.

Lemma no_digit_app (a b : string) :
  forallb (fun c => negb (is_digit c)) (list_ascii_of_string (a ++ b))
  = forallb (fun c => negb (is_digit c)) (list_ascii_of_string a)
    && forallb (fun c => negb (is_digit c)) (list_ascii_of_string b).
Proof.
  induction a as [|c a IH]; [reflexivity|].
  cbn [append list_ascii_of_string forallb]. rewrite IH. apply andb_assoc.
Qed.

(** In the text of the analysis panel the pattern of line 169 finds the
    tempo as handleFileUpload printed it, without its sign. *)
Lemma match_number_analysis (neg : bool) (K : Z) (count : string) : 0 <= K ->
  match_number
    (analysis_textContent ((if neg then "-" else EmptyString) ++ decimal_fixed K 2) count)
  = Some (decimal_fixed K 2).
Proof.
  intros H. unfold analysis_textContent, decimal_fixed.
  assert (P : 0 < 10 ^ Z.of_nat 2) by (apply Z.pow_pos_nonneg; lia).
  assert (Q : 0 <= K / 10 ^ Z.of_nat 2) by (apply Z.div_pos; lia).
  set (ip := digits (K / 10 ^ Z.of_nat 2)).
  set (fp := frac_digits 2 (K mod 10 ^ Z.of_nat 2)).
  set (post := lf_spaces 10 ++ "BPM Detected" ++ lf_spaces 8 ++ lf_spaces 8 ++ lf_spaces 10
               ++ count ++ lf_spaces 10 ++ "Beat Points" ++ lf_spaces 8 ++ lf_spaces 6
               ++ lf_spaces 4).
  set (sg := if neg then "-" else EmptyString).
  replace (lf_spaces 6 ++ lf_spaces 8 ++ lf_spaces 10 ++ (sg ++ ip ++ "." ++ fp) ++ post)
    with ((lf_spaces 6 ++ lf_spaces 8 ++ lf_spaces 10 ++ sg) ++ ip ++ "." ++ fp ++ post)
    by (rewrite !append_assoc; reflexivity).
  apply match_number_numeral.
  - rewrite !no_digit_app, !lf_spaces_no_digit. subst sg. destruct neg; reflexivity.
  - apply digits_read_back, Q.
  - intros E. pose proof (length_digits_pos _ Q) as L. fold ip in L. rewrite E in L.
    cbn in L. lia.
  - apply frac_digits_read_back, Z.mod_pos_bound. lia.
  - reflexivity.
Qed.

Lemma finite_cases (x : float) : is_finite x = true ->
  (exists s, Prim2SF x = S754_zero s) \/ (exists s m e, Prim2SF x = S754_finite s m e).
Proof.
  intros F. destruct (Prim2SF x) as [s|s| |s m e] eqn:E.
  - left. eauto.
  - rewrite (not_finite_infinity x s E) in F. discriminate.
  - rewrite (not_finite_nan x E) in F. discriminate.
  - right. eauto.
Qed.

Lemma nearest_round_scaled (m : positive) (e : Z) :
  round_scaled m e 2 = nearest (100 * exact_value m e).
Proof. rewrite round_scaled_nearest. reflexivity. Qed.

(** The comparison statistics take as original tempo what the pattern of
    line 169 finds in the analysis panel: the tempo of the upload response
    as line 416 printed it, rounded to hundredths, without its sign, read
    back by parseFloat as the nearest float. *)
Theorem original_bpm_read_back (bpm : number) (count : string) :
  is_finite bpm = true -> js_ge (abs bpm) 1e21%float = false ->
  exists v, number_value (abs bpm) = Some v
            /\ originalBpm_of (analysis_textContent (toFixed 2 bpm) count)
               = signed_decimal false (nearest (100 * v)) (-2).
Proof.
  intros F A. unfold number_value. rewrite abs_spec.
  destruct (finite_cases bpm F) as [(s & E) | (s & m & e & E)]; rewrite E; cbn [SFabs].
  - exists 0%Q. split; [reflexivity|].
    assert (T : toFixed 2 bpm = EmptyString ++ decimal_fixed 0 2)
      by (unfold toFixed; rewrite E; reflexivity).
    rewrite T. unfold originalBpm_of.
    rewrite (match_number_analysis false 0 count) by lia.
    apply (parseFloat_decimal_fixed false 0 2). lia.
  - exists (exact_value m e). split; [reflexivity|].
    rewrite (toFixed_finite 1 bpm s m e E A). unfold originalBpm_of.
    rewrite (match_number_analysis s _ count) by apply round_scaled_nonneg.
    rewrite <- nearest_round_scaled.
    apply (parseFloat_decimal_fixed false _ 2), round_scaled_nonneg.
Qed.

Lemma original_bpm_read_back_witness :
  exists v, number_value (abs (-120.7490234375)%float) = Some v
            /\ originalBpm_of (analysis_textContent (toFixed 2 (-120.7490234375)%float) "3")
               = signed_decimal false (nearest (100 * v)) (-2).
Proof. apply original_bpm_read_back; reflexivity. Defined.

(** A tempo of -120.7490234375 is shown as -120.75 and read back as 120.75; a
    panel without a number gives 120. *)
Example original_bpm_samples :
  originalBpm_of (analysis_textContent (toFixed 2 (-120.7490234375)%float) "3") = 120.75%float
  /\ originalBpm_of (analysis_textContent (toFixed 2 87%float) "212") = 87%float
  /\ originalBpm_of EmptyString = 120%float
  /\ originalBpm_of (analysis_textContent (toFixed 2 1e21%float) "7") = 1%float.
Proof. vm_compute. repeat split; reflexivity. Qed.

(** * Rounding, with the value kept *)

(** Rounding an integer [M] of at least 53 bits at exponent [E] gives the
    top 53 bits of [M] or one more, at the exponent that the bit count of
    [M] gives; when that makes 2^53 it is written with the least mantissa
    one exponent up.  An exact integer of 53 bits is kept as it is. *)
Lemma binary_round_aux_value (s : bool) (M E : Z) (l : location) :
  2 ^ 52 <= M -> -1074 <= Zdigits2 M + E - 53 ->
  let m1 := M / 2 ^ (Zdigits2 M - 53) in
  let e1 := Zdigits2 M + E - 53 in
  exists m' e' d,
    binary_round_aux 53 1024 s M E l =
      (if e' <=? 971 then S754_finite s m' e' else S754_infinity s)
    /\ (d = 0 \/ d = 1)
    /\ 2 ^ 52 <= m1 < 2 ^ 53
    /\ ((e' = e1 /\ Zpos m' = m1 + d /\ m1 + d < 2 ^ 53)
        \/ (e' = e1 + 1 /\ Zpos m' = 2 ^ 52 /\ m1 + d = 2 ^ 53))
    /\ (Zdigits2 M = 53 -> l = loc_Exact -> d = 0).
Proof.
  intros HM He m1 e1.
  pose proof (Zdigits2_ge M 52 ltac:(lia) HM) as Hd.
  assert (H0 : 0 < M) by lia.
  pose proof (Zdigits2_bounds M H0) as [Blo Bhi].
  destruct (shr_fexp_normal M E l HM He) as (r & Hr & Hm).
  fold m1 in Hm. fold e1 in Hr.
  assert (Hm1 : 2 ^ 52 <= m1 < 2 ^ 53).
  { subst m1.
    assert (P : 0 < 2 ^ (Zdigits2 M - 53)) by (apply Z.pow_pos_nonneg; lia).
    assert (Q1 : 2 ^ (Zdigits2 M - 1) = 2 ^ 52 * 2 ^ (Zdigits2 M - 53))
      by (rewrite <- Z.pow_add_r by lia; f_equal; lia).
    assert (Q2 : 2 ^ Zdigits2 M = 2 ^ 53 * 2 ^ (Zdigits2 M - 53))
      by (rewrite <- Z.pow_add_r by lia; f_equal; lia).
    split.
    - apply Z.div_le_lower_bound; lia.
    - apply Z.div_lt_upper_bound; lia. }
  assert (Ex : Zdigits2 M = 53 -> l = loc_Exact ->
               round_nearest_even (shr_m r) (loc_of_shr_record r) = shr_m r).
  { intros D53 ->. revert Hr. unfold shr_fexp, fexp, emin.
    replace (Z.max (Zdigits2 M + E - 53) (3 - 1024 - 53) - E) with 0 by lia.
    cbn [shr]. intros Hr. injection Hr as <-. reflexivity. }
  unfold binary_round_aux. rewrite Hr. rewrite Hm in *.
  set (mr := round_nearest_even m1 (loc_of_shr_record r)) in *.
  assert (Hmr : mr = m1 \/ mr = m1 + 1) by apply round_nearest_even_cases.
  destruct (Z_lt_le_dec mr (2 ^ 53)) as [Hlt | Hge].
  - assert (D : Zdigits2 mr = 53) by (apply Zdigits2_unique; lia).
    unfold shr_fexp, fexp, emin. rewrite D.
    replace (Z.max (53 + e1 - 53) (3 - 1024 - 53) - e1) with 0 by lia.
    cbn [shr shr_record_of_loc shr_m].
    destruct mr as [|pm|pm] eqn:Emr; try lia.
    exists pm, e1, (Zpos pm - m1).
    split; [reflexivity|]. split; [lia|]. split; [exact Hm1|].
    split; [left; lia|]. intros D53 L. rewrite (Ex D53 L). lia.
  - assert (Emr : mr = 2 ^ 53) by lia. rewrite Emr.
    unfold shr_fexp, fexp, emin.
    replace (Zdigits2 (2 ^ 53)) with 54 by reflexivity.
    replace (Z.max (54 + e1 - 53) (3 - 1024 - 53) - e1) with 1 by lia.
    cbn [shr SpecFloat.iter_pos].
    exists (4503599627370496)%positive, (e1 + 1), 1.
    split; [reflexivity|]. split; [lia|]. split; [exact Hm1|].
    split; [right; split; [lia | split; [reflexivity | lia]]|].
    intros D53 L. pose proof (Ex D53 L). lia.
Qed.

Lemma Zdigits2_between (M lo hi : Z) :
  0 <= lo -> 2 ^ lo <= M -> M < 2 ^ hi -> lo < Zdigits2 M <= hi.
Proof.
  intros H0 Hlo Hhi.
  assert (HM : 0 < M) by (pose proof (Z.pow_pos_nonneg 2 lo); lia).
  pose proof (Zdigits2_bounds M HM) as [Blo Bhi].
  split; [apply Zdigits2_ge; assumption|].
  destruct (Z_lt_le_dec hi (Zdigits2 M)) as [Hbig|]; [exfalso | lia].
  assert (0 <= hi).
  { destruct (Z_lt_le_dec hi 0) as [N|]; [|lia].
    rewrite (Z.pow_neg_r 2 hi N) in Hhi. lia. }
  assert (2 ^ hi <= 2 ^ (Zdigits2 M - 1)) by (apply Z.pow_le_mono_r; lia). lia.
Qed.

(** Multiplying a float that is at least 1 by the zoom factor 1.5 or 2
    gives a larger float: rounding does not take the gain back. *)
Lemma mul_zoom_factor_increases (z f : float) (mz : positive) (ez : Z) :
  Prim2SF z = S754_finite false mz ez -> -52 <= ez ->
  f = 1.5%float \/ f = 2%float ->
  (z <? z * f)%float = true.
Proof.
  intros Ez Hez Hf.
  pose proof (Prim2SF_valid z) as Vz. rewrite Ez in Vz.
  pose proof (valid_normal _ _ _ Vz ltac:(lia)) as Bz.
  change (2 ^ 52) with 4503599627370496 in Bz. change (2 ^ 53) with 9007199254740992 in Bz.
  rewrite ltb_spec, mul_spec, Ez. unfold SF64mul.
  assert (K : exists mf ef, Prim2SF f = S754_finite false mf ef
              /\ ((mf = 6755399441055744%positive /\ ef = -52)
                  \/ (mf = 4503599627370496%positive /\ ef = -51))).
  { destruct Hf as [-> | ->]; eexists _, _; (split; [reflexivity|]); auto. }
  destruct K as (mf & ef & Ef & Hmf). rewrite Ef. cbn [SFmul xorb].
  set (M := Zpos (mz * mf)).
  assert (HM : M = Zpos mz * Zpos mf) by (subst M; apply Pos2Z.inj_mul).
  assert (B104 : 2 ^ 104 <= M < 2 ^ 106).
  { change (2 ^ 104) with 20282409603651670423947251286016.
    change (2 ^ 106) with 81129638414606681695789005144064.
    destruct Hmf as [[-> ->] | [-> ->]]; lia. }
  destruct (Zdigits2_between M 104 106 ltac:(lia) (proj1 B104) (proj2 B104)) as [D1 D2].
  destruct (binary_round_aux_value false M (ez + ef) loc_Exact)
    as (m' & e' & d & R & Hd & Hm1 & Hcase & _).
  { change (2 ^ 52) with 4503599627370496.
    change (2 ^ 104) with 20282409603651670423947251286016 in B104. lia. }
  { destruct Hmf as [[_ ->] | [_ ->]]; lia. }
  unfold prec, emax. rewrite R.
  destruct (e' <=? 971); [|reflexivity].
  apply SFltb_finite_pos.
  pose proof (Zdigits2_bounds M ltac:(lia)) as [Blo Bhi].
  assert (Dc : Zdigits2 M = 105 \/ Zdigits2 M = 106) by lia.
  destruct Dc as [D | D]; rewrite D in *.
  - change (2 ^ (105 - 53)) with 4503599627370496 in *.
    change (2 ^ 105) with 40564819207303340847894502572032 in Bhi.
    destruct Hmf as [[-> ->] | [-> ->]].
    + assert (Q : Zpos mz + 1 <= M / 4503599627370496)
        by (apply Z.div_le_lower_bound; lia).
      destruct Hcase as [(-> & Hm' & _) | (-> & _ & _)]; lia.
    + destruct Hcase as [(-> & _ & _) | (-> & _ & _)]; lia.
  - destruct Hmf as [[_ ->] | [_ ->]]; destruct Hcase as [(-> & _ & _) | (-> & _ & _)]; lia.
Qed.

(** Dividing a float in (1, 2^53) by the zoom factor 1.5 or 2 gives a
    smaller float. *)
Lemma div_zoom_factor_decreases (z f : float) (mz : positive) (ez : Z) :
  Prim2SF z = S754_finite false mz ez -> -52 <= ez <= 0 ->
  f = 1.5%float \/ f = 2%float ->
  (z / f <? z)%float = true.
Proof.
  intros Ez Hez Hf.
  pose proof (Prim2SF_valid z) as Vz. rewrite Ez in Vz.
  pose proof (valid_normal _ _ _ Vz ltac:(lia)) as Bz.
  change (2 ^ 52) with 4503599627370496 in Bz. change (2 ^ 53) with 9007199254740992 in Bz.
  rewrite ltb_spec, div_spec, Ez. unfold SF64div.
  assert (K : exists mf ef, Prim2SF f = S754_finite false mf ef
              /\ ((mf = 6755399441055744%positive /\ ef = -52)
                  \/ (mf = 4503599627370496%positive /\ ef = -51))).
  { destruct Hf as [-> | ->]; eexists _, _; (split; [reflexivity|]); auto. }
  destruct K as (mf & ef & Ef & Hmf). rewrite Ef.
  cbn [SFdiv xorb]. unfold SFdiv_core_binary.
  assert (Dz : Zdigits2 (Zpos mz) = 53)
    by (apply Zdigits2_unique; [lia|];
        change (2 ^ (53 - 1)) with 4503599627370496;
        change (2 ^ 53) with 9007199254740992; lia).
  assert (Df : Zdigits2 (Zpos mf) = 53)
    by (destruct Hmf as [[-> _] | [-> _]]; reflexivity).
  rewrite Dz, Df. unfold fexp, SpecFloat.emin, prec, emax.
  replace (Z.min (Z.max (53 + ez - (53 + ef) - 53) (3 - 1024 - 53)) (ez - ef))
    with (ez - ef - 53) by (destruct Hmf as [[_ ->] | [_ ->]]; lia).
  replace (ez - ef - (ez - ef - 53)) with 53 by lia.
  rewrite Z.shiftl_mul_pow2 by lia.
  change (2 ^ 53) with 9007199254740992.
  pose proof (Z_div_mod (Zpos mz * 9007199254740992) (Zpos mf) ltac:(lia)) as DM.
  destruct (Z.div_eucl (Zpos mz * 9007199254740992) (Zpos mf)) as [q r].
  destruct DM as [DM Hr].
  assert (Hq : 2 ^ 52 <= q < 2 ^ 55).
  { change (2 ^ 52) with 4503599627370496. change (2 ^ 55) with 36028797018963968.
    destruct Hmf as [[-> _] | [-> _]]; nia. }
  destruct (Zdigits2_between q 52 55 ltac:(lia) (proj1 Hq) (proj2 Hq)) as [D1 D2].
  destruct (binary_round_aux_value false q (ez - ef - 53) (new_location (Zpos mf) r))
    as (m' & e' & d & R & Hd & Hm1 & Hcase & _); [lia | destruct Hmf as [[_ ->] | [_ ->]]; lia |].
  rewrite R.
  assert (L : (e' <=? 971) = true)
    by (apply Z.leb_le; destruct Hmf as [[_ ->] | [_ ->]];
        destruct Hcase as [(-> & _) | (-> & _)]; lia).
  rewrite L. apply SFltb_finite_pos.
  pose proof (Zdigits2_bounds q ltac:(lia)) as [Blo Bhi].
  assert (Dc : Zdigits2 q = 53 \/ Zdigits2 q = 54 \/ Zdigits2 q = 55) by lia.
  change (2 ^ 53) with 9007199254740992 in *. change (2 ^ 52) with 4503599627370496 in *.
  destruct Dc as [D | [D | D]]; rewrite D in *.
  - change (2 ^ (53 - 53)) with 1 in *. rewrite Z.div_1_r in *.
    destruct Hmf as [[-> ->] | [-> ->]]; destruct Hcase as [(-> & Hm' & _) | (-> & Hm' & Hs)];
      lia.
  - change (2 ^ (54 - 53)) with 2 in *. change (2 ^ (54 - 1)) with 9007199254740992 in *.
    assert (Q2 : q / 2 * 2 <= q) by (pose proof (Z.div_mod q 2 ltac:(lia));
                                     pose proof (Z.mod_pos_bound q 2 ltac:(lia)); lia).
    destruct Hmf as [[-> ->] | [-> ->]]; destruct Hcase as [(-> & Hm' & _) | (-> & Hm' & Hs)];
      lia.
  - change (2 ^ (55 - 1)) with 18014398509481984 in *.
    destruct Hmf as [[-> ->] | [-> ->]]; lia.
Qed.

Lemma lt_of_not_le (a b : float) (ma mb : positive) (ea eb : Z) :
  Prim2SF a = S754_finite false ma ea -> Prim2SF b = S754_finite false mb eb ->
  (b <=? a)%float = false -> (a <? b)%float = true.
Proof.
  intros Ea Eb. rewrite leb_spec, ltb_spec, Ea, Eb. intros H.
  apply SFltb_finite_pos.
  destruct (Z_lt_le_dec ea eb) as [|H1]; [lia|].
  destruct (Z_lt_le_dec eb ea) as [H2|H2].
  - assert (T : SFleb (S754_finite false mb eb) (S754_finite false ma ea) = true)
      by (apply SFleb_finite_pos; lia). congruence.
  - destruct (Z_lt_le_dec (Zpos ma) (Zpos mb)) as [|H3]; [lia|].
    assert (T : SFleb (S754_finite false mb eb) (S754_finite false ma ea) = true)
      by (apply SFleb_finite_pos; lia). congruence.
Qed.

(** zoomIn below the maximum raises the zoom level, and zoomOut above the
    minimum lowers it: whenever the guard of line 78 or 90 lets the function
    run, the level it leaves differs from the one it found. *)
Theorem zoom_moves_level (st : State) (w : Wave) :
  ws st = Some w -> in_zoom_range (currentZoom st) ->
  (js_ge (currentZoom st) maxZoom = false ->
   js_lt (currentZoom st) (currentZoom (zoomIn st)) = true)
  /\ (js_le (currentZoom st) minZoom = false ->
      js_lt (currentZoom (zoomOut st)) (currentZoom st) = true).
Proof.
  intros W [Hlo Hhi]. unfold js_le, minZoom, maxZoom in Hlo, Hhi.
  destruct (ge_one_inv _ Hlo) as [E | (m & e & E & He & Hm)];
    [rewrite leb_spec, E in Hhi; discriminate|].
  pose proof (le_100_inv _ m e E Hhi) as H100.
  split; intros G.
  - unfold zoomIn. rewrite W, G. rewrite updateZoomDisplay_currentZoom.
    destruct st as [j a b w0 wo wp pu ou z fl tx ht tr].
    cbn [currentZoom set_currentZoom emit set_trace] in *.
    set (f := if js_lt z 10%float then 1.5%float else 2%float).
    assert (Hf : f = 1.5%float \/ f = 2%float) by (subst f; destruct (js_lt z 10%float); auto).
    assert (Hf1 : (1 <=? f)%float = true) by (destruct Hf as [-> | ->]; reflexivity).
    pose proof (mul_zoom_factor_increases z f m e E He Hf) as Inc.
    pose proof (mul_ge_one _ _ Hlo Hf1) as P1.
    unfold Math_min, js_lt, maxZoom.
    rewrite (ge_one_not_nan _ P1).
    change (is_nan 100%float) with false. change (is_neg_zero 100%float) with false.
    cbn [orb andb].
    destruct (100 <? z * f)%float; [|exact Inc].
    apply (lt_of_not_le z 100%float m 7036874417766400 e (-46) E eq_refl). exact G.
  - unfold zoomOut. rewrite W, G. rewrite updateZoomDisplay_currentZoom.
    destruct st as [j a b w0 wo wp pu ou z fl tx ht tr].
    cbn [currentZoom set_currentZoom emit set_trace] in *.
    set (f := if js_le z 10%float then 1.5%float else 2%float).
    assert (Hf : f = 1.5%float \/ f = 2%float) by (subst f; destruct (js_le z 10%float); auto).
    pose proof (div_zoom_factor_decreases z f m e E ltac:(lia) Hf) as Dec.
    unfold Math_max, js_lt, js_gt, minZoom.
    assert (N : is_nan (z / f) = false).
    { rewrite ltb_spec in Dec. unfold is_nan. rewrite FloatAxioms.eqb_spec.
      destruct (Prim2SF (z / f)%float) as [s|s| |s m' e'] eqn:Q; try discriminate;
        try (destruct s; reflexivity).
      unfold SFeqb, SFcompare. rewrite Z.compare_refl, (Pos.compare_cont_refl m' Eq).
      destruct s; reflexivity. }
    rewrite N.
    change (is_nan 1%float) with false. change (is_pos_zero 1%float) with false.
    cbn [orb andb].
    destruct (z / f <? 1)%float; [|exact Dec].
    apply (lt_of_not_le 1%float z 4503599627370496 m (-52) e eq_refl E). exact G.
Qed.

Lemma zoom_moves_level_witness :
  (js_ge (currentZoom sample_page) maxZoom = false ->
   js_lt (currentZoom sample_page) (currentZoom (zoomIn sample_page)) = true)
  /\ (js_le (currentZoom sample_page) minZoom = false ->
      js_lt (currentZoom (zoomOut sample_page)) (currentZoom sample_page) = true).
Proof.
  apply (zoom_moves_level sample_page
           (wave_load (ObjectURL sample_file) (create_wave "#wave" "Take Five.MP3")));
    [reflexivity | split; reflexivity].
Defined.

(** * Integers as floats, and their hundredths *)

Lemma shift_pos_value (k p : positive) : Zpos (Pos.iter xO p k) = Zpos p * 2 ^ Zpos k.
Proof.
  change (Pos.iter xO p k) with (shift_pos k p).
  rewrite shift_pos_correct, Z.pow_pos_fold. apply Z.mul_comm.
Qed.

(** The float of an integer of at most 53 bits holds it exactly, with a
    mantissa of 53 bits. *)
Lemma binary_round_integer (s : bool) (p : positive) : Zpos p < 2 ^ 53 ->
  exists m, Prim2SF (SF2Prim (binary_round prec emax s p 0))
            = S754_finite s m (Zdigits2 (Zpos p) - 53)
            /\ Zpos m = Zpos p * 2 ^ (53 - Zdigits2 (Zpos p)).
Proof.
  intros H53. assert (H0 : 0 < Zpos p) by lia.
  pose proof (Zdigits2_bounds (Zpos p) H0) as [Blo Bhi].
  destruct (Zdigits2_between (Zpos p) 0 53 ltac:(lia) ltac:(cbn; lia) H53) as [D0 D53].
  set (d := Zdigits2 (Zpos p)) in *.
  assert (R : exists mz,
             shl_align p 0 (fexp prec emax (Zpos (digits2_pos p) + 0)) = (mz, d - 53)
             /\ Zpos mz = Zpos p * 2 ^ (53 - d)).
  { change (Zpos (digits2_pos p)) with d. unfold shl_align, fexp, SpecFloat.emin, prec, emax.
    replace (Z.max (d + 0 - 53) (3 - 1024 - 53) - 0) with (d - 53) by lia.
    destruct (d - 53) as [|k|k] eqn:K; try lia.
    - exists p. split; [f_equal; lia|]. replace (53 - d) with 0 by lia. lia.
    - exists (Pos.iter xO p k). split; [f_equal; lia|].
      rewrite shift_pos_value. do 2 f_equal. lia. }
  destruct R as (mz & R & V).
  assert (PV : 0 < 2 ^ (53 - d)) by (apply Z.pow_pos_nonneg; lia).
  assert (B : 2 ^ 52 <= Zpos mz < 2 ^ 53).
  { rewrite V. split.
    - replace (2 ^ 52) with (2 ^ (d - 1) * 2 ^ (53 - d))
        by (rewrite <- Z.pow_add_r by lia; f_equal; lia).
      apply Z.mul_le_mono_nonneg_r; lia.
    - replace (2 ^ 53) with (2 ^ d * 2 ^ (53 - d))
        by (rewrite <- Z.pow_add_r by lia; f_equal; lia).
      apply Z.mul_lt_mono_pos_r; lia. }
  assert (Dm : Zdigits2 (Zpos mz) = 53) by (apply Zdigits2_unique; [lia | exact B]).
  destruct (binary_round_aux_value s (Zpos mz) (d - 53) loc_Exact)
    as (m' & e' & dl & Q & Hdl & Hm1 & Hcase & Hex); [lia | lia |].
  rewrite Dm in *. change (2 ^ (53 - 53)) with 1 in *. rewrite Z.div_1_r in *.
  rewrite (Hex eq_refl eq_refl) in Hcase.
  destruct Hcase as [(-> & Hm' & _) | (_ & _ & Hbad)]; [|lia].
  assert (L : (53 + (d - 53) - 53 <=? 971) = true) by (apply Z.leb_le; lia).
  rewrite L in Q.
  exists m'. split; [|lia].
  unfold binary_round. rewrite R.
  unfold prec, emax in *. rewrite Q.
  replace (53 + (d - 53) - 53) with (d - 53) by lia.
  apply Prim2SF_SF2Prim.
  cbn [SpecFloat.valid_binary]. unfold bounded, canonical_mantissa, fexp, SpecFloat.emin, prec, emax.
  assert (Dp : Zpos (digits2_pos m') = 53).
  { change (Zpos (digits2_pos m')) with (Zdigits2 (Zpos m')).
    apply Zdigits2_unique; [lia|]. rewrite Hm', Z.add_0_r. exact B. }
  rewrite Dp. apply andb_true_intro. split; [apply Z.eqb_eq | apply Z.leb_le]; lia.
Qed.

Lemma Z2number_spec (n : Z) : 0 < n < 2 ^ 53 ->
  exists m, Prim2SF (Z2number n) = S754_finite false m (Zdigits2 n - 53)
            /\ Zpos m = n * 2 ^ (53 - Zdigits2 n).
Proof.
  intros [H0 H53]. destruct n as [|p|p]; try lia.
  exact (binary_round_integer false p H53).
Qed.









(** * The upload percentage *)

(** The quotient of two integers of at most 53 bits, the first not above
    the second, is a float that is at most 1. *)
Lemma div_at_most_one (L T : Z) : 0 < L -> L <= T -> T < 2 ^ 53 ->
  exists m e, Prim2SF (Z2number L / Z2number T) = S754_finite false m e
              /\ -106 <= e /\ (e <= -53 \/ (e = -52 /\ Zpos m = 2 ^ 52)).
Proof.
  intros HL HLT HT.
  destruct (Z2number_spec L ltac:(lia)) as (mL & EL & VL).
  destruct (Z2number_spec T ltac:(lia)) as (mT & ET & VT).
  pose proof (Zdigits2_bounds L HL) as [BLlo BLhi].
  pose proof (Zdigits2_bounds T ltac:(lia)) as [BTlo BThi].
  assert (DL0 : 0 < Zdigits2 L) by (destruct L; cbn; lia).
  destruct (Zdigits2_between T (Zdigits2 L - 1) 53 ltac:(lia) ltac:(lia) HT) as [DLT DT].
  set (dL := Zdigits2 L) in *. set (dT := Zdigits2 T) in *.
  assert (BmL : 2 ^ 52 <= Zpos mL < 2 ^ 53).
  { rewrite VL.
    replace (2 ^ 52) with (2 ^ (dL - 1) * 2 ^ (53 - dL))
      by (rewrite <- Z.pow_add_r by lia; f_equal; lia).
    replace (2 ^ 53) with (2 ^ dL * 2 ^ (53 - dL))
      by (rewrite <- Z.pow_add_r by lia; f_equal; lia).
    assert (0 < 2 ^ (53 - dL)) by (apply Z.pow_pos_nonneg; lia). nia. }
  assert (BmT : 2 ^ 52 <= Zpos mT < 2 ^ 53).
  { rewrite VT.
    replace (2 ^ 52) with (2 ^ (dT - 1) * 2 ^ (53 - dT))
      by (rewrite <- Z.pow_add_r by lia; f_equal; lia).
    replace (2 ^ 53) with (2 ^ dT * 2 ^ (53 - dT))
      by (rewrite <- Z.pow_add_r by lia; f_equal; lia).
    assert (0 < 2 ^ (53 - dT)) by (apply Z.pow_pos_nonneg; lia). nia. }
  assert (DmL : Zdigits2 (Zpos mL) = 53) by (apply Zdigits2_unique; [lia | exact BmL]).
  assert (DmT : Zdigits2 (Zpos mT) = 53) by (apply Zdigits2_unique; [lia | exact BmT]).
  change (2 ^ 52) with 4503599627370496 in *. change (2 ^ 53) with 9007199254740992 in *.
  rewrite div_spec, EL, ET. unfold SF64div.
  cbn [SFdiv xorb]. unfold SFdiv_core_binary. rewrite DmL, DmT.
  unfold fexp, SpecFloat.emin, prec, emax.
  replace (Z.min (Z.max (53 + (dL - 53) - (53 + (dT - 53)) - 53) (3 - 1024 - 53))
             (dL - 53 - (dT - 53)))
    with (dL - dT - 53) by lia.
  replace (dL - 53 - (dT - 53) - (dL - dT - 53)) with 53 by lia.
  rewrite Z.shiftl_mul_pow2 by lia.
  change (2 ^ 53) with 9007199254740992.
  pose proof (Z_div_mod (Zpos mL * 9007199254740992) (Zpos mT) ltac:(lia)) as DM.
  destruct (Z.div_eucl (Zpos mL * 9007199254740992) (Zpos mT)) as [q r].
  destruct DM as [DM Hr].
  destruct (Z.eq_dec L T) as [Eq | Ne].
  - assert (Em : Zpos mL = Zpos mT) by (rewrite VL, VT; subst dL dT; rewrite Eq; reflexivity).
    assert (Hq : q = 9007199254740992) by nia.
    assert (Hr0 : r = 0) by nia.
    subst q r. exists 4503599627370496%positive, (-52).
    replace (dL - dT - 53) with (-53) by (subst dL dT; rewrite Eq; lia).
    split; [|lia].
    unfold new_location. destruct (Z.even (Zpos mT)); reflexivity.
  - assert (Hq : 4503599627370496 <= q < 18014398509481984) by nia.
    destruct (Zdigits2_between q 52 54 ltac:(lia) (proj1 Hq) (proj2 Hq)) as [D1 D2].
    destruct (binary_round_aux_value false q (dL - dT - 53) (new_location (Zpos mT) r))
      as (m' & e' & d & R & Hd & Hm1 & Hcase & _); [exact (proj1 Hq) | lia |].
    rewrite R.
    assert (Le : (e' <=? 971) = true)
      by (apply Z.leb_le; destruct Hcase as [(-> & _) | (-> & _)]; lia).
    rewrite Le. exists m', e'. split; [reflexivity|].
    change (2 ^ 52) with 4503599627370496 in *. change (2 ^ 53) with 9007199254740992 in *.
    destruct (Z.eq_dec dL dT) as [Ed | Nd].
    + assert (Lt : Zpos mL < Zpos mT).
      { rewrite VL, VT, Ed.
        assert (0 < 2 ^ (53 - dT)) by (apply Z.pow_pos_nonneg; lia). nia. }
      assert (Hq53 : q < 9007199254740992) by nia.
      assert (D53 : Zdigits2 q = 53)
        by (apply Zdigits2_unique; [lia|];
            change (2 ^ (53 - 1)) with 4503599627370496;
            change (2 ^ 53) with 9007199254740992; lia).
      rewrite D53 in Hcase.
      destruct Hcase as [(-> & _) | (-> & Hm' & _)]; lia.
    + destruct Hcase as [(-> & _) | (-> & Hm' & _)]; lia.
Qed.

(** A float that is at most 1, times 100, is a float that is at most 100,
    below the integers' exponent. *)
Lemma mul_hundred_at_most (x : float) (m : positive) (e : Z) :
  Prim2SF x = S754_finite false m e ->
  -106 <= e -> (e <= -53 \/ (e = -52 /\ Zpos m = 2 ^ 52)) ->
  exists m' e', Prim2SF (x * 100) = S754_finite false m' e'
                /\ e' < 0 /\ Zpos m' <= 100 * 2 ^ (- e').
Proof.
  intros Ex Lo Hi.
  pose proof (Prim2SF_valid x) as Vx. rewrite Ex in Vx.
  pose proof (valid_normal _ _ _ Vx ltac:(lia)) as Bx.
  change (2 ^ 52) with 4503599627370496 in *. change (2 ^ 53) with 9007199254740992 in *.
  destruct Hi as [Hi | (-> & Hm)].
  - rewrite mul_spec, Ex, Prim2SF_100. unfold SF64mul. cbn [SFmul xorb].
    set (M := Zpos (m * 7036874417766400)).
    assert (HM : M = Zpos m * 7036874417766400) by (subst M; apply Pos2Z.inj_mul).
    assert (B : 2 ^ 104 <= M < 2 ^ 106).
    { change (2 ^ 104) with 20282409603651670423947251286016.
      change (2 ^ 106) with 81129638414606681695789005144064. lia. }
    destruct (Zdigits2_between M 104 106 ltac:(lia) (proj1 B) (proj2 B)) as [D1 D2].
    destruct (binary_round_aux_value false M (e + -46) loc_Exact)
      as (m' & e' & d & R & Hd & Hm1 & Hcase & _).
    { change (2 ^ 52) with 4503599627370496.
      change (2 ^ 104) with 20282409603651670423947251286016 in B. lia. }
    { lia. }
    unfold prec, emax. rewrite R.
    assert (Le : (e' <=? 971) = true)
      by (apply Z.leb_le; destruct Hcase as [(-> & _) | (-> & _)]; lia).
    rewrite Le. exists m', e'. split; [reflexivity|].
    pose proof (Prim2SF_valid (x * 100)) as Vy.
    rewrite mul_spec, Ex, Prim2SF_100 in Vy. unfold SF64mul in Vy. cbn [SFmul xorb] in Vy.
    fold M in Vy. unfold prec, emax in Vy. rewrite R, Le in Vy.
    assert (T : e' <= -47 \/ (e' = -46 /\ Zpos m' <= 7036874417766400)).
    { change (2 ^ 53) with 9007199254740992 in *.
      assert (Dc : Zdigits2 M = 105 \/ Zdigits2 M = 106) by lia.
      destruct Dc as [D | D]; rewrite D in *.
      - destruct Hcase as [(-> & _) | (-> & Hm' & _)]; lia.
      - destruct (Z_le_gt_dec e (-54)) as [E54 | E53].
        + destruct Hcase as [(-> & _) | (-> & Hm' & _)]; lia.
        + assert (e = -53) by lia. subst e.
          change (2 ^ (106 - 53)) with 9007199254740992 in *.
          assert (Q : M / 9007199254740992 < 7036874417766400)
            by (apply Z.div_lt_upper_bound; lia).
          destruct Hcase as [(-> & Hm' & _) | (-> & _ & Hs)]; lia. }
    assert (En : e' < 0) by lia. split; [exact En|].
    destruct T as [T | (-> & T)].
    + pose proof (valid_finite_bounds _ _ _ Vy) as [Bm _].
      change (2 ^ 53) with 9007199254740992 in Bm.
      assert (2 ^ 47 <= 2 ^ (- e')) by (apply Z.pow_le_mono_r; lia).
      change (2 ^ 47) with 140737488355328 in *. lia.
    + change (2 ^ (- -46)) with 70368744177664. lia.
  - assert (X1 : x = 1%float).
    { rewrite <- (SF2Prim_Prim2SF x), Ex.
      replace m with 4503599627370496%positive by lia. reflexivity. }
    subst x. exists 7036874417766400%positive, (-46).
    split; [reflexivity|]. split; [lia|].
    change (2 ^ (- -46)) with 70368744177664. lia.
Qed.

(** Math.round of a positive float that is at most 100 is the float of an
    integer from 0 to 100. *)
Lemma Math_round_percent (y : float) (m : positive) (e : Z) :
  Prim2SF y = S754_finite false m e -> e < 0 -> Zpos m <= 100 * 2 ^ (- e) ->
  exists p, 0 <= p <= 100 /\ Math_round y = Z2number p.
Proof.
  intros Ey He Hm. unfold Math_round. rewrite Ey.
  destruct (Z.leb_spec 0 e) as [|_]; [lia|].
  set (P := 2 ^ (- e)) in *.
  assert (HP : 0 < P) by (subst P; apply Z.pow_pos_nonneg; lia).
  replace (2 ^ (- e + 1)) with (2 * P) by (subst P; rewrite Z.pow_add_r by lia; lia).
  set (n := (2 * Zpos m + P) / (2 * P)).
  assert (Hn : 0 <= n <= 100).
  { subst n. split; [apply Z.div_pos; lia|].
    assert ((2 * Zpos m + P) / (2 * P) < 101); [|lia].
    apply Z.div_lt_upper_bound; lia. }
  exists n. split; [exact Hn|].
  destruct (Z.eqb_spec n 0) as [-> | _]; reflexivity.
Qed.

Lemma percent_toString (p : Z) : 0 <= p <= 100 -> Number_toString (Z2number p) = digits p.
Proof.
  intros H.
  assert (A : forallb (fun k => String.eqb (Number_toString (Z2number (Z.of_nat k)))
                                           (digits (Z.of_nat k))) (seq 0 101) = true)
    by (vm_compute; reflexivity).
  rewrite forallb_forall in A.
  specialize (A (Z.to_nat p)). rewrite Z2Nat.id in A by lia.
  apply String.eqb_eq, A, in_seq. lia.
Qed.

Lemma xhr_progress_texts (loaded total : number) (st : State) :
  let shown := Number_toString (Math_round ((loaded / total) * 100)%float) ++ "%" in
  text (xhr_progress true loaded total st) uploadPercent_textContent = shown
  /\ text (xhr_progress true loaded total st) uploadProgressFill_width = shown.
Proof.
  destruct st. state_cbv. flag_simpl. split; reflexivity.
Qed.

(** While a file is sent, the progress handler of lines 338-355 shows a
    whole percentage from 0 to 100, the same in the width of the bar and in
    the text beside it, whenever the bytes sent do not exceed the total:
    the roundings of the division, of the product and of Math.round never
    push it past 100. *)
Theorem upload_percent_within_bounds (L T : Z) (st : State) :
  0 <= L <= T -> 0 < T < 2 ^ 53 ->
  exists p, 0 <= p <= 100
    /\ text (xhr_progress true (Z2number L) (Z2number T) st) uploadPercent_textContent
       = digits p ++ "%"
    /\ text (xhr_progress true (Z2number L) (Z2number T) st) uploadProgressFill_width
       = digits p ++ "%".
Proof.
  intros HL HT.
  destruct (xhr_progress_texts (Z2number L) (Z2number T) st) as [-> ->].
  assert (K : exists p, 0 <= p <= 100
                /\ Math_round (Z2number L / Z2number T * 100)%float = Z2number p).
  { destruct (Z.eq_dec L 0) as [-> | NZ].
    - exists 0. split; [lia|].
      destruct (Z2number_spec T ltac:(lia)) as (mT & ET & _).
      assert (Z0 : (Z2number 0 / Z2number T * 100)%float = 0%float).
      { rewrite <- (SF2Prim_Prim2SF (Z2number 0 / Z2number T * 100)).
        rewrite mul_spec, div_spec, ET. reflexivity. }
      rewrite Z0. reflexivity.
    - destruct (div_at_most_one L T ltac:(lia) ltac:(lia) ltac:(lia))
        as (m & e & E1 & Lo & Hi).
      destruct (mul_hundred_at_most _ m e E1 Lo Hi) as (m' & e' & E2 & Ne & Hm).
      exact (Math_round_percent _ m' e' E2 Ne Hm). }
  destruct K as (p & Hp & ->). exists p.
  rewrite (percent_toString p Hp). auto.
Qed.

Lemma upload_percent_within_bounds_witness :
  exists p, 0 <= p <= 100
    /\ text (xhr_progress true (Z2number 1048576) (Z2number 3145728) sample_page)
         uploadPercent_textContent = digits p ++ "%"
    /\ text (xhr_progress true (Z2number 1048576) (Z2number 3145728) sample_page)
         uploadProgressFill_width = digits p ++ "%".
Proof.
  apply (upload_percent_within_bounds 1048576 3145728 sample_page); lia.
Defined.

(** One third sent shows as 33%; nothing as 0%; all as 100%.  A total of
    zero bytes, which the handler does not exclude, shows as NaN%. *)
Example upload_percent_samples :
  text (xhr_progress true (Z2number 1048576) (Z2number 3145728) blank_page)
    uploadPercent_textContent = "33%"
  /\ text (xhr_progress true (Z2number 0) (Z2number 3145728) blank_page)
       uploadPercent_textContent = "0%"
  /\ text (xhr_progress true (Z2number 3145728) (Z2number 3145728) blank_page)
       uploadPercent_textContent = "100%"
  /\ text (xhr_progress true (Z2number 0) (Z2number 0) blank_page)
       uploadPercent_textContent = "NaN%".
Proof. vm_compute. repeat split; reflexivity. Qed.

(** * An anchor that outlives its track *)



(** * The progress bar and its text *)

Ltac keep_bar :=
  state_cbv; flag_simpl; first [assumption | reflexivity].

Lemma zoom_bar (op : zoom_op) (st : State) : bar_agrees st -> bar_agrees (apply_zoom op st).
Proof.
  unfold bar_agrees.
  destruct st as [j a b w wo wp pu ou z fl tx ht tr]. cbn [text]. intros H.
  destruct op; cbn [apply_zoom]; destruct w; try keep_bar; state_cbv.
  - destruct (js_ge z maxZoom); [exact H|].
    match goal with |- context [js_ge ?x 10%float] => destruct (js_ge x 10%float) end; keep_bar.
  - destruct (js_le z minZoom); [exact H|].
    match goal with |- context [js_ge ?x 10%float] => destruct (js_ge x 10%float) end; keep_bar.
Qed.

Lemma step_bar (e : event) (st : State) : bar_agrees st -> bar_agrees (step e st).
Proof.
  intros H.
  pose proof (upload_event_shapes e st) as U.
  destruct e;
    try (destruct U as (st0 & H0 & [E | [(? & E) | [(? & ? & ? & ? & E) | (? & ? & ? & ? & ? & ? & E)]]]);
         rewrite E; clear E;
         destruct H0 as [-> | [-> | (? & ->)]];
         unfold bar_agrees in *;
         destruct st as [j' a' b' w wo wp pu ou z fl tx ht tr]; cbn [text] in H; try destruct w;
         keep_bar);
    clear U; cbn [step].
  - unfold bar_agrees in *. destruct st as [j' a' b' w wo wp pu ou z fl tx ht tr]; cbn [text] in H. keep_bar.
  - destruct selected as [f|]; [|exact H].
    unfold bar_agrees in *.
    destruct (fileInput_change_cases f st) as [[_ (h & E)] | [A E]]; cbv zeta in E; rewrite E;
      destruct st as [j' a' b' w wo wp pu ou z fl tx ht tr]; cbn [text] in H; state_cbv;
      destruct (js_ge minZoom 10%float); keep_bar.
  - unfold bar_agrees in *. destruct st as [j' a' b' w wo wp pu ou z fl tx ht tr]; cbn [text] in H.
    destruct lengthComputable; keep_bar.
  - unfold bar_agrees in *. destruct st as [j' a' b' w wo wp pu ou z fl tx ht tr]; cbn [text] in H.
    destruct wo, wp, ou as [uo|], pu as [up|]; state_cbv;
      try destruct (url_truthy (Some uo)); try destruct (url_truthy (Some up)); keep_bar.
  - unfold bar_agrees in *. destruct st as [j' a' b' w wo wp pu ou z fl tx ht tr]; cbn [text] in H.
    destruct w; state_cbv; [destruct (js_ge minZoom 10%float)|]; keep_bar.
  - unfold bar_agrees in *. destruct st as [j' a' b' w wo wp pu ou z fl tx ht tr]; cbn [text] in H.
    destruct w; keep_bar.
  - unfold bar_agrees in *. destruct st as [j' a' b' w wo wp pu ou z fl tx ht tr]; cbn [text] in H.
    destruct w; keep_bar.
  - unfold bar_agrees in *. destruct st as [j' a' b' w wo wp pu ou z fl tx ht tr]; cbn [text] in H.
    destruct w; keep_bar.
  - unfold bar_agrees in *. destruct st as [j' a' b' w wo wp pu ou z fl tx ht tr]; cbn [text] in H.
    destruct w; keep_bar.
  - unfold bar_agrees in *. destruct st as [j' a' b' w wo wp pu ou z fl tx ht tr]; cbn [text] in H.
    destruct w; keep_bar.
  - unfold bar_agrees in *. destruct st as [j' a' b' w wo wp pu ou z fl tx ht tr]; cbn [text] in H.
    destruct wp; keep_bar.
  - unfold bar_agrees in *. destruct st as [j' a' b' w wo wp pu ou z fl tx ht tr]; cbn [text] in H.
    destruct w; keep_bar.
  - apply (zoom_bar ZoomIn), H.
  - apply (zoom_bar ZoomOut), H.
  - apply (zoom_bar ZoomToFit), H.
  - unfold bar_agrees in *. destruct st as [j' a' b' w wo wp pu ou z fl tx ht tr]; cbn [text] in H.
    state_cbv. destruct (negb (ToBoolean j')); [exact H|]. destruct a'; keep_bar.
  - unfold bar_agrees in *. destruct st as [j' a' b' w wo wp pu ou z fl tx ht tr]; cbn [text] in H.
    state_cbv. destruct r as [|status json]; [keep_bar|].
    destruct (res_ok status); [keep_bar|].
    destruct json as [err|]; [destruct (Get err "detail")|]; keep_bar.
  - unfold bar_agrees in *. destruct st as [j' a' b' w wo wp pu ou z fl tx ht tr]; cbn [text] in H.
    destruct wp; state_cbv; [destruct isPlaying|]; keep_bar.
  - unfold document_keydown.
    destruct (String.eqb targetTagName "INPUT"); [exact H|].
    destruct (String.eqb key "+" || String.eqb key "="); [apply (zoom_bar ZoomIn), H|].
    destruct (String.eqb key "-"); [apply (zoom_bar ZoomOut), H|].
    destruct (String.eqb key "0"); [apply (zoom_bar ZoomToFit), H|].
    destruct (String.eqb key " "); [|exact H].
    unfold bar_agrees in *. destruct st as [j' a' b' w wo wp pu ou z fl tx ht tr]; cbn [text] in H.
    destruct w; keep_bar.
  - unfold wave_wheel. destruct (ws st); [|exact H].
    destruct (negb ctrlKey); [exact H|].
    destruct (js_lt deltaY 0%float); [apply (zoom_bar ZoomIn), H | apply (zoom_bar ZoomOut), H].
Qed.

(** Over every sequence of events the width of the progress bar is the
    percentage written beside it: the handlers that set one set the other
    to the same text (0% when an upload starts, the rounded percentage on
    progress, 100% on a 2xx response), and no other handler touches
    either. *)
Theorem progress_bar_matches_text (es : list event) (st : State) :
  text st uploadProgressFill_width = text st uploadPercent_textContent ->
  text (run es st) uploadProgressFill_width = text (run es st) uploadPercent_textContent.
Proof.
  revert st. induction es as [|e es IH]; intros st H; cbn [run]; [exact H|].
  apply IH, (step_bar e st), H.
Qed.

Lemma progress_bar_matches_text_witness :
  let es := [FileChange (Some sample_file);
             XhrProgress true (Z2number 1048576) (Z2number 3145728);
             WsSeek 3%float; ZoomInClick] in
  text (run es sample_page) uploadProgressFill_width
  = text (run es sample_page) uploadPercent_textContent.
Proof.
  apply (progress_bar_matches_text _ sample_page). reflexivity.
Defined.

(** * The zoom controls *)

Ltac keep_shown :=
  state_cbv; flag_simpl; first [assumption | repeat split; reflexivity].

Lemma updateZoomDisplay_shown (st : State) : zoom_shown (updateZoomDisplay st).
Proof.
  unfold zoom_shown, updateZoomDisplay.
  destruct st as [j a b w wo wp pu ou z fl tx ht tr]. cbn [currentZoom].
  destruct (js_ge z 10%float) eqn:G; state_cbv; flag_simpl; rewrite ?G; repeat split; reflexivity.
Qed.

Lemma zoom_shown_kept (op : zoom_op) (st : State) :
  zoom_shown st -> zoom_shown (apply_zoom op st).
Proof.
  intros H. destruct op; cbn [apply_zoom]; [unfold zoomIn | unfold zoomOut | unfold zoomToFit];
    destruct (ws st); try exact H.
  - destruct (js_ge (currentZoom st) maxZoom); [exact H | apply updateZoomDisplay_shown].
  - destruct (js_le (currentZoom st) minZoom); [exact H | apply updateZoomDisplay_shown].
  - apply updateZoomDisplay_shown.
Qed.

Lemma step_zoom_shown (e : event) (st : State) : zoom_shown st -> zoom_shown (step e st).
Proof.
  intros H.
  pose proof (upload_event_shapes e st) as U.
  destruct e;
    try (destruct U as (st0 & H0 & [E | [(? & E) | [(? & ? & ? & ? & E) | (? & ? & ? & ? & ? & ? & E)]]]);
         rewrite E; clear E;
         destruct H0 as [-> | [-> | (? & ->)]];
         unfold zoom_shown in *;
         destruct st as [j' a' b' w wo wp pu ou z fl tx ht tr];
         cbn [text flag currentZoom] in H; try destruct w;
         keep_shown);
    clear U; cbn [step].
  - unfold zoom_shown in *. destruct st as [j' a' b' w wo wp pu ou z fl tx ht tr];
      cbn [text flag currentZoom] in H. keep_shown.
  - destruct selected as [f|]; [|exact H].
    unfold zoom_shown in *. clear H.
    destruct (fileInput_change_cases f st) as [[_ (h & E)] | [A E]]; cbv zeta in E; rewrite E;
      destruct st as [j' a' b' w wo wp pu ou z fl tx ht tr]; state_cbv;
      change (js_ge minZoom 10%float) with false; keep_shown.
  - unfold zoom_shown in *. destruct st as [j' a' b' w wo wp pu ou z fl tx ht tr];
      cbn [text flag currentZoom] in H.
    destruct lengthComputable; keep_shown.
  - unfold zoom_shown in *. destruct st as [j' a' b' w wo wp pu ou z fl tx ht tr];
      cbn [text flag currentZoom] in H.
    destruct wo, wp, ou as [uo|], pu as [up|]; state_cbv;
      try destruct (url_truthy (Some uo)); try destruct (url_truthy (Some up)); keep_shown.
  - unfold ws_ready. destruct (ws st); [apply updateZoomDisplay_shown | exact H].
  - unfold zoom_shown in *. destruct st as [j' a' b' w wo wp pu ou z fl tx ht tr];
      cbn [text flag currentZoom] in H. destruct w; keep_shown.
  - unfold zoom_shown in *. destruct st as [j' a' b' w wo wp pu ou z fl tx ht tr];
      cbn [text flag currentZoom] in H. destruct w; keep_shown.
  - unfold zoom_shown in *. destruct st as [j' a' b' w wo wp pu ou z fl tx ht tr];
      cbn [text flag currentZoom] in H. destruct w; keep_shown.
  - unfold zoom_shown in *. destruct st as [j' a' b' w wo wp pu ou z fl tx ht tr];
      cbn [text flag currentZoom] in H. destruct w; keep_shown.
  - unfold zoom_shown in *. destruct st as [j' a' b' w wo wp pu ou z fl tx ht tr];
      cbn [text flag currentZoom] in H. destruct w; keep_shown.
  - unfold zoom_shown in *. destruct st as [j' a' b' w wo wp pu ou z fl tx ht tr];
      cbn [text flag currentZoom] in H. destruct wp; keep_shown.
  - unfold zoom_shown in *. destruct st as [j' a' b' w wo wp pu ou z fl tx ht tr];
      cbn [text flag currentZoom] in H. destruct w; keep_shown.
  - apply (zoom_shown_kept ZoomIn), H.
  - apply (zoom_shown_kept ZoomOut), H.
  - apply (zoom_shown_kept ZoomToFit), H.
  - unfold zoom_shown in *. destruct st as [j' a' b' w wo wp pu ou z fl tx ht tr];
      cbn [text flag currentZoom] in H.
    state_cbv. destruct (negb (ToBoolean j')); [exact H|]. destruct a'; keep_shown.
  - unfold zoom_shown in *. destruct st as [j' a' b' w wo wp pu ou z fl tx ht tr];
      cbn [text flag currentZoom] in H.
    state_cbv. destruct r as [|status json]; [keep_shown|].
    destruct (res_ok status); [keep_shown|].
    destruct json as [err|]; [destruct (Get err "detail")|]; keep_shown.
  - unfold zoom_shown in *. destruct st as [j' a' b' w wo wp pu ou z fl tx ht tr];
      cbn [text flag currentZoom] in H.
    destruct wp; state_cbv; [destruct isPlaying|]; keep_shown.
  - unfold document_keydown.
    destruct (String.eqb targetTagName "INPUT"); [exact H|].
    destruct (String.eqb key "+" || String.eqb key "="); [apply (zoom_shown_kept ZoomIn), H|].
    destruct (String.eqb key "-"); [apply (zoom_shown_kept ZoomOut), H|].
    destruct (String.eqb key "0"); [apply (zoom_shown_kept ZoomToFit), H|].
    destruct (String.eqb key " "); [|exact H].
    unfold zoom_shown in *. destruct st as [j' a' b' w wo wp pu ou z fl tx ht tr];
      cbn [text flag currentZoom] in H. destruct w; keep_shown.
  - unfold wave_wheel. destruct (ws st); [|exact H].
    destruct (negb ctrlKey); [exact H|].
    destruct (js_lt deltaY 0%float);
      [apply (zoom_shown_kept ZoomIn), H | apply (zoom_shown_kept ZoomOut), H].
Qed.

(** Over every sequence of events the zoom label and the zoom-in and
    zoom-out buttons stay as updateZoomDisplay leaves them for the current
    zoom level: the label reads the level (one decimal below 10, a whole
    number from 10 on), zoom-out is disabled exactly at or below the
    minimum and zoom-in exactly at or above the maximum.  Every handler
    that changes the level or these buttons calls updateZoomDisplay
    last. *)
Theorem zoom_controls_mirror_level (es : list event) (st : State) :
  zoom_shown st -> zoom_shown (run es st).
Proof.
  revert st. induction es as [|e es IH]; intros st H; cbn [run]; [exact H|].
  apply IH, (step_zoom_shown e st), H.
Qed.

Lemma zoom_controls_mirror_level_witness :
  zoom_shown (run [ZoomInClick; KeyDown "BODY" "+"; FileChange (Some sample_file);
                   Wheel true (-3)%float; WsReady 42%float; ZoomOutClick] sample_page).
Proof.
  apply (zoom_controls_mirror_level _ sample_page). vm_compute. repeat split; reflexivity.
Defined.
